(** * Narrative photo organizer: detection, reconciliation and ordering

    A shallow embedding of the organizational core of the application:

    - [photoOrdering.ts]: [comparePhotos], [sortPhotos] and its grouped
      views, [getPhotoIndex], [navigatePhotos];
    - [folderDetectionService.ts]: the day and bucket patterns,
      [extractDayFromFolderName], [detectBucketFromFolderName],
      [analyzePathStructure], [shouldSkipFolder], [suggestFolderName],
      [detectFolderStructure];
    - [projectService.ts]: [collectFiles], [buildPhotosFromHandle],
      [clusterPhotosByTime], [applyArchiveFolder], [initProject],
      [getState], [saveState], [deleteProject];
    - [exportManifest.ts]: [determineIfShouldExport],
      [generateExportManifest];
    - [pathResolver.ts]: [resolveSourceRoot], [resolveDestinationRoot],
      [autoDetectIngestState], [resolveMeceBucketPath].

    JavaScript strings are sequences of UTF-16 code units, numbers that
    the code only uses as integers are in [Z], [null]/[undefined] are
    [None].

    The modules of the first part hold the program, one module per source
    file; the modules of the second part hold what is proved of it. *)

From Stdlib Require Import ZArith NArith List Bool Lia String Ascii.

From Stdlib Require Import DecimalString DecimalZ.

From stdpp Require Import gmap list sorting.

Local Open Scope Z_scope.

(** ** Strings *)

(** A JavaScript string: its UTF-16 code units. *)
Abbreviation jsstring := (list N).

(** A literal of the Basic Latin block. *)
Fixpoint str (s : string) : jsstring :=
  match s with
  | EmptyString => []
  | String c s' => N_of_ascii c :: str s'
  end.

Arguments str : simpl never.

(** [a || b] where [a] is an optional string: [undefined] and [''] are
    falsy. *)
Definition str_or (a : option jsstring) (b : jsstring) : jsstring :=
  match a with
  | Some (c :: s) => c :: s
  | _ => b
  end.

(** Truthiness of an optional string. *)
Definition truthy (a : option jsstring) : bool :=
  match a with
  | Some (_ :: _) => true
  | _ => false
  end.

(** ** Data model ([projectService.ts]) *)

Inductive Confidence := high | medium | low | none.

(** [ProjectPhoto], without [fileHandle] and [metadata], which none of
    the functions below reads. *)
Record ProjectPhoto := {
  id : jsstring;
  originalName : jsstring;
  currentName : jsstring;
  timestamp : Z;
  day : option Z;
  bucket : option jsstring;
  sequence : option Z;
  favorite : bool;
  rating : Z;
  archived : bool;
  thumbnail : jsstring;
  mimeType : jsstring;
  filePath : option jsstring;
  sourceFolder : jsstring;
  folderHierarchy : list jsstring;
  detectedDay : option Z;
  detectedBucket : option jsstring;
  isPreOrganized : bool;
  organizationConfidence : Confidence;
  (** [None] is [undefined], [Some None] is [null]. *)
  subfolderOverride : option (option jsstring)
}.

(** ** Ordering engine ([photoOrdering.ts]) *)

Module Ordering.

Inductive GroupBy := subfolder | bucketGroup | dayGroup.

Record SortOptions := {
  groupBy : option GroupBy;
  separateVideos : bool;
  selectedDay : option Z;
  getSubfolderGroup : option (ProjectPhoto -> option Z -> jsstring);
  isVideo : option (ProjectPhoto -> bool)
}.

(** [sortPhotos(photos)] with [options = {}]. *)
Definition noOptions : SortOptions :=
  {| groupBy := None; separateVideos := false; selectedDay := None;
     getSubfolderGroup := None; isVideo := None |}.

Record OrderingGroup := {
  label : jsstring;
  groupPhotos : list ProjectPhoto;
  startIndex : Z
}.

Record OrderingResult := {
  photos : list ProjectPhoto;
  indexMap : gmap jsstring Z;
  groups : option (list OrderingGroup)
}.

Inductive Direction := next | prev.

Section ArraySort.
Context {A : Type} (compareFn : A -> A -> Z).

Fixpoint sort_insert (x : A) (l : list A) : list A :=
  match l with
  | [] => [x]
  | y :: l' => if compareFn x y <=? 0 then x :: y :: l' else y :: sort_insert x l'
  end.

Fixpoint Array_sort (l : list A) : list A :=
  match l with
  | [] => []
  | x :: l' => sort_insert x (Array_sort l')
  end.

End ArraySort.

Section Engine.
(** [String.prototype.localeCompare]: negative, zero or positive. *)
Variable localeCompare : jsstring -> jsstring -> Z.

Definition comparePhotos (a b : ProjectPhoto) : Z :=
  if negb (timestamp a =? timestamp b) then timestamp a - timestamp b
  else
    let pathA := str_or (filePath a) (str_or (Some (originalName a)) []) in
    let pathB := str_or (filePath b) (str_or (Some (originalName b)) []) in
    let pathCmp := localeCompare pathA pathB in
    if negb (pathCmp =? 0) then pathCmp
    else
      let nameCmp :=
        localeCompare (str_or (Some (originalName a)) [])
                      (str_or (Some (originalName b)) []) in
      if negb (nameCmp =? 0) then nameCmp
      else localeCompare (id a) (id b).

(** [photos.forEach((photo, index) => indexMap.set(photo.id, index))] *)
Fixpoint setIndices (ps : list ProjectPhoto) (index : Z)
    (m : gmap jsstring Z) : gmap jsstring Z :=
  match ps with
  | [] => m
  | p :: rest => setIndices rest (index + 1) (<[id p := index]> m)
  end.

Definition buildIndexMap (ps : list ProjectPhoto) : OrderingResult :=
  {| photos := ps; indexMap := setIndices ps 0 ∅; groups := None |}.

(** Stills before videos inside one group, when requested. *)
Definition emitGroup (separate : bool) (isVid : option (ProjectPhoto -> bool))
    (g : list ProjectPhoto) : list ProjectPhoto :=
  match separate, isVid with
  | true, Some v =>
      filter (fun p => negb (v p) = true) g ++ filter (fun p => v p = true) g
  | _, _ => g
  end.

(** Keys of a [Map] filled by a [forEach]: first occurrences, in
    insertion order. *)
Fixpoint mapKeys {K} `{EqDecision K} (ks : list K) (seen : list K) : list K :=
  match ks with
  | [] => []
  | k :: rest =>
      if decide (k ∈ seen) then mapKeys rest seen
      else k :: mapKeys rest (k :: seen)
  end.

Definition bucketKey (p : ProjectPhoto) : option jsstring :=
  match bucket p with
  | Some (c :: s) => Some (c :: s)
  | _ => None
  end.

Definition bucketOrder : list (option jsstring) :=
  [Some (str "A"); Some (str "B"); Some (str "C"); Some (str "D");
   Some (str "E"); Some (str "M"); Some (str "X"); None].

Definition groupByBucket (sorted : list ProjectPhoto) (separate : bool)
    (isVid : option (ProjectPhoto -> bool)) : OrderingResult :=
  buildIndexMap
    (flat_map
       (fun b => emitGroup separate isVid
                   (filter (fun p => bucketKey p = b) sorted))
       bucketOrder).

Definition compareDays (a b : option Z) : Z :=
  match a, b with
  | None, _ => 1
  | _, None => -1
  | Some x, Some y => x - y
  end.

Definition groupByDay (sorted : list ProjectPhoto) (separate : bool)
    (isVid : option (ProjectPhoto -> bool)) : OrderingResult :=
  let sortedDays := Array_sort compareDays (mapKeys (map day sorted) []) in
  buildIndexMap
    (flat_map
       (fun d => emitGroup separate isVid (filter (fun p => day p = d) sorted))
       sortedDays).

Definition compareLabels (labelA labelB : jsstring) : Z :=
  if decide (labelA = str "Day Root") then -1
  else if decide (labelB = str "Day Root") then 1
  else localeCompare labelA labelB.

(** The groups with their start indices, and the photos pushed so far. *)
Fixpoint pushGroups (separate : bool) (isVid : option (ProjectPhoto -> bool))
    (gs : list (jsstring * list ProjectPhoto)) (ordered : list ProjectPhoto)
    : list ProjectPhoto * list OrderingGroup :=
  match gs with
  | [] => (ordered, [])
  | (l, g) :: rest =>
      let r :=
        pushGroups separate isVid rest (ordered ++ emitGroup separate isVid g) in
      (fst r,
       {| label := l; groupPhotos := g; startIndex := Z.of_nat (length ordered) |}
         :: snd r)
  end.

Definition groupBySubfolder (sorted : list ProjectPhoto) (selDay : Z)
    (getGroup : ProjectPhoto -> option Z -> jsstring) (separate : bool)
    (isVid : option (ProjectPhoto -> bool)) : OrderingResult :=
  let labelOf p := getGroup p (Some selDay) in
  let labels := Array_sort compareLabels (mapKeys (map labelOf sorted) []) in
  let sortedGroups :=
    map (fun l => (l, filter (fun p => labelOf p = l) sorted)) labels in
  let r := pushGroups separate isVid sortedGroups [] in
  {| photos := fst r; indexMap := setIndices (fst r) 0 ∅; groups := Some (snd r) |}.

Definition sortPhotos (ps : list ProjectPhoto) (options : SortOptions)
    : OrderingResult :=
  let sorted := Array_sort comparePhotos ps in
  match groupBy options, selectedDay options, getSubfolderGroup options with
  | Some subfolder, Some d, Some g =>
      groupBySubfolder sorted d g (separateVideos options) (isVideo options)
  | Some bucketGroup, _, _ =>
      groupByBucket sorted (separateVideos options) (isVideo options)
  | Some dayGroup, _, _ =>
      groupByDay sorted (separateVideos options) (isVideo options)
  | _, _, _ =>
      buildIndexMap (emitGroup (separateVideos options) (isVideo options) sorted)
  end.

End Engine.

Definition getPhotoIndex (photoId : jsstring) (m : gmap jsstring Z) : Z :=
  default (-1) (m !! photoId).

Definition inRange (ps : list ProjectPhoto) (i : Z) : bool :=
  (0 <=? i) && (i <? Z.of_nat (length ps)).

(** The [while] loop of [navigatePhotos]; every turn moves [nextIndex]
    one step towards a boundary, so [length photos] turns are enough
    (lemma [navigateLoop_fuel]). *)
Fixpoint navigateLoop (ps : list ProjectPhoto) (filter : ProjectPhoto -> bool)
    (step : Z) (fuel : nat) (nextIndex : Z) : option ProjectPhoto :=
  match fuel with
  | O => None
  | S fuel' =>
      if inRange ps nextIndex then
        match ps !! Z.to_nat nextIndex with
        | Some p =>
            if filter p then Some p
            else navigateLoop ps filter step fuel' (nextIndex + step)
        | None => None
        end
      else None
  end.

Definition navigatePhotos (currentPhotoId : jsstring) (direction : Direction)
    (result : OrderingResult) (filter : option (ProjectPhoto -> bool))
    : option ProjectPhoto :=
  let currentIndex := getPhotoIndex currentPhotoId (indexMap result) in
  if currentIndex =? -1 then None
  else
    let step := match direction with next => 1 | prev => -1 end in
    let nextIndex := currentIndex + step in
    match filter with
    | Some f =>
        navigateLoop (photos result) f step (length (photos result)) nextIndex
    | None =>
        if inRange (photos result) nextIndex
        then photos result !! Z.to_nat nextIndex
        else None
    end.

(** Code-unit lexicographic comparison, the reading of [localeCompare]
    under which the comparator chain is described. *)
Fixpoint lexCompare (x y : jsstring) : Z :=
  match x, y with
  | [], [] => 0
  | [], _ :: _ => -1
  | _ :: _, [] => 1
  | c :: x', d :: y' =>
      match N.compare c d with
      | Lt => -1
      | Gt => 1
      | Eq => lexCompare x' y'
      end
  end.

(** Canonical composition, as far as the examples below need it: [e]
    followed by the combining acute accent U+0301 is U+00E9. *)
Fixpoint canonicalCompose (s : jsstring) : jsstring :=
  match s with
  | [] => []
  | c :: rest =>
      match rest with
      | d :: rest' =>
          if ((c =? 101) && (d =? 769))%N then 233%N :: canonicalCompose rest'
          else c :: canonicalCompose rest
      | [] => [c]
      end
  end.

(** A [localeCompare] that, like the one of the language, gives 0 for
    canonically equivalent strings: the code-unit order of the composed
    strings. *)
Definition canonicalCompare (x y : jsstring) : Z :=
  lexCompare (canonicalCompose x) (canonicalCompose y).

(** *** The order a comparator induces *)

(** "Not after", for a comparator. *)
Definition cmpLe {A : Type} (cmp : A -> A -> Z) (a b : A) : Prop := cmp a b <= 0.

(** [localeCompare] tells the strings of a list apart: it gives 0 for no
    two different ones. *)
Definition tellsApart (localeCompare : jsstring -> jsstring -> Z)
    (keys : list jsstring) : Prop :=
  forall x y, x ∈ keys -> y ∈ keys -> localeCompare x y = 0 -> x = y.

(** *** The keys of the base comparator *)

(** The first key after the timestamp: [filePath || originalName || '']. *)
Definition pathKey (p : ProjectPhoto) : jsstring :=
  str_or (filePath p) (str_or (Some (originalName p)) []).

Definition nameKey (p : ProjectPhoto) : jsstring :=
  str_or (Some (originalName p)) [].

(** *** Test fixtures *)

(** [createPhoto] of [photoOrdering.test.ts]. *)
Definition createPhoto (i : string) (t : Z) (path : option string)
    (name : string) (b : option string) : ProjectPhoto :=
  {| id := str i; originalName := str name; currentName := str "test.jpg";
     timestamp := t; day := None; bucket := option_map str b; sequence := None;
     favorite := false; rating := 0; archived := false; thumbnail := [];
     mimeType := []; filePath := option_map str path; sourceFolder := [];
     folderHierarchy := []; detectedDay := None; detectedBucket := None;
     isPreOrganized := false; organizationConfidence := none;
     subfolderOverride := None |}.

Definition idsOf (r : OrderingResult) : list jsstring := map id (photos r).

Definition tiedPhotos : list ProjectPhoto :=
  [createPhoto "ccc" 1000 (Some "test.jpg"%string) "test.jpg" None;
   createPhoto "aaa" 1000 (Some "test.jpg"%string) "test.jpg" None;
   createPhoto "bbb" 1000 (Some "test.jpg"%string) "test.jpg" None].

(** [createPhoto] with an id given by its code units. *)
Definition createPhotoWithId (i : jsstring) (t : Z) : ProjectPhoto :=
  {| id := i; originalName := str "test.jpg"; currentName := str "test.jpg";
     timestamp := t; day := None; bucket := None; sequence := None;
     favorite := false; rating := 0; archived := false; thumbnail := [];
     mimeType := []; filePath := None; sourceFolder := [];
     folderHierarchy := []; detectedDay := None; detectedBucket := None;
     isPreOrganized := false; organizationConfidence := none;
     subfolderOverride := None |}.

(** Two photos of the same instant whose ids are different and
    canonically equivalent: U+00E9, and [e] followed by U+0301. *)
Definition accentedPhotos : list ProjectPhoto :=
  [createPhotoWithId [233%N] 1000; createPhotoWithId [101%N; 769%N] 1000].

(** A photo followed by two photos that share an id. *)
Definition repeatedIdPhotos : list ProjectPhoto :=
  [createPhoto "a" 1000 None "test.jpg" None;
   createPhoto "dup" 1001 None "test.jpg" None;
   createPhoto "dup" 1002 None "test.jpg" None].

(** *** Well-formed results *)

(** The index map of a display sequence, as every path of [sortPhotos]
    builds it. *)
Definition indexMapOf (ps : list ProjectPhoto) : gmap jsstring Z :=
  setIndices ps 0 ∅.

(** An ordering result of the engine over photos with distinct ids. *)
Definition wellFormed (r : OrderingResult) : Prop :=
  indexMap r = indexMapOf (photos r) /\ NoDup (map id (photos r)).

(** *** The sequence of the viewer *)

Definition viewerPhotos : list ProjectPhoto :=
  [createPhoto "a" 1000 None "test.jpg" None;
   createPhoto "b" 1001 None "test.jpg" (Some "A"%string);
   createPhoto "c" 1002 None "test.jpg" (Some "B"%string);
   createPhoto "d" 1003 None "test.jpg" None].

Definition viewerResult : OrderingResult :=
  sortPhotos lexCompare viewerPhotos noOptions.

Definition unassignedFilter (p : ProjectPhoto) : bool := negb (truthy (bucket p)).

End Ordering.

(** ** Regular expressions

    The patterns of the detector, run by a backtracking matcher in the
    order ECMAScript prescribes: alternatives left to right, greedy
    quantifiers longest first, the leftmost start position wins. *)

Module RegExp.

Inductive regex :=
| Eps
| Chr (cls : N -> bool)
| Seq (r1 r2 : regex)
| Alt (r1 r2 : regex)
| Opt (r : regex)
| Plus (cls : N -> bool)
| Group (n : nat) (r : regex)
| Bol
| Eol.

Fixpoint Seqs (rs : list regex) : regex :=
  match rs with
  | [] => Eps
  | [r] => r
  | r :: rs' => Seq r (Seqs rs')
  end.

Fixpoint Alts (rs : list regex) : regex :=
  match rs with
  | [] => Eps
  | [r] => r
  | r :: rs' => Alt r (Alts rs')
  end.

(** Captured groups, the latest binding first. *)
Definition captures := list (nat * jsstring).

Fixpoint capture (n : nat) (caps : captures) : option jsstring :=
  match caps with
  | [] => None
  | (m, s) :: caps' => if Nat.eqb n m then Some s else capture n caps'
  end.

(** Where the matcher stands: the offset in the input and what is left
    of it. *)
Definition cursor := (nat * jsstring)%type.

Definition continuation := cursor -> captures -> option captures.

(** Greedy [cls*] after the first unit of [cls+]. *)
Fixpoint matchStar (cls : N -> bool) (pos : nat) (s : jsstring)
    (caps : captures) (k : continuation) : option captures :=
  match s with
  | c :: s' =>
      if cls c then
        match matchStar cls (S pos) s' caps k with
        | Some r => Some r
        | None => k (pos, s) caps
        end
      else k (pos, s) caps
  | [] => k (pos, s) caps
  end.

Fixpoint matchAt (r : regex) (cur : cursor) (caps : captures)
    (k : continuation) : option captures :=
  match r with
  | Eps => k cur caps
  | Chr cls =>
      match snd cur with
      | c :: s' => if cls c then k (S (fst cur), s') caps else None
      | [] => None
      end
  | Seq r1 r2 => matchAt r1 cur caps (fun cur' caps' => matchAt r2 cur' caps' k)
  | Alt r1 r2 =>
      match matchAt r1 cur caps k with
      | Some res => Some res
      | None => matchAt r2 cur caps k
      end
  | Opt r1 =>
      match matchAt r1 cur caps k with
      | Some res => Some res
      | None => k cur caps
      end
  | Plus cls =>
      match snd cur with
      | c :: s' => if cls c then matchStar cls (S (fst cur)) s' caps k else None
      | [] => None
      end
  | Group n r1 =>
      matchAt r1 cur caps
        (fun cur' caps' =>
           k cur' ((n, take (fst cur' - fst cur) (snd cur)) :: caps'))
  | Bol => if Nat.eqb (fst cur) 0 then k cur caps else None
  | Eol => match snd cur with [] => k cur caps | _ :: _ => None end
  end.

(** Try the start positions from left to right. *)
Fixpoint searchFrom (r : regex) (pos : nat) (s : jsstring) : option captures :=
  match matchAt r (pos, s) [] (fun _ caps => Some caps) with
  | Some caps => Some caps
  | None =>
      match s with
      | [] => None
      | _ :: s' => searchFrom r (S pos) s'
      end
  end.

(** [str.match(r)] of a pattern without the [g] flag: the groups of the
    first match, or [null]. *)
Definition exec (r : regex) (s : jsstring) : option captures := searchFrom r 0 s.

(** *** Character classes *)

Definition unit_of (c : string) : N :=
  match c with
  | String a _ => N_of_ascii a
  | EmptyString => 0
  end.

Definition inRangeN (lo hi c : N) : bool := ((lo <=? c) && (c <=? hi))%N.

(** [Canonicalize] of a pattern with the [i] flag and without the [u]
    flag, on the Basic Latin block: [a]-[z] fold to [A]-[Z]. A code unit
    outside the block never folds into it, so against the Basic Latin
    letters of the patterns below nothing else matters. *)
Definition canonicalize (c : N) : N :=
  if inRangeN 97 122 c then (c - 32)%N else c.

(** A literal character under the [i] flag. *)
Definition chrI (x : N) (c : N) : bool := (canonicalize c =? canonicalize x)%N.

(** A literal character. *)
Definition chr (x : N) (c : N) : bool := (c =? x)%N.

Fixpoint litI' (s : jsstring) : regex :=
  match s with
  | [] => Eps
  | [c] => Chr (chrI c)
  | c :: s' => Seq (Chr (chrI c)) (litI' s')
  end.

(** A literal word under the [i] flag. *)
Definition litI (s : string) : regex := litI' (str s).

(** [\d] *)
Definition digit (c : N) : bool := inRangeN 48 57 c.

(** [[^\d]] *)
Definition nonDigit (c : N) : bool := negb (digit c).

(** [\s]: WhiteSpace and LineTerminator. *)
Definition whiteSpace (c : N) : bool :=
  inRangeN 9 13 c || (c =? 32)%N || (c =? 160)%N || (c =? 5760)%N
  || inRangeN 8192 8202 c || (c =? 8232)%N || (c =? 8233)%N || (c =? 8239)%N
  || (c =? 8287)%N || (c =? 12288)%N || (c =? 65279)%N.

(** [.] without the [s] flag: anything but a line terminator. *)
Definition dot (c : N) : bool :=
  negb ((c =? 10)%N || (c =? 13)%N || (c =? 8232)%N || (c =? 8233)%N).

(** *** What a match binds *)

Fixpoint groupsOf (r : regex) : list nat :=
  match r with
  | Seq r1 r2 | Alt r1 r2 => groupsOf r1 ++ groupsOf r2
  | Opt r1 => groupsOf r1
  | Group n r1 => n :: groupsOf r1
  | _ => []
  end.

End RegExp.

(** ** Pattern detector ([folderDetectionService.ts]) *)

Module Detector.

Import RegExp.

(** A successful day extraction: [{ day, pattern, confidence }]. *)
Record DayDetection := {
  detDay : Z;
  dayPattern : jsstring;
  dayConfidence : Confidence
}.

(** A successful bucket extraction: [{ bucket, confidence, pattern }]. *)
Record BucketDetection := {
  detBucket : jsstring;
  bucketConfidence : Confidence;
  bucketPattern : jsstring
}.

(** [[\s_-]] *)
Definition daySeparator (c : N) : bool :=
  whiteSpace c || chr (unit_of "_") c || chr (unit_of "-") c.

(** [\d{1,2}] *)
Definition digits12 : regex := Seq (Chr digit) (Opt (Chr digit)).

Definition digits2 : regex := Seq (Chr digit) (Chr digit).

Definition digits4 : regex := Seqs [Chr digit; Chr digit; Chr digit; Chr digit].

(** [/^(?:day|d)[\s_-]?(\d{1,2})(?:[^\d]|$)/i] *)
Definition DAY_PREFIX_PATTERN : regex :=
  Seqs [Bol; Alt (litI "day") (litI "d"); Opt (Chr daySeparator);
        Group 1 digits12; Alt (Chr nonDigit) Eol].

(** [/(\d{4})-(\d{2})-(\d{2})/] *)
Definition ISO_DATE_PATTERN : regex :=
  Seqs [Group 1 digits4; Chr (chr (unit_of "-")); Group 2 digits2;
        Chr (chr (unit_of "-")); Group 3 digits2].

(** [/(\d{4})_(\d{2})_(\d{2})/] *)
Definition ISO_DATE_PATTERN_UNDERSCORES : regex :=
  Seqs [Group 1 digits4; Chr (chr (unit_of "_")); Group 2 digits2;
        Chr (chr (unit_of "_")); Group 3 digits2].

(** [/^(\d{1,2})[\s_-]/] *)
Definition NUMERIC_PREFIX_PATTERN : regex :=
  Seqs [Bol; Group 1 digits12; Chr daySeparator].

(** [HYPHEN_PATTERN]: white space, underscore, hyphen-minus, en dash
    (U+2013), em dash (U+2014), minus sign (U+2212). *)
Definition HYPHEN_PATTERN (c : N) : bool :=
  whiteSpace c || chr (unit_of "_") c || chr (unit_of "-") c
  || chr 8211 c || chr 8212 c || chr 8722 c.

(** [[A-MX]] under the [i] flag. *)
Definition bucketLetterClass (c : N) : bool :=
  inRangeN 65 77 (canonicalize c) || (canonicalize c =? 88)%N.

(** The alternatives of [generateBucketStandardPattern], in its order. *)
Definition categories : list regex :=
  [litI "Establishing";
   litI "People";
   Seq (litI "Culture") (Opt (Seq (Opt (Chr HYPHEN_PATTERN)) (litI "Detail")));
   litI "Detail";
   Seq (litI "Action") (Opt (Seq (Opt (Chr HYPHEN_PATTERN)) (litI "Moment")));
   litI "Moment";
   litI "Transition";
   Alt (Seqs [litI "Mood"; Opt (Chr HYPHEN_PATTERN); litI "Food"])
       (Seqs [litI "Food"; Opt (Chr HYPHEN_PATTERN); litI "Mood"]);
   litI "Mood";
   litI "Food";
   litI "Archive"].

(** [^([A-MX])(?:HYPHEN+)(categories)$] with the [i] flag. *)
Definition BUCKET_STANDARD_PATTERN : regex :=
  Seqs [Bol; Group 1 (Chr bucketLetterClass); Plus HYPHEN_PATTERN;
        Group 2 (Alts categories); Eol].

(** [/^([A-MX])$/i] *)
Definition BUCKET_LETTER_PATTERN : regex :=
  Seqs [Bol; Group 1 (Chr bucketLetterClass); Eol].

(** [^([A-MX])(?:HYPHEN+)(.+)$] with the [i] flag. *)
Definition BUCKET_CUSTOM_PATTERN : regex :=
  Seqs [Bol; Group 1 (Chr bucketLetterClass); Plus HYPHEN_PATTERN;
        Group 2 (Plus dot); Eol].

(** [/^(0[1-6])$/] *)
Definition BUCKET_NUMERIC_PATTERN : regex :=
  Seqs [Bol; Group 1 (Seq (Chr (chr (unit_of "0"))) (Chr (inRangeN 49 54))); Eol].

Definition NUMERIC_TO_BUCKET_MAP : list (jsstring * jsstring) :=
  [(str "01", str "A"); (str "02", str "B"); (str "03", str "C");
   (str "04", str "D"); (str "05", str "E"); (str "06", str "M")].

Fixpoint lookupTable (key : jsstring) (table : list (jsstring * jsstring))
    : option jsstring :=
  match table with
  | [] => None
  | (k, v) :: rest => if decide (k = key) then Some v else lookupTable key rest
  end.

(** A group of a successful match; every group read below took part in
    the match. *)
Definition group (n : nat) (caps : captures) : jsstring :=
  default [] (capture n caps).

(** [parseInt(s, 10)] of a string of decimal digits. *)
Definition parseInt (s : jsstring) : Z :=
  fold_left (fun acc c => 10 * acc + (Z.of_N c - 48)) s 0.

(** [String.prototype.toUpperCase] on the Basic Latin block; the
    detector applies it to the letter captured by [[A-MX]] only. *)
Definition toUpperCase (s : jsstring) : jsstring := map canonicalize s.

(** The first alternative that yields a result: the early [return]s. *)
Fixpoint firstOf {A} (alternatives : list (option A)) : option A :=
  match alternatives with
  | [] => None
  | Some r :: _ => Some r
  | None :: rest => firstOf rest
  end.

Section Detection.
(** [new Date(s).getTime()]: the time value in milliseconds, [None] for
    an invalid date. *)
Variable Date_parse : jsstring -> option Z.
(** [String.prototype.toLowerCase]. *)
Variable toLowerCase : jsstring -> jsstring.

Definition calculateDayFromDate (dateStr : jsstring) (tripStart : option jsstring)
    : option Z :=
  let date := Date_parse dateStr in
  let start :=
    match tripStart with
    | Some (c :: s) => Date_parse (c :: s)
    | _ => date
    end in
  match date, start with
  | Some d, Some s =>
      let diffMs := d - s in
      let diffDays := diffMs / (1000 * 60 * 60 * 24) in
      Some (diffDays + 1)
  | _, _ => None
  end.

Definition dayPrefixResult (folderName : jsstring) : option DayDetection :=
  match exec DAY_PREFIX_PATTERN folderName with
  | Some dayPrefixMatch =>
      let day := parseInt (group 1 dayPrefixMatch) in
      if (1 <=? day) && (day <=? 31)
      then Some {| detDay := day; dayPattern := str "day_prefix";
                   dayConfidence := high |}
      else None
  | None => None
  end.

Definition isoResult (pattern : regex) (folderName : jsstring)
    (tripStart : option jsstring) : option DayDetection :=
  match exec pattern folderName with
  | Some isoMatch =>
      let dateStr := group 1 isoMatch ++ str "-" ++ group 2 isoMatch
                     ++ str "-" ++ group 3 isoMatch in
      match calculateDayFromDate dateStr tripStart with
      | Some day =>
          Some {| detDay := day; dayPattern := str "iso_date";
                  dayConfidence := if truthy tripStart then high else medium |}
      | None => None
      end
  | None => None
  end.

Definition numericPrefixResult (folderName : jsstring) : option DayDetection :=
  match exec NUMERIC_PREFIX_PATTERN folderName with
  | Some numericMatch =>
      let day := parseInt (group 1 numericMatch) in
      if (1 <=? day) && (day <=? 31)
      then Some {| detDay := day; dayPattern := str "numeric_prefix";
                   dayConfidence := medium |}
      else None
  | None => None
  end.

Definition extractDayFromFolderName (folderName : jsstring)
    (tripStart : option jsstring) : option DayDetection :=
  firstOf [dayPrefixResult folderName;
           isoResult ISO_DATE_PATTERN folderName tripStart;
           isoResult ISO_DATE_PATTERN_UNDERSCORES folderName tripStart;
           numericPrefixResult folderName].

Definition detectDayNumberFromFolderName (folderName : jsstring)
    (tripStart : option jsstring) : option Z :=
  detDay <$> extractDayFromFolderName folderName tripStart.

Definition detectBucketFromFolderName (folderName : jsstring)
    : option BucketDetection :=
  firstOf
    [(fun standardMatch =>
        {| detBucket := toUpperCase (group 1 standardMatch);
           bucketConfidence := high; bucketPattern := str "standard" |})
       <$> exec BUCKET_STANDARD_PATTERN folderName;
     (fun letterMatch =>
        {| detBucket := toUpperCase (group 1 letterMatch);
           bucketConfidence := high; bucketPattern := str "letter" |})
       <$> exec BUCKET_LETTER_PATTERN folderName;
     (fun customMatch =>
        {| detBucket := toUpperCase (group 1 customMatch);
           bucketConfidence := medium; bucketPattern := str "custom" |})
       <$> exec BUCKET_CUSTOM_PATTERN folderName;
     match exec BUCKET_NUMERIC_PATTERN folderName with
     | Some numericMatch =>
         (fun b => {| detBucket := b; bucketConfidence := low;
                      bucketPattern := str "numeric" |})
           <$> lookupTable (group 1 numericMatch) NUMERIC_TO_BUCKET_MAP
     | None => None
     end].

(** [s.split(/[\\/]/)] *)
Fixpoint splitPath (s : jsstring) : list jsstring :=
  match s with
  | [] => [[]]
  | c :: s' =>
      if (c =? 47)%N || (c =? 92)%N then [] :: splitPath s'
      else
        match splitPath s' with
        | seg :: segs => (c :: seg) :: segs
        | [] => [[c]]
        end
  end.

Definition nonEmpty (s : jsstring) : bool :=
  match s with [] => false | _ :: _ => true end.

(** [s.split(/[\\/]/).filter(Boolean)] *)
Definition pathParts (s : jsstring) : list jsstring :=
  List.filter nonEmpty (splitPath s).

(** [segments.slice(0, -1)] *)
Definition dropLast {A} (l : list A) : list A := take (length l - 1) l.

Record PathAnalysis := {
  paDetectedDay : option Z;
  paDetectedBucket : option jsstring;
  paIsPreOrganized : bool;
  paConfidence : Confidence;
  pathSegments : list jsstring
}.

(** [segments.findIndex(pred)], [None] for [-1]. *)
Fixpoint findIndex {A} (pred : A -> bool) (l : list A) : option nat :=
  match l with
  | [] => None
  | x :: l' => if pred x then Some 0%nat else S <$> findIndex pred l'
  end.

(** The [for] loop of the fallback: the first segment with a day, and
    the bucket of the segment after it. *)
Fixpoint scanSegments (segments : list jsstring)
    : option Z * option jsstring * Confidence * Confidence :=
  match segments with
  | [] => (None, None, none, none)
  | segment :: rest =>
      match extractDayFromFolderName segment None with
      | Some dayDetection =>
          let dayConf :=
            match dayConfidence dayDetection with high => medium | _ => low end in
          match rest with
          | bucketFolder :: _ =>
              match detectBucketFromFolderName bucketFolder with
              | Some bucketDetection =>
                  (Some (detDay dayDetection), Some (detBucket bucketDetection),
                   dayConf, bucketConfidence bucketDetection)
              | None => (Some (detDay dayDetection), None, dayConf, none)
              end
          | [] => (Some (detDay dayDetection), None, dayConf, none)
          end
      | None => scanSegments rest
      end
  end.

Definition isHigh (c : Confidence) : bool :=
  match c with high => true | _ => false end.

Definition isNone (c : Confidence) : bool :=
  match c with none => true | _ => false end.

Definition analyzePathStructure (filePath : jsstring) (optDaysFolder : option jsstring)
    : PathAnalysis :=
  let daysFolder := str_or optDaysFolder (str "01_DAYS") in
  let rawSegments := pathParts filePath in
  let pathSegments := dropLast rawSegments in
  let daysIndex :=
    findIndex
      (fun segment =>
         let lower := toLowerCase segment in
         bool_decide (lower = toLowerCase daysFolder)
         || bool_decide (lower = str "01_days")
         || bool_decide (lower = str "days"))
      pathSegments in
  let '(detectedDay, detectedBucket, dayConf, bucketConf) :=
    match daysIndex with
    | Some i =>
        if (i + 1 <? length pathSegments)%nat then
          match extractDayFromFolderName (default [] (pathSegments !! (i + 1)%nat)) None with
          | Some dayDetection =>
              match
                (if (i + 2 <? length pathSegments)%nat
                 then detectBucketFromFolderName (default [] (pathSegments !! (i + 2)%nat))
                 else None)
              with
              | Some bucketDetection =>
                  (Some (detDay dayDetection), Some (detBucket bucketDetection),
                   dayConfidence dayDetection, bucketConfidence bucketDetection)
              | None =>
                  (Some (detDay dayDetection), None, dayConfidence dayDetection, none)
              end
          | None => (None, None, none, none)
          end
        else scanSegments pathSegments
    | None => scanSegments pathSegments
    end in
  let isPreOrganized :=
    match detectedDay, detectedBucket with Some _, Some _ => true | _, _ => false end in
  let overallConfidence :=
    if isPreOrganized then
      if isHigh dayConf && isHigh bucketConf then high
      else if negb (isNone dayConf) && negb (isNone bucketConf) then medium
      else low
    else
      match detectedDay with
      | Some _ => dayConf
      | None => none
      end in
  {| paDetectedDay := detectedDay; paDetectedBucket := detectedBucket;
     paIsPreOrganized := isPreOrganized; paConfidence := overallConfidence;
     pathSegments := pathSegments |}.

End Detection.

(** *** Day extraction by shape *)

(** The word ["day"] or the letter ["d"], in any case. *)
Definition isDayWord (w : jsstring) : Prop :=
  map canonicalize w = str "DAY" \/ map canonicalize w = str "D".

(** Nothing, or one separator. *)
Definition optionalSeparator (sep : jsstring) : Prop :=
  sep = [] \/ exists c, sep = [c] /\ daySeparator c = true.

(** One or two decimal digits. *)
Definition oneOrTwoDigits (d : jsstring) : Prop :=
  (exists d1, d = [d1] /\ digit d1 = true) \/
  (exists d1 d2, d = [d1; d2] /\ digit d1 = true /\ digit d2 = true).

(** The end of the string, or a unit that is no digit. *)
Definition noDigitNext (rest : jsstring) : Prop :=
  match rest with
  | [] => True
  | c :: _ => digit c = false
  end.

(** "day" or "d", an optional separator, the number [n] in one or two
    digits, then no further digit. *)
Definition dayPrefixShape (name : jsstring) (n : Z) : Prop :=
  exists w sep d rest,
    name = w ++ sep ++ d ++ rest /\ isDayWord w /\ optionalSeparator sep /\
    oneOrTwoDigits d /\ parseInt d = n /\ noDigitNext rest.

(** The number [n] in one or two digits, then a separator. *)
Definition numericPrefixShape (name : jsstring) (n : Z) : Prop :=
  exists d c rest,
    name = d ++ c :: rest /\ oneOrTwoDigits d /\ parseInt d = n /\
    daySeparator c = true.

(** The date-only form of the ECMAScript date-time string format,
    [YYYY-MM-DD], read as midnight UTC: the instance of [new Date] used
    to evaluate the detector. *)
Definition isLeapYear (y : Z) : bool :=
  ((y mod 4 =? 0) && negb (y mod 100 =? 0)) || (y mod 400 =? 0).

Definition daysInMonth (y m : Z) : Z :=
  if m =? 2 then (if isLeapYear y then 29 else 28)
  else if (m =? 4) || (m =? 6) || (m =? 9) || (m =? 11) then 30
  else 31.

(** Days from 1970-01-01 to the civil date. *)
Definition daysFromCivil (y m d : Z) : Z :=
  let y' := if m <=? 2 then y - 1 else y in
  let era := y' / 400 in
  let yoe := y' - era * 400 in
  let doy := (153 * (if m >? 2 then m - 3 else m + 9) + 2) / 5 + d - 1 in
  let doe := yoe * 365 + yoe / 4 - yoe / 100 + doy in
  era * 146097 + doe - 719468.

Definition isoDateOnly (s : jsstring) : option Z :=
  match exec (Seqs [Bol; Group 1 digits4; Chr (chr (unit_of "-")); Group 2 digits2;
                    Chr (chr (unit_of "-")); Group 3 digits2; Eol]) s with
  | Some caps =>
      let y := parseInt (group 1 caps) in
      let m := parseInt (group 2 caps) in
      let d := parseInt (group 3 caps) in
      if (1 <=? m) && (m <=? 12) && (1 <=? d) && (d <=? daysInMonth y m)
      then Some (daysFromCivil y m d * 86400000)
      else None
  | None => None
  end.

(** [toLowerCase] on the Basic Latin block, used to evaluate the
    detector on Basic Latin paths. *)
Definition toLowerCaseLatin (s : jsstring) : jsstring :=
  map (fun c => if inRangeN 65 90 c then (c + 32)%N else c) s.

(** *** Bucket extraction *)

(** The keys of [MECE_BUCKETS] ([constants/meceBuckets.ts]). *)
Definition MECE_BUCKET_KEYS : list jsstring :=
  [str "A"; str "B"; str "C"; str "D"; str "E"; str "M"; str "X"].

(** [BUCKET_LABELS] of the same file. *)
Definition BUCKET_LABELS : list (jsstring * jsstring) :=
  [(str "A", str "Establishing"); (str "B", str "People");
   (str "C", str "Culture-Detail"); (str "D", str "Action-Moment");
   (str "E", str "Transition"); (str "M", str "Mood-Food");
   (str "X", str "Archive")].

(** [label.split(/[\s_-]+/)[0]]: what precedes the first separator. *)
Fixpoint firstToken (s : jsstring) : jsstring :=
  match s with
  | [] => []
  | c :: s' => if daySeparator c then [] else c :: firstToken s'
  end.

Fixpoint trimStart (s : jsstring) : jsstring :=
  match s with
  | c :: s' => if whiteSpace c then trimStart s' else s
  | [] => []
  end.

(** [String.prototype.trim] *)
Definition trim (s : jsstring) : jsstring := rev (trimStart (rev (trimStart s))).

(** [isMeceBucketLabel]: the check of a folder label against the bucket
    keys. *)
Definition isMeceBucketLabel (label : jsstring) : bool :=
  bool_decide (toUpperCase (firstToken (trim label)) ∈ MECE_BUCKET_KEYS).

Definition detected (b : string) (c : Confidence) (pat : string) : option BucketDetection :=
  Some {| detBucket := str b; bucketConfidence := c; bucketPattern := str pat |}.

Definition canonicalLabels : list jsstring := snd <$> BUCKET_LABELS.

Definition afterLetter (r : regex) : regex := Seq Bol (Seq (Group 1 (Chr bucketLetterClass)) r).

Definition categoryTail : regex := Seq (Group 2 (Alts categories)) Eol.

Definition customTail : regex := Seq (Group 2 (Plus dot)) Eol.

End Detector.

(** ** State reconciler ([projectService.ts]) *)

(** One entry of the persisted edit list, as [serializeState] writes it. *)
Module Edit.

Record t := {
  filePath : option jsstring;
  day : option Z;
  bucket : option jsstring;
  sequence : option Z;
  favorite : bool;
  rating : Z;
  archived : bool;
  currentName : jsstring;
  sourceFolder : jsstring;
  folderHierarchy : list jsstring;
  detectedDay : option Z;
  detectedBucket : option jsstring;
  isPreOrganized : bool;
  organizationConfidence : Confidence;
  subfolderOverride : option (option jsstring)
}.

End Edit.

Module Reconciler.

Import RegExp Detector.

(** *** String helpers of the service *)

Fixpoint startsWith (needle s : jsstring) : bool :=
  match needle, s with
  | [], _ => true
  | _ :: _, [] => false
  | a :: needle', b :: s' => (a =? b)%N && startsWith needle' s'
  end.

Fixpoint includes (needle s : jsstring) : bool :=
  startsWith needle s ||
  match s with
  | [] => false
  | _ :: s' => includes needle s'
  end.

Definition endsWith (needle s : jsstring) : bool :=
  startsWith (rev needle) (rev s).

(** [[a-z0-9]] *)
Definition lowerAlnum (c : N) : bool := inRangeN 97 122 c || inRangeN 48 57 c.

(** [s.replace(/[^a-z0-9]+/g, ' ')]: every maximal run of other units
    becomes one space. *)
Fixpoint replaceRuns (inRun : bool) (s : jsstring) : jsstring :=
  match s with
  | [] => []
  | c :: s' =>
      if lowerAlnum c then c :: replaceRuns false s'
      else if inRun then replaceRuns true s'
      else 32%N :: replaceRuns true s'
  end.

(** [s.split('.')] *)
Fixpoint splitDot (s : jsstring) : list jsstring :=
  match s with
  | [] => [[]]
  | c :: s' =>
      if (c =? 46)%N then [] :: splitDot s'
      else
        match splitDot s' with
        | seg :: segs => (c :: seg) :: segs
        | [] => [[c]]
        end
  end.

(** *** Files and settings *)

(** An entry of [collectFiles] together with what [getFile()] and
    the thumbnail step return for it. *)
Record FileEntry := {
  path : jsstring;
  name : jsstring;
  lastModified : Z;
  size : Z;
  type : jsstring;
  (** the object URL or cached preview, [''] when none could be made *)
  objectUrl : jsstring
}.

Record FolderStructure := {
  daysFolder : jsstring;
  archiveFolder : jsstring;
  favoritesFolder : jsstring;
  metaFolder : jsstring
}.

Record ProjectSettings := {
  autoDay : bool;
  folderStructure : option FolderStructure
}.

Definition DEFAULT_FOLDERS : FolderStructure :=
  {| daysFolder := str "01_DAYS"; archiveFolder := str "98_ARCHIVE";
     favoritesFolder := str "FAV"; metaFolder := str "_meta" |}.

Definition DEFAULT_SETTINGS : ProjectSettings :=
  {| autoDay := true; folderStructure := Some DEFAULT_FOLDERS |}.

Record ProjectState := {
  projectName : jsstring;
  rootPath : jsstring;
  photos : list ProjectPhoto;
  settings : ProjectSettings;
  dayLabels : list (jsstring * jsstring);
  dayContainers : list jsstring;
  stateLastModified : option Z
}.

(** The parsed content of the [narrative:projectState:<id>] entry; a
    missing key reads as [None]. *)
Record StoredState := {
  storedProjectName : option jsstring;
  storedRootPath : option jsstring;
  storedSettings : option ProjectSettings;
  storedDayLabels : option (list (jsstring * jsstring));
  storedDayContainers : option (list jsstring);
  storedLastModified : option Z;
  edits : option (list Edit.t)
}.

(** [raw ? JSON.parse(raw) : {}] for an absent entry. *)
Definition emptyStored : StoredState :=
  {| storedProjectName := None; storedRootPath := None; storedSettings := None;
     storedDayLabels := None; storedDayContainers := None;
     storedLastModified := None; edits := None |}.

(** *** Numbers in template strings *)

(** [String(n)] of an integer below [1e21]: its decimal digits, after
    a minus sign when negative. *)
Definition numberToString (n : Z) : jsstring :=
  str (DecimalString.NilEmpty.string_of_int (Z.to_int n)).

Section Service.
Variable Date_parse : jsstring -> option Z.
Variable toLowerCase : jsstring -> jsstring.
(** [generateId()]: the id drawn for the [n]-th photo of a scan. *)
Variable generateId : nat -> jsstring.

(** [`${originalName}|${timestamp}|${file.size}`] *)
Definition fileFingerprint (entry : FileEntry) : jsstring :=
  name entry ++ str "|" ++ numberToString (lastModified entry)
  ++ str "|" ++ numberToString (size entry).

Definition isHeicFile (entry : FileEntry) : bool :=
  let ext := toLowerCase (default [] (last (splitDot (name entry)))) in
  bool_decide (ext = str "heic") || bool_decide (ext = str "heif")
  || includes (str "heic") (toLowerCase (type entry)).

Definition isAccepted (c : Confidence) : bool :=
  match c with high | medium => true | _ => false end.

(** The photo pushed for a file that is not a duplicate. *)
Definition photoOfEntry (entry : FileEntry) (newId : jsstring) : ProjectPhoto :=
  let pathAnalysis := analyzePathStructure Date_parse toLowerCase (path entry) None in
  let folderSegments := dropLast (pathParts (path entry)) in
  let accepted :=
    paIsPreOrganized pathAnalysis && isAccepted (paConfidence pathAnalysis) in
  {| id := newId;
     originalName := name entry;
     currentName := name entry;
     timestamp := lastModified entry;
     day := if accepted then paDetectedDay pathAnalysis else None;
     bucket := if accepted then paDetectedBucket pathAnalysis else None;
     sequence := None;
     favorite := false;
     rating := 0;
     archived := false;
     thumbnail := objectUrl entry;
     mimeType := str_or (Some (type entry))
                   (if isHeicFile entry then str "image/heic" else []);
     filePath := Some (path entry);
     sourceFolder := str_or (last folderSegments) (str "root");
     folderHierarchy := folderSegments;
     detectedDay := paDetectedDay pathAnalysis;
     detectedBucket := paDetectedBucket pathAnalysis;
     isPreOrganized := paIsPreOrganized pathAnalysis;
     organizationConfidence := paConfidence pathAnalysis;
     subfolderOverride := None |}.

(** The [for] loop of [buildPhotosFromHandle]. *)
Fixpoint scanFiles (files : list FileEntry) (photos : list ProjectPhoto)
    (seenFiles : gset jsstring) : list ProjectPhoto :=
  match files with
  | [] => photos
  | entry :: rest =>
      let fileFingerprint := fileFingerprint entry in
      if decide (fileFingerprint ∈ seenFiles) then scanFiles rest photos seenFiles
      else
        scanFiles rest
          (photos ++ [photoOfEntry entry (generateId (length photos))])
          ({[fileFingerprint]} ∪ seenFiles)
  end.

(** [buildPhotosFromHandle], from the files [collectFiles] lists. *)
Definition buildPhotosFromHandle (files : list FileEntry) : list ProjectPhoto :=
  Ordering.Array_sort (fun a b => timestamp a - timestamp b) (scanFiles files [] ∅).

Definition isArchiveFolderSegment (segment archiveFolder : jsstring) : bool :=
  let normalized := toLowerCase segment in
  let simplified := trim (replaceRuns false normalized) in
  let explicit := toLowerCase archiveFolder in
  if nonEmpty explicit && bool_decide (normalized = explicit) then true
  else if bool_decide (normalized = str "archive")
          || bool_decide (normalized = str "archives") then true
  else if endsWith (str "_archive") normalized
          || endsWith (str "-archive") normalized then true
  else if includes (str "archive") normalized
          || includes (str "archive") simplified then true
  else false.

Definition archivePhoto (archiveFolder : jsstring) (photo : ProjectPhoto)
    : ProjectPhoto :=
  match filePath photo with
  | Some (c :: p) =>
      let segments := pathParts (c :: p) in
      if existsb (fun segment => isArchiveFolderSegment segment archiveFolder) segments
      then
        {| id := id photo; originalName := originalName photo;
           currentName := currentName photo; timestamp := timestamp photo;
           day := day photo; bucket := Some (str "X");
           sequence := sequence photo; favorite := favorite photo;
           rating := rating photo; archived := true;
           thumbnail := thumbnail photo; mimeType := mimeType photo;
           filePath := filePath photo; sourceFolder := sourceFolder photo;
           folderHierarchy := folderHierarchy photo;
           detectedDay := detectedDay photo;
           detectedBucket := detectedBucket photo;
           isPreOrganized := isPreOrganized photo;
           organizationConfidence := organizationConfidence photo;
           subfolderOverride := subfolderOverride photo |}
      else photo
  | _ => photo
  end.

Definition applyArchiveFolder (photos : list ProjectPhoto) (archiveFolder : jsstring)
    : list ProjectPhoto :=
  if nonEmpty archiveFolder then map (archivePhoto archiveFolder) photos
  else photos.

(** The [Map] of cached edits by [filePath]; a later entry replaces an
    earlier one of the same path. *)
Definition cachedEditsOf (storedEdits : list Edit.t) : gmap jsstring Edit.t :=
  fold_left
    (fun m edit =>
       match Edit.filePath edit with
       | Some (c :: p) => <[(c :: p) := edit]> m
       | _ => m
       end)
    storedEdits ∅.

(** The object spread of [getState]: the fresh photo with the cached
    edits laid over it. *)
Definition mergeCached (photo : ProjectPhoto) (cached : Edit.t) : ProjectPhoto :=
  {| id := id photo; originalName := originalName photo;
     currentName := Edit.currentName cached;
     timestamp := timestamp photo;
     day := Edit.day cached;
     bucket := if truthy (Edit.bucket cached) then Edit.bucket cached else bucket photo;
     sequence := Edit.sequence cached;
     favorite := Edit.favorite cached;
     rating := Edit.rating cached;
     archived := Edit.archived cached;
     thumbnail := thumbnail photo; mimeType := mimeType photo;
     filePath := filePath photo; sourceFolder := sourceFolder photo;
     folderHierarchy := folderHierarchy photo;
     detectedDay := detectedDay photo;
     detectedBucket := detectedBucket photo;
     isPreOrganized := isPreOrganized photo;
     organizationConfidence := organizationConfidence photo;
     subfolderOverride := Edit.subfolderOverride cached |}.

Definition lookupCached (cachedEdits : gmap jsstring Edit.t) (photo : ProjectPhoto)
    : option Edit.t :=
  match filePath photo with
  | Some (c :: p) => cachedEdits !! (c :: p)
  | _ => None
  end.

(** [freshPhotos.map(photo => cached ? {...} : photo)] *)
Definition applyCachedEdits (freshPhotos : list ProjectPhoto)
    (storedEdits : list Edit.t) : list ProjectPhoto :=
  let cachedEdits := cachedEditsOf storedEdits in
  map (fun photo =>
         match lookupCached cachedEdits photo with
         | Some cached => mergeCached photo cached
         | None => photo
         end)
      freshPhotos.

(** *** The stores behind [getState] *)

Inductive PermissionState := granted | denied | prompt.

(** A stored directory handle and what the browser answers for it. *)
Record DirectoryHandle := {
  handleName : jsstring;
  (** ['requestPermission' in handle] *)
  hasRequestPermission : bool;
  (** the answer of [requestPermission], [None] when it throws *)
  permission : option PermissionState;
  (** what [collectFiles] lists under the handle *)
  files : list FileEntry
}.

(** The IndexedDB handle store and the project states of localStorage,
    both keyed by project id. *)
Record World := {
  handleDb : gmap jsstring DirectoryHandle;
  localStorage : gmap jsstring StoredState
}.

(** The errors [getState] throws, by message. *)
Inductive GetStateError :=
| FolderAccessNotAvailable
| FileSystemAccessUnsupported
| FolderAccessExpired
| FolderAccessNotGranted
| FolderNoLongerAvailable.

(** An asynchronous step over the stores: the stores afterwards, and the
    value or the error thrown. *)
Definition Async (A : Type) : Type := World -> World * (GetStateError + A).

Definition ret {A} (a : A) : Async A := fun w => (w, inr a).

Definition throw {A} (e : GetStateError) : Async A := fun w => (w, inl e).

Definition bind {A B} (c : Async A) (k : A -> Async B) : Async B :=
  fun w =>
    match c w with
    | (w', inr a) => k a w'
    | (w', inl e) => (w', inl e)
    end.

Notation "'let!' x ':=' c 'in' k" := (bind c (fun x => k))
  (at level 10, x name, c at level 100, k at level 200, only parsing).

Notation "'do!' c 'in' k" := (bind c (fun _ => k))
  (at level 10, c at level 100, k at level 200, only parsing).

Definition getHandle (projectId : jsstring) : Async (option DirectoryHandle) :=
  fun w => (w, inr (handleDb w !! projectId)).

Definition removeHandle (projectId : jsstring) : Async unit :=
  fun w =>
    ({| handleDb := delete projectId (handleDb w); localStorage := localStorage w |},
     inr tt).

(** [safeLocalStorage.get] followed by [JSON.parse]. *)
Definition readStored (projectId : jsstring) : Async StoredState :=
  fun w => (w, inr (default emptyStored (localStorage w !! projectId))).

Definition getState (projectId : jsstring) : Async ProjectState :=
  let! handle := getHandle projectId in
  match handle with
  | None => throw FolderAccessNotAvailable
  | Some handle =>
      if negb (hasRequestPermission handle) then throw FileSystemAccessUnsupported
      else
        match permission handle with
        | None => do! removeHandle projectId in throw FolderAccessExpired
        | Some granted =>
            let! stored := readStored projectId in
            let freshPhotos := buildPhotosFromHandle (files handle) in
            if Nat.eqb (length freshPhotos) 0 then throw FolderNoLongerAvailable
            else
              let photos :=
                match edits stored with
                | Some storedEdits => applyCachedEdits freshPhotos storedEdits
                | None => freshPhotos
                end in
              let settings := default DEFAULT_SETTINGS (storedSettings stored) in
              let archivedPhotos :=
                applyArchiveFolder photos
                  (str_or (archiveFolder <$> folderStructure settings)
                          (archiveFolder DEFAULT_FOLDERS)) in
              ret {| projectName := str_or (storedProjectName stored) (handleName handle);
                     rootPath := str_or (storedRootPath stored) (handleName handle);
                     photos := archivedPhotos;
                     settings := settings;
                     dayLabels := default [] (storedDayLabels stored);
                     dayContainers := default [] (storedDayContainers stored);
                     stateLastModified := storedLastModified stored |}
        | Some _ => throw FolderAccessNotGranted
        end
  end.

(** *** The archive-folder rule *)

(** The archive folder name [getState] applies. *)
Definition configuredArchiveFolder (st : ProjectSettings) : jsstring :=
  str_or (archiveFolder <$> folderStructure st) (archiveFolder DEFAULT_FOLDERS).

(** *** The merge with the cached edits *)

(** The entry the [Map] holds for a path: the last one of the list. *)
Definition editFor (path : jsstring) (storedEdits : list Edit.t) : option Edit.t :=
  last (filter (fun e => Edit.filePath e = Some path) storedEdits).

(** *** Duplicate suppression *)

(** What the fingerprint identifies a file by. *)
Definition fileKey (entry : FileEntry) : jsstring * Z * Z :=
  (name entry, lastModified entry, size entry).

(** The files of an enumeration that are no copy of an earlier one. *)
Fixpoint firstCopies (fs : list FileEntry) (seen : list (jsstring * Z * Z))
    : list FileEntry :=
  match fs with
  | [] => []
  | entry :: rest =>
      if decide (fileKey entry ∈ seen) then firstCopies rest seen
      else entry :: firstCopies rest (fileKey entry :: seen)
  end.

(** The fingerprint the specification words: the name in lower case. *)
Definition specFingerprint (entry : FileEntry) : jsstring * Z * Z :=
  (toLowerCase (name entry), lastModified entry, size entry).

End Service.

(** *** Scans and stores to evaluate the service on *)

Definition testId (n : nat) : jsstring := str "photo-" ++ numberToString (Z.of_nat n).

Definition scan : list FileEntry -> list ProjectPhoto :=
  buildPhotosFromHandle isoDateOnly toLowerCaseLatin testId.

Definition jpeg (p n : string) (t sz : Z) : FileEntry :=
  {| path := str p; name := str n; lastModified := t; size := sz;
     type := str "image/jpeg"; objectUrl := str "blob:mock" |}.

Definition organizedScan : list ProjectPhoto :=
  scan [jpeg "01_DAYS/Day 1/A_Establishing/IMG_0001.jpg" "IMG_0001.jpg" 1000 3].

Definition cachedEdit (p : string) (b : option string) (fav arch : bool) : Edit.t :=
  {| Edit.filePath := Some (str p); Edit.day := Some 2; Edit.bucket := option_map str b;
     Edit.sequence := Some 4; Edit.favorite := fav; Edit.rating := 3;
     Edit.archived := arch; Edit.currentName := str "renamed.jpg";
     Edit.sourceFolder := []; Edit.folderHierarchy := [];
     Edit.detectedDay := None; Edit.detectedBucket := None;
     Edit.isPreOrganized := false; Edit.organizationConfidence := none;
     Edit.subfolderOverride := Some None |}.

Definition projectId : jsstring := str "kx3f2a-9q1zb7".

Definition worldOf (fs : list FileEntry) (stored : list Edit.t) : World :=
  {| handleDb :=
       {[projectId := {| handleName := str "Iceland"; hasRequestPermission := true;
                         permission := Some granted; files := fs |}]};
     localStorage :=
       {[projectId := {| storedProjectName := Some (str "Iceland 2024");
                         storedRootPath := None; storedSettings := None;
                         storedDayLabels := None; storedDayContainers := None;
                         storedLastModified := Some 1700000000000;
                         edits := Some stored |}]} |}.

(** A file moved under the archive folder, with a cached edit that still
    says bucket ["B"], not archived. *)
Definition archiveWorld : World :=
  worldOf [jpeg "98_ARCHIVE/IMG_0003.jpg" "IMG_0003.jpg" 3000 5]
          [cachedEdit "98_ARCHIVE/IMG_0003.jpg" (Some "B"%string) false false].

Definition emptyWorld : World := worldOf [] [cachedEdit "IMG_0001.jpg" None true false].

End Reconciler.

(** ** The grouped views of [photoOrdering.test.ts] *)

Module Scenarios.

Import Ordering.

Definition media (i : string) (t : Z) (mime : string) : ProjectPhoto :=
  {| id := str i; originalName := str "test.jpg"; currentName := str "test.jpg";
     timestamp := t; day := None; bucket := None; sequence := None;
     favorite := false; rating := 0; archived := false; thumbnail := [];
     mimeType := str mime; filePath := None; sourceFolder := [];
     folderHierarchy := []; detectedDay := None; detectedBucket := None;
     isPreOrganized := false; organizationConfidence := none;
     subfolderOverride := None |}.

(** [photo.mimeType?.startsWith('video/')] *)
Definition isVideoMime (photo : ProjectPhoto) : bool :=
  Reconciler.startsWith (str "video/") (mimeType photo).

(** The third path segment when the path has more than three, else the
    day root. *)
Definition subfolderOf (photo : ProjectPhoto) (_ : option Z) : jsstring :=
  match filePath photo with
  | Some (c :: p) =>
      match Detector.splitPath (c :: p) with
      | _ :: _ :: folder :: _ :: _ => folder
      | _ => str "Day Root"
      end
  | _ => str "Day Root"
  end.

End Scenarios.

(** ** What the grouped views are ordered by ([photoOrdering.ts]) *)

Module Views.
Import Ordering.

(** Days ascending, photos without a day last. *)
Definition dayLe (a b : option Z) : Prop :=
  match a, b with
  | Some x, Some y => x <= y
  | _, None => True
  | None, Some _ => False
  end.

(** The place of a key in a list of keys. *)
Fixpoint rankIn {K} `{EqDecision K} (k : K) (keys : list K) : nat :=
  match keys with
  | [] => 0
  | k' :: rest => if decide (k = k') then 0 else S (rankIn k rest)
  end.

(** The place of a photo's bucket in the bucket view. *)
Definition bucketRank (p : ProjectPhoto) : nat := rankIn (bucketKey p) bucketOrder.

(** The options of a grouped view of day 1, its subfolders read off the
    file path. *)
Definition viewOptions (view : GroupBy) : SortOptions :=
  {| groupBy := Some view; separateVideos := false; selectedDay := Some 1;
     getSubfolderGroup := Some Scenarios.subfolderOf; isVideo := None |}.

End Views.

(** ** What a detection can be ([folderDetectionService.ts]) *)

Module Analysis.
Import RegExp Detector.

(** The test of the [findIndex] in [analyzePathStructure]: the segment
    names the days folder. *)
Definition isDaysFolder (toLowerCase : jsstring -> jsstring)
    (daysFolder segment : jsstring) : bool :=
  let lower := toLowerCase segment in
  bool_decide (lower = toLowerCase daysFolder)
  || bool_decide (lower = str "01_days")
  || bool_decide (lower = str "days").

(** A capital letter the class [[A-MX]] stands for. *)
Definition classLetter (c : N) : Prop := (65 <= c <= 77)%N \/ c = 88%N.

(** What both branches of the analysis leave in their four variables. *)
Definition detectionOk (t : option Z * option jsstring * Confidence * Confidence)
    : Prop :=
  let '(detectedDay, detectedBucket, dayConf, bucketConf) := t in
  match detectedDay with
  | Some d => 1 <= d <= 31 /\ dayConf <> none
  | None => detectedBucket = None /\ dayConf = none
  end /\
  match detectedBucket with
  | Some b => (exists c, b = [c] /\ classLetter c) /\ bucketConf <> none
  | None => bucketConf = none
  end.

End Analysis.

(** ** Fresh scans ([buildPhotosFromHandle]) *)

Module Scan.
Import RegExp Detector Reconciler.

(** A photo as a scan leaves it: no edit yet. *)
Definition unedited (photo : ProjectPhoto) : Prop :=
  currentName photo = originalName photo /\ sequence photo = None /\
  favorite photo = false /\ rating photo = 0 /\ archived photo = false /\
  subfolderOverride photo = None.

End Scan.

(** ** Saving, creating and deleting a project ([projectService.ts]) *)

Module Persistence.
Import RegExp Detector Reconciler.

(** The entry [serializeState] writes for a photo: the thumbnail is not
    persisted. *)
Definition editOfPhoto (photo : ProjectPhoto) : Edit.t :=
  {| Edit.filePath := filePath photo;
     Edit.day := day photo;
     Edit.bucket := bucket photo;
     Edit.sequence := sequence photo;
     Edit.favorite := favorite photo;
     Edit.rating := rating photo;
     Edit.archived := archived photo;
     Edit.currentName := currentName photo;
     Edit.sourceFolder := sourceFolder photo;
     Edit.folderHierarchy := folderHierarchy photo;
     Edit.detectedDay := detectedDay photo;
     Edit.detectedBucket := detectedBucket photo;
     Edit.isPreOrganized := isPreOrganized photo;
     Edit.organizationConfidence := organizationConfidence photo;
     Edit.subfolderOverride := subfolderOverride photo |}.

(** [serializeState], read back by [JSON.parse]; [now] is what
    [Date.now()] returns. *)
Definition serializeState (now : Z) (state : ProjectState) : StoredState :=
  {| storedProjectName := Some (projectName state);
     storedRootPath := Some (rootPath state);
     storedSettings := Some (settings state);
     storedDayLabels := Some (dayLabels state);
     storedDayContainers := Some (dayContainers state);
     storedLastModified := Some (default now (stateLastModified state));
     edits := Some (map editOfPhoto (Reconciler.photos state)) |}.

(** [safeLocalStorage.set] of the serialized state, on a storage that
    takes the write. *)
Definition writeStored (projectId : jsstring) (stored : StoredState) : Async unit :=
  fun w =>
    ({| handleDb := handleDb w;
        localStorage := <[projectId := stored]> (localStorage w) |}, inr tt).

Definition saveState (now : Z) (projectId : jsstring) (state : ProjectState)
    : Async unit :=
  writeStored projectId (serializeState now state).

Definition saveHandle (projectId : jsstring) (handle : DirectoryHandle) : Async unit :=
  fun w =>
    ({| handleDb := <[projectId := handle]> (handleDb w);
        localStorage := localStorage w |}, inr tt).

(** [deleteProject]: the stored state goes, then the handle. *)
Definition deleteProject (projectId : jsstring) : Async unit :=
  fun w =>
    ({| handleDb := delete projectId (handleDb w);
        localStorage := delete projectId (localStorage w) |}, inr tt).

Definition gapThreshold : Z := 6 * 60 * 60 * 1000.

(** One turn of the [forEach] of [clusterPhotosByTime], over [days],
    [currentDay] and [lastTime]. *)
Definition clusterStep (st : gmap Z (list jsstring) * Z * Z) (photo : ProjectPhoto)
    : gmap Z (list jsstring) * Z * Z :=
  let '(days, currentDay, lastTime) := st in
  let '(days, currentDay) :=
    if gapThreshold <? timestamp photo - lastTime
    then (<[currentDay + 1 := []]> days, currentDay + 1)
    else (days, currentDay) in
  (alter (fun ids => ids ++ [id photo]) currentDay days, currentDay, timestamp photo).

(** [clusterPhotosByTime]: the photo ids by suggested day, a day ending
    where more than six hours pass before the next photo. *)
Definition clusterPhotosByTime (photos : list ProjectPhoto) : gmap Z (list jsstring) :=
  match photos with
  | [] => ∅
  | first :: _ => (fold_left clusterStep photos ({[1 := []]}, 1, timestamp first)).1.1
  end.

(** Consecutive photos of a list are at most six hours apart. *)
Fixpoint closeTogether (g : list ProjectPhoto) : Prop :=
  match g with
  | a :: (b :: _) as rest =>
      timestamp b - timestamp a <= gapThreshold /\ closeTogether rest
  | _ => True
  end.

(** More than six hours pass between the last photo of a group and the
    first of the next. *)
Fixpoint farApart (groups : list (list ProjectPhoto)) : Prop :=
  match groups with
  | g :: (g' :: _) as rest =>
      (forall a b, last g = Some a -> head g' = Some b ->
                   gapThreshold < timestamp b - timestamp a) /\ farApart rest
  | _ => True
  end.

(** The suggested days that hold the ids of [groups], from day 1 on. *)
Definition daysOf (groups : list (list ProjectPhoto)) (d : Z) : option (list jsstring) :=
  if decide (1 <= d) then map id <$> groups !! Z.to_nat (d - 1) else None.

Record ProjectInitResponse := {
  initProjectId : jsstring;
  initPhotos : list ProjectPhoto;
  suggestedDays : gmap Z (list jsstring)
}.

(** The errors [initProject] throws, by message. *)
Inductive InitError :=
| InitFileSystemAccessUnsupported
| InitUnableToRequestAccess
| InitFolderAccessNotGranted.

Section Service.
Variable Date_parse : jsstring -> option Z.
Variable toLowerCase : jsstring -> jsstring.
Variable generateId : nat -> jsstring.

(** [initProject]; [newProjectId] is the id [generateId()] draws for the
    project and [now] the reading of [Date.now()]. *)
Definition initProject (dirHandle : DirectoryHandle)
    (optProjectName rootLabel : option jsstring) (newProjectId : jsstring) (now : Z)
    (w : World) : World * (InitError + ProjectInitResponse) :=
  if negb (hasRequestPermission dirHandle) then (w, inl InitFileSystemAccessUnsupported)
  else
    match permission dirHandle with
    | None => (w, inl InitUnableToRequestAccess)
    | Some granted =>
        let photos :=
          applyArchiveFolder toLowerCase
            (buildPhotosFromHandle Date_parse toLowerCase generateId (files dirHandle))
            (archiveFolder DEFAULT_FOLDERS) in
        let suggestedDays := clusterPhotosByTime photos in
        let state :=
          {| projectName := str_or (trim <$> optProjectName) (handleName dirHandle);
             rootPath := str_or rootLabel (handleName dirHandle);
             Reconciler.photos := photos;
             settings := DEFAULT_SETTINGS;
             dayLabels := [];
             dayContainers := [];
             stateLastModified := Some now |} in
        let w1 := (saveHandle newProjectId dirHandle w).1 in
        let w2 := (saveState now newProjectId state w1).1 in
        (w2, inr {| initProjectId := newProjectId; initPhotos := photos;
                    suggestedDays := suggestedDays |})
    | Some _ => (w, inl InitFolderAccessNotGranted)
    end.

End Service.

(** A photo under another id. *)
Definition withId (newId : jsstring) (photo : ProjectPhoto) : ProjectPhoto :=
  {| id := newId; originalName := originalName photo;
     currentName := currentName photo; timestamp := timestamp photo;
     day := day photo; bucket := bucket photo;
     sequence := sequence photo; favorite := favorite photo;
     rating := rating photo; archived := archived photo;
     thumbnail := thumbnail photo; mimeType := mimeType photo;
     filePath := filePath photo; sourceFolder := sourceFolder photo;
     folderHierarchy := folderHierarchy photo;
     detectedDay := detectedDay photo;
     detectedBucket := detectedBucket photo;
     isPreOrganized := isPreOrganized photo;
     organizationConfidence := organizationConfidence photo;
     subfolderOverride := subfolderOverride photo |}.

(** Photos compared without their ids, which every scan draws anew. *)
Definition sameButIds (l1 l2 : list ProjectPhoto) : Prop :=
  withId [] <$> l1 = withId [] <$> l2.

(** [saved] is the scanned photo [fresh] after edits: it differs from
    it in the editable fields only, and its bucket is a non-empty string
    or the one of the scan. *)
Definition editOf (fresh saved : ProjectPhoto) : Prop :=
  withId [] (mergeCached fresh (editOfPhoto saved)) = withId [] saved.

(** The saved photo whose edits the [Map] of [getState] holds for a
    path: the last one of that path. *)
Definition savedFor (p : jsstring) (saved : list ProjectPhoto) : option ProjectPhoto :=
  last (filter (fun photo => filePath photo = Some p) saved).

(** A segment of the path of the photo is recognized as an archive
    folder. *)
Definition underArchive (toLowerCase : jsstring -> jsstring) (archiveFolder : jsstring)
    (photo : ProjectPhoto) : bool :=
  match filePath photo with
  | Some p =>
      existsb (fun segment => isArchiveFolderSegment toLowerCase segment archiveFolder)
              (pathParts p)
  | None => false
  end.

(** *** A project to evaluate the service on *)

Definition organizedFiles : list FileEntry :=
  [jpeg "01_DAYS/Day 1/A_Establishing/IMG_0001.jpg" "IMG_0001.jpg" 1000 3].

Definition organizedHandle : DirectoryHandle :=
  {| handleName := str "Iceland"; hasRequestPermission := true;
     permission := Some granted; files := organizedFiles |}.

(** The state of the project after its photo was made a favorite and
    taken out of its bucket. *)
Definition savedState : ProjectState :=
  {| projectName := str "Iceland 2024"; rootPath := str "Iceland";
     Reconciler.photos :=
       map (fun photo =>
              {| id := id photo; originalName := originalName photo;
                 currentName := currentName photo; timestamp := timestamp photo;
                 day := day photo; bucket := None;
                 sequence := sequence photo; favorite := true;
                 rating := rating photo; archived := archived photo;
                 thumbnail := thumbnail photo; mimeType := mimeType photo;
                 filePath := filePath photo; sourceFolder := sourceFolder photo;
                 folderHierarchy := folderHierarchy photo;
                 detectedDay := detectedDay photo;
                 detectedBucket := detectedBucket photo;
                 isPreOrganized := isPreOrganized photo;
                 organizationConfidence := organizationConfidence photo;
                 subfolderOverride := subfolderOverride photo |})
           (scan organizedFiles);
     settings := DEFAULT_SETTINGS; dayLabels := []; dayContainers := [];
     stateLastModified := None |}.

End Persistence.

(** ** The archived copy of a photo ([applyArchiveFolder]) *)

Module Archive.
Import Reconciler.

(** [{ ...photo, archived: true, bucket: 'X' }] *)
Definition markArchived (photo : ProjectPhoto) : ProjectPhoto :=
  {| id := id photo; originalName := originalName photo;
     currentName := currentName photo; timestamp := timestamp photo;
     day := day photo; bucket := Some (str "X");
     sequence := sequence photo; favorite := favorite photo;
     rating := rating photo; archived := true;
     thumbnail := thumbnail photo; mimeType := mimeType photo;
     filePath := filePath photo; sourceFolder := sourceFolder photo;
     folderHierarchy := folderHierarchy photo;
     detectedDay := detectedDay photo;
     detectedBucket := detectedBucket photo;
     isPreOrganized := isPreOrganized photo;
     organizationConfidence := organizationConfidence photo;
     subfolderOverride := subfolderOverride photo |}.

End Archive.

(** ** Folder mappings ([folderDetectionService.ts]) *)

(** The confidence of a mapping:
    ['high' | 'medium' | 'low' | 'undetected']. *)
Inductive MappingConfidence := ofDetection (c : Confidence) | undetected.

Module FolderMapping.

(** A [FolderMapping], without the optional fields that
    [detectFolderStructure] leaves unset. *)
Record t := {
  folder : jsstring;
  folderPath : jsstring;
  detectedDay : option Z;
  confidence : MappingConfidence;
  patternMatched : jsstring;
  suggestedName : jsstring;
  manual : bool;
  photoCount : Z
}.

End FolderMapping.

Module Structure.
Import RegExp Detector Ordering.

(** [String.prototype.padStart(targetLength, pad)] with a pad of one
    unit. *)
Definition padStart (targetLength : nat) (padUnit : N) (s : jsstring) : jsstring :=
  replicate (targetLength - length s) padUnit ++ s.

Definition suggestFolderName (day : option Z) : jsstring :=
  match day with
  | None => str "Unsorted"
  | Some d => str "Day " ++ padStart 2 (unit_of "0") (Reconciler.numberToString d)
  end.

(** [cls*], written [(?:cls+)?]: the same matches, tried in the same
    order. *)
Definition Star (cls : N -> bool) : regex := Opt (Plus cls).

(** [/^\..*/], [/^unsorted$/i], [/^inbox$/i], [/^miscellaneous$/i],
    [/^metadata$/i], [/^_meta$/i] *)
Definition skipPatterns : list regex :=
  [Seqs [Bol; Chr (chr (unit_of ".")); Star dot];
   Seqs [Bol; litI "unsorted"; Eol];
   Seqs [Bol; litI "inbox"; Eol];
   Seqs [Bol; litI "miscellaneous"; Eol];
   Seqs [Bol; litI "metadata"; Eol];
   Seqs [Bol; litI "_meta"; Eol]].

(** [pattern.test(s)] *)
Definition test (pattern : regex) (s : jsstring) : bool :=
  match exec pattern s with Some _ => true | None => false end.

Definition shouldSkipFolder (folderName : jsstring) : bool :=
  existsb (fun pattern => test pattern folderName) skipPatterns.

Section Mapping.
Variable localeCompare : jsstring -> jsstring -> Z.
Variable Date_parse : jsstring -> option Z.
Variable toLowerCase : jsstring -> jsstring.

(** The mapping pushed for a folder that is not skipped. *)
Definition mappingOf (photoCountMap : gmap jsstring Z) (tripStart : option jsstring)
    (folder : jsstring) : FolderMapping.t :=
  let photoCount := default 0 (photoCountMap !! folder) in
  match extractDayFromFolderName Date_parse folder tripStart with
  | Some extraction =>
      {| FolderMapping.folder := folder;
         FolderMapping.folderPath := folder;
         FolderMapping.detectedDay := Some (detDay extraction);
         FolderMapping.confidence := ofDetection (dayConfidence extraction);
         FolderMapping.patternMatched := dayPattern extraction;
         FolderMapping.suggestedName := suggestFolderName (Some (detDay extraction));
         FolderMapping.manual := false;
         FolderMapping.photoCount := photoCount |}
  | None =>
      {| FolderMapping.folder := folder;
         FolderMapping.folderPath := folder;
         FolderMapping.detectedDay := None;
         FolderMapping.confidence := undetected;
         FolderMapping.patternMatched := str "none";
         FolderMapping.suggestedName := suggestFolderName None;
         FolderMapping.manual := false;
         FolderMapping.photoCount := photoCount |}
  end.

(** The [for] loop of [detectFolderStructure]. *)
Fixpoint collectMappings (folders : list jsstring) (photoCountMap : gmap jsstring Z)
    (projectName : jsstring) (tripStart : option jsstring) : list FolderMapping.t :=
  match folders with
  | [] => []
  | folder :: rest =>
      if shouldSkipFolder folder
      then collectMappings rest photoCountMap projectName tripStart
      else if nonEmpty projectName
              && bool_decide (toLowerCase folder = toLowerCase projectName)
      then collectMappings rest photoCountMap projectName tripStart
      else mappingOf photoCountMap tripStart folder
           :: collectMappings rest photoCountMap projectName tripStart
  end.

(** Detected days ascending, undetected folders last, by name. *)
Definition compareMappings (a b : FolderMapping.t) : Z :=
  match FolderMapping.detectedDay a, FolderMapping.detectedDay b with
  | None, None => localeCompare (FolderMapping.folder a) (FolderMapping.folder b)
  | None, _ => 1
  | _, None => -1
  | Some x, Some y => x - y
  end.

(** [detectFolderStructure(folders, { photoCountMap, projectName,
    tripStart })]; the defaults are the empty map, [''] and
    [undefined]. *)
Definition detectFolderStructure (folders : list jsstring)
    (photoCountMap : gmap jsstring Z) (projectName : jsstring)
    (tripStart : option jsstring) : list FolderMapping.t :=
  Array_sort compareMappings (collectMappings folders photoCountMap projectName tripStart).

(** A folder the loop of [detectFolderStructure] lists. *)
Definition listed (projectName folder : jsstring) : Prop :=
  shouldSkipFolder folder = false /\
  (projectName = [] \/ toLowerCase folder <> toLowerCase projectName).

End Mapping.

(** The names [shouldSkipFolder] skips whatever their case. *)
Definition skippedNames : list jsstring :=
  [str "unsorted"; str "inbox"; str "miscellaneous"; str "metadata"; str "_meta"].

End Structure.

(** ** Export manifest ([exportManifest.ts]) *)

Module ExportManifest.
Import RegExp Detector Reconciler Structure.

Inductive Operation := copy | move.

Record ExportOperation := {
  sourcePath : jsstring;
  destinationPath : jsstring;
  fileSize : Z;
  operation : Operation
}.

Record ExportManifest := {
  manifestTimestamp : Z;
  operations : list ExportOperation;
  sourceRoot : jsstring;
  destinationRoot : jsstring;
  ingested : bool
}.

(** [bucketNames] of [generateExportManifest] *)
Definition bucketNames : list (jsstring * jsstring) :=
  [(str "A", str "Establishing"); (str "B", str "People");
   (str "C", str "Culture-Detail"); (str "D", str "Action-Moment");
   (str "E", str "Transition"); (str "M", str "Mood-Food")].

(** [dayLabels[day] || `Day ${String(day).padStart(2, '0')}`] *)
Definition dayLabelOf (dayLabels : gmap Z jsstring) (day : Z) : jsstring :=
  str_or (dayLabels !! day)
         (str "Day " ++ padStart 2 (unit_of "0") (numberToString day)).

(** [bucketNames[bucket] || bucket] *)
Definition bucketLabelOf (bucketNames : list (jsstring * jsstring)) (bucket : jsstring)
    : jsstring :=
  str_or (lookupTable bucket bucketNames) bucket.

(** [`${daysFolder}/${dayLabel}/${bucket}_${bucketLabel}/${currentName}`] *)
Definition bucketTargetPath (daysFolder : jsstring) (dayLabels : gmap Z jsstring)
    (bucketNames : list (jsstring * jsstring)) (day : Z) (bucket name : jsstring)
    : jsstring :=
  daysFolder ++ str "/" ++ dayLabelOf dayLabels day ++ str "/"
  ++ bucket ++ str "_" ++ bucketLabelOf bucketNames bucket ++ str "/" ++ name.

(** [photo.filePath !== targetPath && !photo.filePath?.includes(targetPath)] *)
Definition awayFrom (targetPath : jsstring) (filePath : option jsstring) : bool :=
  negb (bool_decide (filePath = Some targetPath))
  && negb (match filePath with Some p => includes targetPath p | None => false end).

Definition determineIfShouldExport (photo : ProjectPhoto) (archiveFolder : jsstring)
    (dayLabels : gmap Z jsstring) (daysFolder : jsstring)
    (bucketNames : list (jsstring * jsstring)) : bool :=
  let hasBeenRenamed := negb (bool_decide (originalName photo = currentName photo)) in
  let hasUserAssignedBucket := truthy (bucket photo) && negb (isPreOrganized photo) in
  let hasUserAssignedDay :=
    match day photo with
    | Some d => negb (bool_decide (detectedDay photo = Some d))
    | None => false
    end in
  let wasArchived :=
    archived photo
    && negb (match filePath photo with
             | Some p => includes archiveFolder p
             | None => false
             end) in
  let needsToMove :=
    match bucket photo, day photo with
    | Some (c :: b), Some d =>
        awayFrom (bucketTargetPath daysFolder dayLabels bucketNames d (c :: b)
                    (currentName photo))
                 (filePath photo)
    | _, _ =>
        if archived photo
        then awayFrom (archiveFolder ++ str "/" ++ currentName photo) (filePath photo)
        else false
    end in
  hasBeenRenamed || hasUserAssignedBucket || hasUserAssignedDay || wasArchived
  || needsToMove.

Section Manifest.
(** The size [photo.fileHandle.getFile()] reports, 0 without a handle or
    when the call fails. *)
Variable sizeOf : ProjectPhoto -> Z.

(** The operation pushed for a photo that is exported. *)
Definition destinationOf (photo : ProjectPhoto) (destinationRoot : jsstring)
    (ingested : bool) (dayLabels : gmap Z jsstring) (folders : FolderStructure)
    : jsstring :=
  if archived photo
  then destinationRoot ++ str "/" ++ archiveFolder folders ++ str "/" ++ currentName photo
  else
    match bucket photo, day photo with
    | Some (c :: b), Some d =>
        if ingested
        then destinationRoot ++ str "/"
             ++ bucketTargetPath (daysFolder folders) dayLabels bucketNames d (c :: b)
                  (currentName photo)
        else destinationRoot ++ str "/" ++ (c :: b) ++ str "_"
             ++ bucketLabelOf bucketNames (c :: b) ++ str "/" ++ currentName photo
    | _, _ => destinationRoot ++ str "/" ++ currentName photo
    end.

(** The [for] loop of [generateExportManifest]. *)
Fixpoint exportOperations (photos : list ProjectPhoto) (destinationRoot : jsstring)
    (ingested : bool) (dayLabels : gmap Z jsstring) (folders : FolderStructure)
    : list ExportOperation :=
  match photos with
  | [] => []
  | photo :: rest =>
      let more := exportOperations rest destinationRoot ingested dayLabels folders in
      match filePath photo with
      | Some (c :: p) =>
          if determineIfShouldExport photo (archiveFolder folders) dayLabels
               (daysFolder folders) bucketNames
          then {| sourcePath := c :: p;
                  destinationPath :=
                    destinationOf photo destinationRoot ingested dayLabels folders;
                  fileSize := sizeOf photo;
                  operation := copy |} :: more
          else more
      | _ => more
      end
  end.

(** [generateExportManifest]; [now] is the reading of [Date.now()]. *)
Definition generateExportManifest (now : Z) (photos : list ProjectPhoto)
    (sourceRoot destinationRoot : jsstring) (ingested : bool)
    (dayLabels : gmap Z jsstring) (folders : FolderStructure) : ExportManifest :=
  {| manifestTimestamp := now;
     operations := exportOperations photos destinationRoot ingested dayLabels folders;
     sourceRoot := sourceRoot;
     destinationRoot := destinationRoot;
     ingested := ingested |}.

End Manifest.

(** A file or folder name: not empty, without a slash or a backslash. *)
Definition plainName (name : jsstring) : Prop :=
  name <> [] /\ Forall (fun c => c <> 47%N /\ c <> 92%N) name.

(** The file [entry] lies where the export puts a photo of day [day]
    and bucket [bucket] that keeps the file's name: the day is one of
    1..31 without a label of its own, the bucket one of the bucket keys,
    and the days folder one that a scan recognizes. *)
Definition atTarget (toLowerCase : jsstring -> jsstring) (dayLabels : gmap Z jsstring)
    (folders : FolderStructure) (day : Z) (bucket : jsstring) (entry : FileEntry)
    : Prop :=
  plainName (daysFolder folders) /\
  Analysis.isDaysFolder toLowerCase (str "01_DAYS") (daysFolder folders) = true /\
  1 <= day <= 31 /\ dayLabels !! day = None /\
  bucket ∈ MECE_BUCKET_KEYS /\ plainName (name entry) /\
  path entry
  = bucketTargetPath (daysFolder folders) dayLabels bucketNames day bucket (name entry).

(** A file as the export of day 1, bucket A, leaves it. *)
Definition exportedFile : FileEntry :=
  jpeg "01_DAYS/Day 01/A_Establishing/IMG_0001.jpg" "IMG_0001.jpg" 1000 3.

(** A file as the export of a project that is not ingested leaves it,
    the destination root being the folder of day 1. *)
Definition dayFolderFile : FileEntry :=
  jpeg "Day 01/A_Establishing/IMG_0001.jpg" "IMG_0001.jpg" 1000 3.

End ExportManifest.

(** ** Listing the files of a folder ([collectFiles]) *)

Module Collect.
Import RegExp Detector Reconciler.

Definition SUPPORTED_EXT : list jsstring :=
  [str "jpg"; str "jpeg"; str "png"; str "heic"; str "webp"; str "mp4"; str "mov";
   str "webm"; str "avi"; str "mkv"].

(** [prefix ? `${prefix}/${name}` : name] *)
Definition under (prefix name : jsstring) : jsstring :=
  if nonEmpty prefix then prefix ++ str "/" ++ name else name.

Section Listing.
Variable toLowerCase : jsstring -> jsstring.
(** [FileSystemFileHandle] *)
Variable FileHandle : Type.

(** [name.split('.').pop()?.toLowerCase() || ''] *)
Definition extension (name : jsstring) : jsstring :=
  str_or (Some (toLowerCase (default [] (last (splitDot name))))) [].

Definition isSupportedFile (name : jsstring) : bool :=
  bool_decide (extension name ∈ SUPPORTED_EXT).

Definition shouldSkipFile (name : jsstring) : bool :=
  let lower := toLowerCase name in
  startsWith (str ".") name
  || startsWith (str "._") name
  || bool_decide (lower = str "thumbs.db")
  || bool_decide (lower = str "desktop.ini").

(** A [FileSystemDirectoryHandle]: what [entries()] yields, each name
    with a file handle or a directory handle. *)
#[warning="-register-all"]
Inductive Directory :=
  directory (entries : list (jsstring * (FileHandle + Directory))).

Definition entries (dirHandle : Directory) : list (jsstring * (FileHandle + Directory)) :=
  match dirHandle with directory entries => entries end.

Fixpoint collectFiles (dirHandle : Directory) (prefix : jsstring)
    : list (FileHandle * jsstring) :=
  match dirHandle with
  | directory entries =>
      (fix loop (entries : list (jsstring * (FileHandle + Directory))) :=
         match entries with
         | [] => []
         | (name, inr handle) :: rest =>
             if startsWith (str ".") name then loop rest
             else collectFiles handle (under prefix name) ++ loop rest
         | (name, inl handle) :: rest =>
             if shouldSkipFile name then loop rest
             else if negb (isSupportedFile name) then loop rest
             else (handle, under prefix name) :: loop rest
         end) entries
  end.

(** The file [handle] is the entry [name] of the directory reached from
    [dirHandle] through the directories [folders]. *)
Fixpoint reaches (folders : list jsstring) (dirHandle : Directory) (name : jsstring)
    (handle : FileHandle) : Prop :=
  match folders with
  | [] => (name, inl handle) ∈ entries dirHandle
  | folder :: folders' =>
      exists nested, (folder, inr nested) ∈ entries dirHandle
                     /\ reaches folders' nested name handle
  end.

(** The entries of one step of the loop. *)
Definition collectEntry (prefix : jsstring) (entry : jsstring * (FileHandle + Directory))
    : list (FileHandle * jsstring) :=
  match entry with
  | (name, inr handle) =>
      if startsWith (str ".") name then []
      else collectFiles handle (under prefix name)
  | (name, inl handle) =>
      if shouldSkipFile name then []
      else if negb (isSupportedFile name) then []
      else [(handle, under prefix name)]
  end.

(** A file name that the listing keeps: no leading dot, not one of the
    two system files, and a supported extension. *)
Definition listedFile (name : jsstring) : Prop :=
  startsWith (str ".") name = false /\
  toLowerCase name <> str "thumbs.db" /\
  toLowerCase name <> str "desktop.ini" /\
  extension name ∈ SUPPORTED_EXT.

End Listing.

Arguments directory {FileHandle}.
Arguments entries {FileHandle}.
Arguments collectFiles toLowerCase {FileHandle}.
Arguments reaches {FileHandle}.

(** A folder to list: a photo two folders deep, a text file and a dot
    file beside it, a hidden folder and a system file at the top. File
    handles are numbers. *)
Definition sampleFolder : Directory nat :=
  directory
    [(str "01_DAYS",
      inr (directory
             [(str "Day 01",
               inr (directory [(str "IMG_0001.JPG", inl 1%nat);
                               (str "notes.txt", inl 2%nat);
                               (str ".IMG_0002.jpg", inl 3%nat)]))]));
     (str ".trash", inr (directory [(str "IMG_0003.jpg", inl 4%nat)]));
     (str "Thumbs.db", inl 5%nat);
     (str "IMG_0004.mov", inl 6%nat)].

End Collect.

(** ** Source and destination roots ([pathResolver.ts]) *)

(** The fields of [ProjectState] that the path resolver reads. The day
    labels are read by day number only, so they are keyed by it. *)
Module ResolverState.

Record t := {
  sourceRoot : option jsstring;
  (** [None] for a state without the field *)
  ingested : option bool;
  rootPath : jsstring;
  dayLabels : gmap Z jsstring;
  (** [settings.folderStructure] *)
  folderStructure : Reconciler.FolderStructure
}.

End ResolverState.

Module PathResolver.
Import RegExp Detector Reconciler Structure ExportManifest.

(** [s.split('/')] *)
Fixpoint splitSlash (s : jsstring) : list jsstring :=
  match s with
  | [] => [[]]
  | c :: s' =>
      if (c =? 47)%N then [] :: splitSlash s'
      else
        match splitSlash s' with
        | seg :: segs => (c :: seg) :: segs
        | [] => [[c]]
        end
  end.

(** [parts.join('/')] *)
Fixpoint join (parts : list jsstring) : jsstring :=
  match parts with
  | [] => []
  | [part] => part
  | part :: rest => part ++ str "/" ++ join rest
  end.

(** [state.ingested !== false] *)
Definition isIngested (state : ResolverState.t) : bool :=
  negb (bool_decide (ResolverState.ingested state = Some false)).

(** The [for] loop of [detectCommonSourcePath], over the indices it has
    left to visit. *)
Fixpoint commonDepthLoop (pathParts : list jsstring) (paths : list jsstring)
    (indices : list nat) (commonDepth : Z) : Z :=
  match indices with
  | [] => commonDepth
  | i :: rest =>
      let prefix := join (take (i + 1) pathParts) in
      if forallb (startsWith (prefix ++ str "/")) paths
      then commonDepthLoop pathParts paths rest (Z.of_nat i + 1)
      else commonDepth
  end.

Definition detectCommonSourcePath (photos : list ProjectPhoto) : jsstring :=
  let photosWithPaths := List.filter (fun p => truthy (filePath p)) photos in
  match photosWithPaths with
  | [] => []
  | first :: _ =>
      let firstPath := default [] (filePath first) in
      let pathParts := splitSlash firstPath in
      let commonDepth :=
        commonDepthLoop pathParts
          ((fun p => default [] (filePath p)) <$> photosWithPaths)
          (seq 0 (length pathParts - 1)) 0 in
      let commonPath :=
        join (take (Z.to_nat (Z.max commonDepth (Z.of_nat (length pathParts) - 2)))
                   pathParts) in
      str_or (Some commonPath) (str "/")
  end.

Definition detectDaySourceFolder (dayPhotos : list ProjectPhoto) (fallbackRoot : jsstring)
    : jsstring :=
  match dayPhotos with
  | [] => fallbackRoot
  | firstPhoto :: _ =>
      match folderHierarchy firstPhoto with
      | _ :: _ => join (folderHierarchy firstPhoto)
      | [] =>
          match filePath firstPhoto with
          | Some (c :: p) => join (dropLast (splitSlash (c :: p)))
          | _ => fallbackRoot
          end
      end
  end.

Definition resolveSourceRoot (state : ResolverState.t) (photos : list ProjectPhoto)
    : jsstring :=
  match ResolverState.sourceRoot state with
  | Some (c :: root) => c :: root
  | _ =>
      if isIngested state then ResolverState.rootPath state
      else detectCommonSourcePath photos
  end.

(** [dayNumber] is [None] when the argument is left out or [null]. *)
Definition resolveDestinationRoot (state : ResolverState.t) (photos : list ProjectPhoto)
    (dayNumber : option Z) : jsstring :=
  let sourceRoot := resolveSourceRoot state photos in
  if isIngested state then sourceRoot
  else
    match dayNumber with
    | Some d =>
        match List.filter (fun p => bool_decide (day p = Some d)) photos with
        | [] => sourceRoot
        | dayPhotos => detectDaySourceFolder dayPhotos sourceRoot
        end
    | None => sourceRoot
    end.

(** [settings] is [None] for a missing object, as is its
    [folderStructure]. *)
Definition autoDetectIngestState (photos : list ProjectPhoto)
    (settings : option ProjectSettings) : bool :=
  let configured := settings ≫= folderStructure in
  let daysFolder := str_or (daysFolder <$> configured) (str "01_DAYS") in
  let ingestedPhotos :=
    List.filter (fun p => bool_decide (head (folderHierarchy p) = Some daysFolder))
                photos in
  (Z.of_nat (length photos) <? 2 * Z.of_nat (length ingestedPhotos)).

Definition resolveMeceBucketPath (state : ResolverState.t) (photos : list ProjectPhoto)
    (dayNumber : Z) (bucketKey bucketLabel : jsstring) : jsstring :=
  let destRoot := resolveDestinationRoot state photos (Some dayNumber) in
  let daysFolder := daysFolder (ResolverState.folderStructure state) in
  if isIngested state then
    let dayLabel := dayLabelOf (ResolverState.dayLabels state) dayNumber in
    destRoot ++ str "/" ++ daysFolder ++ str "/" ++ dayLabel ++ str "/"
    ++ bucketKey ++ str "_" ++ bucketLabel
  else destRoot ++ str "/" ++ bucketKey ++ str "_" ++ bucketLabel.

(** The photo has no file path or lies directly in the folder
    [folder]: its path is the folder, a slash and a name without
    slash. *)
Definition inFolder (folder : jsstring) (photo : ProjectPhoto) : Prop :=
  match filePath photo with
  | Some (c :: p) => exists name, (47%N ∉ name) /\ (c :: p) = folder ++ str "/" ++ name
  | _ => True
  end.

(** *** A project that was not ingested ([pathResolver.test.ts]) *)

Definition tripState : ResolverState.t :=
  {| ResolverState.sourceRoot := None;
     ResolverState.ingested := Some false;
     ResolverState.rootPath := str "/project/root";
     ResolverState.dayLabels := ∅;
     ResolverState.folderStructure := DEFAULT_FOLDERS |}.

Definition ingestedState : ResolverState.t :=
  {| ResolverState.sourceRoot := None;
     ResolverState.ingested := None;
     ResolverState.rootPath := str "/project/root";
     ResolverState.dayLabels := ∅;
     ResolverState.folderStructure := DEFAULT_FOLDERS |}.

Definition tripPhotos : list ProjectPhoto :=
  [Ordering.createPhoto "1" 0 (Some "/photos/trip/IMG_001.jpg"%string) "IMG_001.jpg" None;
   Ordering.createPhoto "2" 0 (Some "/photos/trip/IMG_002.jpg"%string) "IMG_002.jpg" None].

End PathResolver.

(** * Properties *)

(** ** The ordering engine: order, navigation, well-formed results *)

Module OrderingFacts.
Import Ordering.

(** *** Sorting lemmas *)

Section ArraySortFacts.
Context {A : Type} (cmp : A -> A -> Z).
Hypothesis cmp_total : forall a b, 0 < cmp a b -> cmp b a <= 0.
Local Abbreviation cmpLe := (Ordering.cmpLe cmp).

Lemma sort_insert_perm x l : sort_insert cmp x l ≡ₚ x :: l.
Proof.
  induction l as [|y l IH]; simpl; [done|].
  destruct (cmp x y <=? 0); [done|].
  rewrite IH. apply Permutation_swap.
Qed.

Lemma Array_sort_perm l : Array_sort cmp l ≡ₚ l.
Proof.
  induction l as [|x l IH]; simpl; [done|].
  by rewrite sort_insert_perm, IH.
Qed.

Lemma sort_insert_Sorted x l :
  Sorted cmpLe l -> Sorted cmpLe (sort_insert cmp x l).
Proof.
  induction 1 as [|y l Hl IH Hy]; simpl.
  - repeat constructor.
  - destruct (Z.leb_spec (cmp x y) 0) as [Hle|Hgt].
    + repeat constructor; done.
    + constructor; [exact IH|].
      destruct Hy as [|z l' Hz]; simpl.
      * constructor. by apply cmp_total.
      * destruct (cmp x z <=? 0); constructor; [by apply cmp_total | done].
Qed.

Lemma Array_sort_Sorted l : Sorted cmpLe (Array_sort cmp l).
Proof.
  induction l as [|x l IH]; simpl; [constructor|].
  by apply sort_insert_Sorted.
Qed.

(** Sorting a sorted array changes nothing. *)
Lemma Array_sort_fixed l : Sorted cmpLe l -> Array_sort cmp l = l.
Proof.
  induction 1 as [|x l Hl IH Hx]; simpl; [done|].
  rewrite IH. destruct Hx as [|y l' Hy]; simpl; [done|].
  unfold cmpLe in Hy. by destruct (Z.leb_spec (cmp x y) 0); [|lia].
Qed.

End ArraySortFacts.

(** *** The base comparator is a strict total order *)

Section ComparatorFacts.
Variable localeCompare : jsstring -> jsstring -> Z.
(** What the language asks of [localeCompare], a consistent comparison:
    the sign flips when the arguments are swapped, and "not after" is
    transitive. Two different strings may compare equal. *)
Hypothesis lc_sgn : forall x y, Z.sgn (localeCompare y x) = - Z.sgn (localeCompare x y).
Hypothesis lc_trans :
  forall x y z, localeCompare x y <= 0 -> localeCompare y z <= 0 -> localeCompare x z <= 0.
Local Abbreviation cmp := (comparePhotos localeCompare).

Lemma lc_refl x : localeCompare x x = 0.
Proof. pose proof (lc_sgn x x). lia. Qed.

Lemma comparePhotos_lt_iff a b :
  cmp a b < 0 <->
  timestamp a < timestamp b \/
  (timestamp a = timestamp b /\
   (localeCompare (pathKey a) (pathKey b) < 0 \/
    (localeCompare (pathKey a) (pathKey b) = 0 /\
     (localeCompare (nameKey a) (nameKey b) < 0 \/
      (localeCompare (nameKey a) (nameKey b) = 0 /\ localeCompare (id a) (id b) < 0))))).
Proof.
  unfold comparePhotos. fold (pathKey a) (pathKey b) (nameKey a) (nameKey b).
  destruct (Z.eqb_spec (timestamp a) (timestamp b)) as [Ht|Ht]; cbn [negb]; [|lia].
  destruct (Z.eqb_spec (localeCompare (pathKey a) (pathKey b)) 0) as [Hp|Hp];
    cbn [negb]; [|lia].
  destruct (Z.eqb_spec (localeCompare (nameKey a) (nameKey b)) 0) as [Hn|Hn];
    cbn [negb]; lia.
Qed.

Lemma comparePhotos_zero_iff a b :
  cmp a b = 0 <->
  timestamp a = timestamp b /\ localeCompare (pathKey a) (pathKey b) = 0 /\
  localeCompare (nameKey a) (nameKey b) = 0 /\ localeCompare (id a) (id b) = 0.
Proof.
  unfold comparePhotos. fold (pathKey a) (pathKey b) (nameKey a) (nameKey b).
  destruct (Z.eqb_spec (timestamp a) (timestamp b)) as [Ht|Ht]; cbn [negb]; [|lia].
  destruct (Z.eqb_spec (localeCompare (pathKey a) (pathKey b)) 0) as [Hp|Hp];
    cbn [negb]; [|lia].
  destruct (Z.eqb_spec (localeCompare (nameKey a) (nameKey b)) 0) as [Hn|Hn];
    cbn [negb]; lia.
Qed.

Lemma comparePhotos_sgn a b : Z.sgn (cmp b a) = - Z.sgn (cmp a b).
Proof.
  unfold comparePhotos. fold (pathKey a) (pathKey b) (nameKey a) (nameKey b).
  rewrite (Z.eqb_sym (timestamp b)).
  destruct (Z.eqb_spec (timestamp a) (timestamp b)) as [Ht|Ht]; cbn [negb]; [|lia].
  pose proof (lc_sgn (pathKey a) (pathKey b)).
  pose proof (lc_sgn (nameKey a) (nameKey b)).
  pose proof (lc_sgn (id a) (id b)).
  destruct (Z.eqb_spec (localeCompare (pathKey a) (pathKey b)) 0),
           (Z.eqb_spec (localeCompare (pathKey b) (pathKey a)) 0);
    cbn [negb]; try lia.
  destruct (Z.eqb_spec (localeCompare (nameKey a) (nameKey b)) 0),
           (Z.eqb_spec (localeCompare (nameKey b) (nameKey a)) 0);
    cbn [negb]; lia.
Qed.

Lemma comparePhotos_total a b : 0 < cmp a b -> cmp b a <= 0.
Proof using lc_sgn. pose proof (comparePhotos_sgn a b). lia. Qed.

(** One key of the chain: "not after" composes, and strictly so when one
    of the two steps is strict. *)
Lemma lc_chain x y z :
  (localeCompare x y <= 0 -> localeCompare y z <= 0 -> localeCompare x z <= 0) /\
  (localeCompare x y < 0 -> localeCompare y z <= 0 -> localeCompare x z < 0) /\
  (localeCompare x y <= 0 -> localeCompare y z < 0 -> localeCompare x z < 0).
Proof.
  pose proof (lc_trans x y z). pose proof (lc_trans z x y). pose proof (lc_trans y z x).
  pose proof (lc_sgn x y). pose proof (lc_sgn y z). pose proof (lc_sgn x z).
  lia.
Qed.

Lemma comparePhotos_le_trans a b c : cmp a b <= 0 -> cmp b c <= 0 -> cmp a c <= 0.
Proof.
  destruct (lc_chain (pathKey a) (pathKey b) (pathKey c)) as (? & ? & ?).
  destruct (lc_chain (nameKey a) (nameKey b) (nameKey c)) as (? & ? & ?).
  destruct (lc_chain (id a) (id b) (id c)) as (? & ? & ?).
  unfold comparePhotos.
  fold (pathKey a) (pathKey b) (pathKey c) (nameKey a) (nameKey b) (nameKey c).
  destruct (Z.eqb_spec (timestamp a) (timestamp b)),
           (Z.eqb_spec (timestamp b) (timestamp c)),
           (Z.eqb_spec (timestamp a) (timestamp c)); cbn [negb]; try lia.
  destruct (Z.eqb_spec (localeCompare (pathKey a) (pathKey b)) 0),
           (Z.eqb_spec (localeCompare (pathKey b) (pathKey c)) 0),
           (Z.eqb_spec (localeCompare (pathKey a) (pathKey c)) 0); cbn [negb]; try lia.
  destruct (Z.eqb_spec (localeCompare (nameKey a) (nameKey b)) 0),
           (Z.eqb_spec (localeCompare (nameKey b) (nameKey c)) 0),
           (Z.eqb_spec (localeCompare (nameKey a) (nameKey c)) 0); cbn [negb]; lia.
Qed.

Lemma comparePhotos_lt_trans a b c : cmp a b < 0 -> cmp b c < 0 -> cmp a c < 0.
Proof.
  pose proof (comparePhotos_le_trans a b c). pose proof (comparePhotos_le_trans c a b).
  pose proof (comparePhotos_sgn a c). pose proof (comparePhotos_sgn b c).
  lia.
Qed.

#[local] Instance cmpLe_transitive : Transitive (cmpLe cmp).
Proof.
  intros a b c. apply comparePhotos_le_trans.
Qed.

Lemma id_inj_on (ps : list ProjectPhoto) a b :
  NoDup (map id ps) -> a ∈ ps -> b ∈ ps -> id a = id b -> a = b.
Proof.
  induction ps as [|p ps IH]; simpl; intros Hnd Ha Hb E; [by inv Ha|].
  apply NoDup_cons in Hnd as [Hp Hnd].
  inv Ha; inv Hb; try done.
  - exfalso. apply Hp. rewrite E. by apply (list_elem_of_fmap_2 id).
  - exfalso. apply Hp. rewrite <- E. by apply (list_elem_of_fmap_2 id).
  - by apply IH.
Qed.

Lemma emitGroup_perm sep v g : emitGroup sep v g ≡ₚ g.
Proof.
  unfold emitGroup. destruct sep, v as [v|]; try done.
  induction g as [|p g IH]; [done|].
  rewrite !filter_cons. destruct (v p); simpl.
  - rewrite <- Permutation_middle. by constructor.
  - by constructor.
Qed.

Lemma distinct_never_equal (ps : list ProjectPhoto) a b :
  NoDup (map id ps) -> tellsApart localeCompare (map id ps) ->
  a ∈ ps -> b ∈ ps -> cmp a b = 0 -> a = b.
Proof.
  intros Hnd Hids Ha Hb E. apply (id_inj_on ps); [done..|].
  apply comparePhotos_zero_iff in E as (_ & _ & _ & E).
  apply Hids; [by apply (list_elem_of_fmap_2 id)..|done].
Qed.

Lemma sorted_perm_unique (ps l1 l2 : list ProjectPhoto) :
  NoDup (map id ps) -> tellsApart localeCompare (map id ps) ->
  l1 ≡ₚ ps -> l2 ≡ₚ ps ->
  Sorted (cmpLe cmp) l1 -> Sorted (cmpLe cmp) l2 -> l1 = l2.
Proof.
  intros Hnd Hids H1 H2 S1 S2.
  apply (Sorted_unique_strong (cmpLe cmp)); [|done|done|by rewrite H1, H2].
  intros x y Hx Hy Hxy Hyx. unfold cmpLe in *.
  apply (distinct_never_equal ps); [done|done|by rewrite <- H1|by rewrite <- H2|].
  pose proof (comparePhotos_sgn x y). lia.
Qed.


End ComparatorFacts.

(** *** The lexicographic instance and the test fixtures *)

Lemma lexCompare_sgn x y : Z.sgn (lexCompare y x) = - Z.sgn (lexCompare x y).
Proof.
  revert y. induction x as [|c x IH]; intros [|d y]; simpl; try done.
  rewrite (N.compare_antisym c d). destruct (N.compare c d); simpl; auto.
Qed.

Lemma lexCompare_eq x y : lexCompare x y = 0 -> x = y.
Proof.
  revert y. induction x as [|c x IH]; intros [|d y]; simpl; try done.
  destruct (N.compare_spec c d); try done.
  intros E. subst. f_equal. by apply IH.
Qed.

Lemma lexCompare_lt_trans x y z :
  lexCompare x y < 0 -> lexCompare y z < 0 -> lexCompare x z < 0.
Proof.
  revert y z. induction x as [|c x IH]; intros [|d y] [|e z]; simpl; try done.
  destruct (N.compare_spec c d), (N.compare_spec d e), (N.compare_spec c e);
    subst; try done; try lia.
  apply IH.
Qed.

Example sorts_by_timestamp_first :
  idsOf (sortPhotos lexCompare
           [createPhoto "a" 1000 None "test.jpg" None;
            createPhoto "b" 500 None "test.jpg" None;
            createPhoto "c" 1500 None "test.jpg" None] noOptions)
  = [str "b"; str "a"; str "c"].
Proof. reflexivity. Qed.

Example breaks_ties_by_filePath :
  idsOf (sortPhotos lexCompare
           [createPhoto "a" 1000 (Some "folder2/test.jpg"%string) "test.jpg" None;
            createPhoto "b" 1000 (Some "folder1/test.jpg"%string) "test.jpg" None;
            createPhoto "c" 1000 (Some "folder3/test.jpg"%string) "test.jpg" None] noOptions)
  = [str "b"; str "a"; str "c"].
Proof. reflexivity. Qed.

Example breaks_ties_by_originalName :
  idsOf (sortPhotos lexCompare
           [createPhoto "a" 1000 (Some "folder/a.jpg"%string) "c.jpg" None;
            createPhoto "b" 1000 (Some "folder/a.jpg"%string) "a.jpg" None;
            createPhoto "c" 1000 (Some "folder/a.jpg"%string) "b.jpg" None] noOptions)
  = [str "b"; str "c"; str "a"].
Proof. reflexivity. Qed.

Example breaks_ties_by_id :
  idsOf (sortPhotos lexCompare tiedPhotos noOptions)
  = [str "aaa"; str "bbb"; str "ccc"].
Proof. reflexivity. Qed.

Lemma lexCompare_le_trans x y z :
  lexCompare x y <= 0 -> lexCompare y z <= 0 -> lexCompare x z <= 0.
Proof.
  intros Hxy Hyz.
  destruct (Z.eq_dec (lexCompare x y) 0) as [E|N];
    [by apply lexCompare_eq in E as ->|].
  destruct (Z.eq_dec (lexCompare y z) 0) as [E|N'];
    [by apply lexCompare_eq in E as <-|].
  pose proof (lexCompare_lt_trans x y z). lia.
Qed.

Lemma canonicalCompare_sgn x y :
  Z.sgn (canonicalCompare y x) = - Z.sgn (canonicalCompare x y).
Proof. apply lexCompare_sgn. Qed.

Lemma canonicalCompare_trans x y z :
  canonicalCompare x y <= 0 -> canonicalCompare y z <= 0 -> canonicalCompare x z <= 0.
Proof. apply lexCompare_le_trans. Qed.

Lemma tiedPhotos_told_apart : tellsApart canonicalCompare (map id tiedPhotos).
Proof.
  intros x y Hx Hy E. apply lexCompare_eq in E.
  cbn [map tiedPhotos createPhoto id] in Hx, Hy.
  repeat (apply elem_of_cons in Hx as [->|Hx]);
    repeat (apply elem_of_cons in Hy as [->|Hy]);
    try reflexivity; try (by vm_compute in E); try (by inv Hx); by inv Hy.
Qed.



(** *** Navigation *)

Lemma setIndices_notin ps i0 m k :
  k ∉ map id ps -> setIndices ps i0 m !! k = m !! k.
Proof.
  revert i0 m. induction ps as [|p ps IH]; intros i0 m Hk; simpl; [done|].
  simpl in Hk. apply not_elem_of_cons in Hk as [Hne Hk].
  rewrite IH by done. by rewrite lookup_insert_ne.
Qed.

Lemma setIndices_lookup ps i0 m (j : nat) p :
  NoDup (map id ps) -> ps !! j = Some p ->
  setIndices ps i0 m !! id p = Some (i0 + Z.of_nat j).
Proof.
  revert i0 m j. induction ps as [|q ps IH]; intros i0 m j Hnd Hj; [done|].
  simpl in Hnd. apply NoDup_cons in Hnd as [Hq Hnd]. simpl.
  destruct j as [|j]; simpl in Hj.
  - inv Hj. rewrite setIndices_notin by done.
    rewrite lookup_insert_eq. f_equal. lia.
  - rewrite (IH _ _ j) by done. f_equal. lia.
Qed.

Lemma indexMapOf_Some ps k i :
  NoDup (map id ps) -> indexMapOf ps !! k = Some i ->
  0 <= i /\ exists p, ps !! Z.to_nat i = Some p /\ id p = k.
Proof.
  intros Hnd Hk. destruct (decide (k ∈ map id ps)) as [Hin|Hin].
  - apply list_elem_of_fmap in Hin as (p & -> & Hp).
    apply list_elem_of_lookup in Hp as [j Hj].
    unfold indexMapOf in Hk. rewrite (setIndices_lookup _ _ _ j) in Hk by done.
    inv Hk. split; [lia|]. exists p. by rewrite Z.add_0_l, Nat2Z.id.
  - unfold indexMapOf in Hk. by rewrite setIndices_notin in Hk.
Qed.

Lemma indexMapOf_lookup ps (j : nat) p :
  NoDup (map id ps) -> ps !! j = Some p -> indexMapOf ps !! id p = Some (Z.of_nat j).
Proof. intros. unfold indexMapOf. by rewrite (setIndices_lookup _ _ _ j). Qed.

Lemma inRange_spec ps i :
  inRange ps i = true <-> 0 <= i < Z.of_nat (length ps).
Proof. unfold inRange. rewrite andb_true_iff, Z.leb_le, Z.ltb_lt. done. Qed.

(** Stepping forwards finds the first match at or after [i]. *)
Lemma navigateLoop_next ps f fuel i :
  0 <= i -> (length ps <= fuel + Z.to_nat i)%nat ->
  navigateLoop ps f 1 fuel i = find f (drop (Z.to_nat i) ps).
Proof.
  revert i. induction fuel as [|fuel IH]; intros i Hi Hfuel; simpl.
  - by rewrite drop_ge by lia.
  - destruct (inRange ps i) eqn:Hr.
    + apply inRange_spec in Hr.
      destruct (lookup_lt_is_Some_2 ps (Z.to_nat i)) as [p Hp]; [lia|].
      rewrite Hp, (drop_S _ _ _ Hp). simpl. destruct (f p); [done|].
      rewrite IH by lia. by replace (Z.to_nat (i + 1)) with (S (Z.to_nat i)) by lia.
    + rewrite drop_ge; [done|].
      destruct (Z.lt_ge_cases i (Z.of_nat (length ps))); [|lia].
      assert (inRange ps i = true) by (apply inRange_spec; lia). congruence.
Qed.

(** Stepping backwards finds the last match at or before [i]. *)
Lemma navigateLoop_prev ps f fuel i :
  -1 <= i < Z.of_nat (length ps) -> (Z.to_nat (i + 1) <= fuel)%nat ->
  navigateLoop ps f (-1) fuel i = find f (rev (take (Z.to_nat (i + 1)) ps)).
Proof.
  revert i. induction fuel as [|fuel IH]; intros i Hi Hfuel; simpl.
  - by replace (Z.to_nat (i + 1)) with 0%nat by lia.
  - destruct (inRange ps i) eqn:Hr.
    + apply inRange_spec in Hr.
      destruct (lookup_lt_is_Some_2 ps (Z.to_nat i)) as [p Hp]; [lia|].
      rewrite Hp. replace (Z.to_nat (i + 1)) with (S (Z.to_nat i)) by lia.
      rewrite (take_S_r _ _ _ Hp), rev_unit. simpl. destruct (f p); [done|].
      rewrite IH by lia. by replace (i + -1 + 1) with i by lia.
    + assert (i = -1) as ->.
      { destruct (Z.eq_dec i (-1)); [done|].
        assert (inRange ps i = true) by (apply inRange_spec; lia). congruence. }
      done.
Qed.

(** Enough fuel: with [length ps] turns or more the loop has left the
    array or found its photo, so more fuel never changes the result. *)
Lemma navigateLoop_fuel ps f direction fuel i :
  -1 <= i <= Z.of_nat (length ps) -> (length ps <= fuel)%nat ->
  let step := match direction with next => 1 | prev => -1 end in
  navigateLoop ps f step fuel i = navigateLoop ps f step (length ps) i.
Proof.
  intros Hi Hfuel. destruct direction; simpl.
  - destruct (Z.eq_dec i (-1)) as [->|].
    + destruct fuel, ps; reflexivity.
    + by rewrite !navigateLoop_next by lia.
  - destruct (Z.eq_dec i (Z.of_nat (length ps))) as [->|].
    + assert (inRange ps (Z.of_nat (length ps)) = false) as Hr.
      { apply not_true_is_false. rewrite inRange_spec. lia. }
      destruct fuel, ps; cbn [navigateLoop length] in *; rewrite ?Hr; try done; lia.
    + by rewrite !navigateLoop_prev by lia.
Qed.

Lemma getPhotoIndex_wellFormed r k i :
  wellFormed r -> indexMap r !! k = Some i ->
  getPhotoIndex k (indexMap r) = i /\ 0 <= i < Z.of_nat (length (photos r)) /\
  exists p, photos r !! Z.to_nat i = Some p /\ id p = k.
Proof.
  intros [Hm Hnd] Hk. unfold getPhotoIndex. rewrite Hk. simpl.
  rewrite Hm in Hk. apply indexMapOf_Some in Hk as (Hi & p & Hp & Hid); [|done].
  split; [done|]. split; [|by exists p].
  apply lookup_lt_Some in Hp. lia.
Qed.


(** C10. A photo id that does not occur in the index map of an ordering
    result navigates to [null], in either direction, with or without a
    filter. *)
Theorem navigate_unknown_id (r : OrderingResult) (k : jsstring)
    (direction : Direction) (filter : option (ProjectPhoto -> bool)) :
  indexMap r !! k = None -> navigatePhotos k direction r filter = None.
Proof.
  intros Hk. unfold navigatePhotos, getPhotoIndex. by rewrite Hk.
Qed.

(** *** Every result of [sortPhotos] is a well-formed ordering result *)

Lemma mapKeys_NoDup {K} `{EqDecision K} (ks seen : list K) :
  NoDup (mapKeys ks seen) /\ (forall k, k ∈ mapKeys ks seen -> k ∉ seen).
Proof.
  revert seen. induction ks as [|k ks IH]; intros seen; simpl.
  - split; [constructor|]. intros k Hk. by inv Hk.
  - case_decide as Hk; [apply IH|].
    destruct (IH (k :: seen)) as [Hnd Hout]. split.
    + constructor; [|done]. intros Hin. apply Hout in Hin. apply Hin. by left.
    + intros k' Hk'. inv Hk'; [done|].
      intros Hin. eapply Hout; [done|]. by right.
Qed.

(** Groups taken by key from photos with distinct ids, each emitted as
    a rearrangement of itself, keep the ids distinct. *)
Lemma grouped_NoDup {K} `{EqDecision K} (key : ProjectPhoto -> K)
    (emit : list ProjectPhoto -> list ProjectPhoto) (keys : list K)
    (l : list ProjectPhoto) :
  (forall g, emit g ≡ₚ g) -> NoDup (id <$> l) -> NoDup keys ->
  NoDup (id <$> flat_map (fun k => emit (filter (fun p => key p = k) l)) keys).
Proof.
  intros Hemit Hl. induction 1 as [|k keys Hk Hkeys IH]; simpl; [constructor|].
  rewrite fmap_app. apply NoDup_app. split; [|split; [|exact IH]].
  - rewrite Hemit. eapply sublist_NoDup; [exact Hl|].
    apply fmap_sublist, sublist_filter.
  - intros i Hi Hi'.
    apply list_elem_of_fmap in Hi as (p & -> & Hp).
    apply list_elem_of_fmap in Hi' as (q & Hpq & Hq).
    rewrite Hemit in Hp. apply list_elem_of_filter in Hp as [Hkp Hp].
    apply list_elem_of_In, in_flat_map in Hq as (k' & Hk' & Hq).
    apply list_elem_of_In in Hk', Hq.
    rewrite Hemit in Hq. apply list_elem_of_filter in Hq as [Hkq Hq].
    assert (p = q) as -> by (by apply (id_inj_on l)).
    apply Hk. by rewrite <- Hkp, Hkq.
Qed.

Lemma pushGroups_photos separate isVid gs ordered :
  fst (pushGroups separate isVid gs ordered)
  = ordered ++ flat_map (fun lg => emitGroup separate isVid (snd lg)) gs.
Proof.
  revert ordered. induction gs as [|[l g] gs IH]; intros ordered; simpl.
  - by rewrite app_nil_r.
  - by rewrite IH, <- app_assoc.
Qed.

Lemma flat_map_map {A B C} (f : A -> B) (g : B -> list C) (l : list A) :
  flat_map g (map f l) = flat_map (fun x => g (f x)) l.
Proof. induction l as [|x l IH]; simpl; [done|]. by rewrite IH. Qed.

(** Whatever the grouping and whatever [localeCompare] does, the result
    of [sortPhotos] over photos with distinct ids carries the index map
    of its own display sequence, and the ids stay distinct. *)
Lemma sortPhotos_wellFormed localeCompare ps options :
  NoDup (map id ps) -> wellFormed (sortPhotos localeCompare ps options).
Proof.
  intros Hnd.
  assert (Hsorted : NoDup (id <$> Array_sort (comparePhotos localeCompare) ps)).
  { by rewrite Array_sort_perm. }
  pose proof (emitGroup_perm (separateVideos options) (isVideo options)) as Hemit.
  unfold sortPhotos, groupBySubfolder, groupByBucket, groupByDay, buildIndexMap.
  destruct (groupBy options) as [[| |]|].
  - destruct (selectedDay options) as [d|], (getSubfolderGroup options) as [g|];
      (split; [done|]); cbn [photos].
    + rewrite pushGroups_photos, flat_map_map. cbn [app snd].
      apply (grouped_NoDup (fun p => g p (Some d))); [done..|].
      rewrite Array_sort_perm. apply mapKeys_NoDup.
    + by rewrite Hemit.
    + by rewrite Hemit.
    + by rewrite Hemit.
  - split; [done|]. cbn [photos]. apply (grouped_NoDup bucketKey); [done..|].
    apply (bool_decide_unpack _). vm_compute. exact I.
  - split; [done|]. cbn [photos]. apply (grouped_NoDup day); [done..|].
    rewrite Array_sort_perm. apply mapKeys_NoDup.
  - split; [done|]. cbn [photos]. by rewrite Hemit.
Qed.

Example navigates_to_the_next_photo :
  id <$> navigatePhotos (str "a") next viewerResult None = Some (str "b")
  /\ getPhotoIndex (str "b") (indexMap viewerResult) = 1.
Proof. split; reflexivity. Qed.

Example navigates_to_the_previous_photo :
  id <$> navigatePhotos (str "c") prev viewerResult None = Some (str "b").
Proof. reflexivity. Qed.

Example skips_to_the_next_matching_photo :
  id <$> navigatePhotos (str "a") next viewerResult (Some unassignedFilter)
  = Some (str "d").
Proof. reflexivity. Qed.

Example returns_null_when_no_next_photo_exists :
  navigatePhotos (str "a") next
    (sortPhotos lexCompare [createPhoto "a" 1000 None "test.jpg" None] noOptions) None
  = None.
Proof. reflexivity. Qed.

(** The end-to-end scenario: two files of one day, the later name taken
    earlier. *)
Example end_to_end_scenario :
  let ps := [createPhoto "IMG_01" 1000 (Some "Day 1/IMG_01.jpg"%string) "IMG_01.jpg" None;
             createPhoto "IMG_02" 900 (Some "Day 1/IMG_02.jpg"%string) "IMG_02.jpg" None] in
  let result := sortPhotos lexCompare ps noOptions in
  idsOf result = [str "IMG_02"; str "IMG_01"] /\
  id <$> navigatePhotos (str "IMG_02") next result None = Some (str "IMG_01").
Proof. split; reflexivity. Qed.

Lemma viewerResult_wellFormed : wellFormed viewerResult.
Proof.
  apply sortPhotos_wellFormed.
  apply (bool_decide_unpack _). vm_compute. exact I.
Qed.



Lemma navigate_unknown_id_witness :
  indexMap viewerResult !! str "stale" = None /\
  navigatePhotos (str "stale") prev viewerResult (Some unassignedFilter) = None.
Proof.
  assert (Hk : indexMap viewerResult !! str "stale" = None) by (vm_compute; reflexivity).
  split; [exact Hk|].
  exact (navigate_unknown_id viewerResult (str "stale") prev (Some unassignedFilter) Hk).
Defined.

End OrderingFacts.

(** ** The matcher: the result of a run *)

Module RegExpFacts.
Import RegExp.

(** *** What a match binds *)

Lemma matchStar_result cls pos (s : jsstring) caps k res :
  matchStar cls pos s caps k = Some res -> exists cur', k cur' caps = Some res.
Proof.
  revert pos. induction s as [|c s IH]; intros pos; simpl; [by eauto|].
  destruct (cls c); [|by eauto].
  destruct (matchStar cls (S pos) s caps k) eqn:E; [|by eauto].
  intros H. inv H. by eapply IH.
Qed.

(** A successful match ends in the continuation, and on the way only
    the groups of the pattern were bound. *)
Lemma matchAt_result r cur caps k res :
  matchAt r cur caps k = Some res ->
  exists cur' caps',
    k cur' caps' = Some res /\
    forall n, n ∉ groupsOf r -> capture n caps' = capture n caps.
Proof.
  revert cur caps k. induction r as [|cls|r1 IH1 r2 IH2|r1 IH1 r2 IH2|r1 IH1|cls|n r1 IH1| |];
    intros cur caps k; simpl.
  - by eauto.
  - destruct (snd cur) as [|c s]; [done|]. destruct (cls c); [by eauto|done].
  - intros H. apply IH1 in H as (cur1 & caps1 & H & Hc1).
    apply IH2 in H as (cur2 & caps2 & H & Hc2).
    exists cur2, caps2. split; [done|]. intros m Hm.
    rewrite not_elem_of_app in Hm. destruct Hm. by rewrite Hc2, Hc1.
  - destruct (matchAt r1 cur caps k) eqn:E.
    + intros H. inv H. apply IH1 in E as (cur1 & caps1 & H & Hc1).
      exists cur1, caps1. split; [done|]. intros m Hm.
      rewrite not_elem_of_app in Hm. destruct Hm. by apply Hc1.
    + intros H. apply IH2 in H as (cur2 & caps2 & H & Hc2).
      exists cur2, caps2. split; [done|]. intros m Hm.
      rewrite not_elem_of_app in Hm. destruct Hm. by apply Hc2.
  - destruct (matchAt r1 cur caps k) eqn:E; [|by eauto].
    intros H. inv H. by apply IH1 in E.
  - destruct (snd cur) as [|c s]; [done|]. destruct (cls c); [|done].
    intros H. apply matchStar_result in H as [cur' H]. by eauto.
  - intros H. apply IH1 in H as (cur1 & caps1 & H & Hc1).
    eexists _, _. split; [exact H|]. intros m Hm.
    apply not_elem_of_cons in Hm as [Hne Hm]. simpl.
    destruct (Nat.eqb_spec m n); [done|]. by apply Hc1.
  - destruct (Nat.eqb (fst cur) 0); [by eauto|done].
  - destruct (snd cur); [by eauto|done].
Qed.

(** A greedy run succeeds as soon as the continuation succeeds after
    some part of the run. *)
Lemma matchStar_some cls (a b : jsstring) pos caps k :
  Forall (fun c => cls c = true) a ->
  is_Some (k ((pos + length a)%nat, b) caps) ->
  is_Some (matchStar cls pos (a ++ b) caps k).
Proof.
  intros Ha. revert pos. induction Ha as [|c a Hc Ha IH]; intros pos Hk; simpl.
  - rewrite Nat.add_0_r in Hk. destruct b as [|c b]; simpl; [done|].
    destruct (cls c); [|done]. by destruct (matchStar cls (S pos) b caps k).
  - rewrite Hc. destruct (matchStar cls (S pos) (a ++ b) caps k) eqn:E; [done|].
    exfalso. assert (is_Some (matchStar cls (S pos) (a ++ b) caps k)) as [? ?].
    { apply IH. by replace (S pos + length a)%nat with (pos + length (c :: a))%nat
        by (simpl; lia). }
    congruence.
Qed.

End RegExpFacts.

(** ** The detector: day and bucket extraction *)

Module DetectorFacts.
Import RegExp RegExpFacts Detector.

(** *** Running the anchored patterns *)

Lemma searchFrom_Bol r pos (s : jsstring) : searchFrom (Seq Bol r) (S pos) s = None.
Proof.
  revert pos. induction s as [|c s IH]; intros pos; simpl; [done|]. apply IH.
Qed.

(** A pattern that starts with [^] is only tried at the start. *)
Lemma exec_Bol r (s : jsstring) :
  exec (Seq Bol r) s = matchAt r (0%nat, s) [] (fun _ caps => Some caps).
Proof.
  unfold exec. destruct s as [|c s]; simpl.
  - by destruct (matchAt r _ _ _).
  - destruct (matchAt r _ _ _); [done|]. apply searchFrom_Bol.
Qed.

Lemma chrI_intro x c : canonicalize c = canonicalize x -> chrI x c = true.
Proof. intros E. unfold chrI. by apply N.eqb_eq. Qed.

(** Turns the class memberships in the context into arithmetic. *)
Ltac class_facts :=
  unfold daySeparator, HYPHEN_PATTERN, bucketLetterClass, nonDigit in *;
  unfold digit, dot, whiteSpace, chrI, chr in *;
  unfold canonicalize, inRangeN in *;
  repeat match goal with
         | H : context [unit_of ?s] |- _ =>
             let v := eval vm_compute in (unit_of s) in change (unit_of s) with v in H
         | |- context [unit_of ?s] =>
             let v := eval vm_compute in (unit_of s) in change (unit_of s) with v
         end;
  repeat match goal with
         | H : context [if ?b then _ else _] |- _ => destruct b eqn:?
         | |- context [if ?b then _ else _] => destruct b eqn:?
         end;
  repeat match goal with
         | H : negb _ = true |- _ => apply negb_true_iff in H
         | H : negb _ = false |- _ => apply negb_false_iff in H
         | H : (_ || _) = true |- _ => apply orb_true_iff in H as [?|?]
         | H : (_ || _) = false |- _ => apply orb_false_iff in H as [? ?]
         | H : (_ && _) = true |- _ => apply andb_true_iff in H as [? ?]
         | H : (_ && _) = false |- _ => apply andb_false_iff in H as [?|?]
         | H : (_ <=? _)%N = true |- _ => apply N.leb_le in H
         | H : (_ <=? _)%N = false |- _ => apply N.leb_gt in H
         | H : (_ =? _)%N = true |- _ => apply N.eqb_eq in H
         | H : (_ =? _)%N = false |- _ => apply N.eqb_neq in H
         end.

(** Keeps the facts about the code unit [c] only. *)
Ltac clear_but c :=
  repeat match goal with
         | H : ?T |- _ =>
             lazymatch T with
             | context [c] => fail
             | _ => clear H
             end
         end.

Ltac class_solve :=
  match goal with
  | |- ?b = true => destruct b eqn:?; [reflexivity|exfalso]
  | |- ?b = false => destruct b eqn:?; [exfalso|reflexivity]
  end; class_facts; lia.

Lemma letter_not_digit x c :
  inRangeN 65 90 (canonicalize x) = true -> digit c = true -> chrI x c = false.
Proof. intros. class_solve. Qed.

Lemma letter_not_daySeparator x c :
  inRangeN 65 90 (canonicalize x) = true -> daySeparator c = true -> chrI x c = false.
Proof. intros. class_solve. Qed.

Lemma digit_not_daySeparator c : digit c = true -> daySeparator c = false.
Proof. intros. class_solve. Qed.

Lemma daySeparator_not_digit c : daySeparator c = true -> digit c = false.
Proof. intros. class_solve. Qed.

(** *** Day extraction by shape *)

Lemma DAY_PREFIX_PATTERN_eq :
  DAY_PREFIX_PATTERN
  = Seq Bol
      (Seq (Alt (Seq (Chr (chrI 100)) (Seq (Chr (chrI 97)) (Chr (chrI 121))))
                (Chr (chrI 100)))
           (Seq (Opt (Chr daySeparator))
                (Seq (Group 1 (Seq (Chr digit) (Opt (Chr digit))))
                     (Alt (Chr nonDigit) Eol)))).
Proof. reflexivity. Qed.

Lemma NUMERIC_PREFIX_PATTERN_eq :
  NUMERIC_PREFIX_PATTERN
  = Seq Bol (Seq (Group 1 (Seq (Chr digit) (Opt (Chr digit)))) (Chr daySeparator)).
Proof. reflexivity. Qed.

#[local] Arguments chrI : simpl never.

#[local] Arguments chr : simpl never.

#[local] Arguments digit : simpl never.

#[local] Arguments nonDigit : simpl never.

#[local] Arguments daySeparator : simpl never.

#[local] Arguments HYPHEN_PATTERN : simpl never.

#[local] Arguments bucketLetterClass : simpl never.

#[local] Arguments dot : simpl never.

#[local] Arguments canonicalize : simpl never.

#[local] Arguments parseInt : simpl never.

(** Decides the class test the matcher is stuck on from the facts at
    hand, and goes on. *)
Ltac decide_test :=
  match goal with
  | |- context [if ?cls ?c then _ else _] =>
      first
        [ let H := fresh "Ht" in
          assert (H : cls c = true) by (first [assumption | clear_but c; class_solve]);
          rewrite H; clear H
        | let H := fresh "Hf" in
          assert (H : cls c = false) by (first [assumption | clear_but c; class_solve]);
          rewrite H; clear H ]
  end.

Ltac run_match := repeat (cbn; try decide_test).

Lemma isDayWord_inv w :
  isDayWord w ->
  (exists c1 c2 c3, w = [c1; c2; c3] /\ chrI 100 c1 = true /\ chrI 97 c2 = true
                    /\ chrI 121 c3 = true) \/
  (exists c1, w = [c1] /\ chrI 100 c1 = true).
Proof.
  intros [H|H]; [left|right].
  - change (str "DAY") with [68; 65; 89]%N in H.
    destruct w as [|c1 [|c2 [|c3 [|c4 w]]]]; try done.
    injection H as E1 E2 E3. exists c1, c2, c3.
    repeat split; apply chrI_intro; by rewrite ?E1, ?E2, ?E3.
  - change (str "D") with [68]%N in H.
    destruct w as [|c1 [|c2 w]]; try done.
    injection H as E1. exists c1. split; [done|]. apply chrI_intro. by rewrite E1.
Qed.

Lemma exec_DAY_PREFIX name n :
  dayPrefixShape name n ->
  exists caps, exec DAY_PREFIX_PATTERN name = Some caps /\ parseInt (group 1 caps) = n.
Proof.
  intros (w & sep & d & rest & -> & Hw & Hsep & Hd & Hn & Hrest).
  rewrite DAY_PREFIX_PATTERN_eq, exec_Bol.
  apply isDayWord_inv in Hw.
  destruct Hw as [(c1 & c2 & c3 & -> & H1 & H2 & H3)|(c1 & -> & H1)];
    destruct Hsep as [->|(c & -> & Hc)];
    destruct Hd as [(d1 & -> & Hd1)|(d1 & d2 & -> & Hd1 & Hd2)];
    destruct rest as [|r rest]; simpl in Hrest.
  all: run_match; eexists; (split; [reflexivity|exact Hn]).
Qed.

Lemma exec_NUMERIC_PREFIX name n :
  numericPrefixShape name n ->
  exec DAY_PREFIX_PATTERN name = None /\
  exists caps, exec NUMERIC_PREFIX_PATTERN name = Some caps /\ parseInt (group 1 caps) = n.
Proof.
  intros (d & c & rest & -> & Hd & Hn & Hc).
  rewrite DAY_PREFIX_PATTERN_eq, NUMERIC_PREFIX_PATTERN_eq, !exec_Bol.
  destruct Hd as [(d1 & -> & Hd1)|(d1 & d2 & -> & Hd1 & Hd2)].
  all: split; [by run_match|].
  all: run_match; eexists; (split; [reflexivity|exact Hn]).
Qed.

Section DayFacts.
Variable Date_parse : jsstring -> option Z.

Lemma inDayRange n : 1 <= n <= 31 -> (1 <=? n) && (n <=? 31) = true.
Proof. intros. apply andb_true_iff. split; apply Z.leb_le; lia. Qed.

(** C5, as the code has it. A name made of "day" or "d" (any case), an
    optional separator and one or two digits giving a number in 1..31,
    followed by a non-digit or the end, yields that number with
    confidence [high]; a name that starts with one or two digits giving
    a number in 1..31 and a separator yields that number with confidence
    [medium] when no ISO date ([YYYY-MM-DD] or [YYYY_MM_DD]) occurs in
    it (an ISO date is tried first and wins); a name that no pattern
    matches yields [null]. *)
Theorem extractDay_by_shape (name : jsstring) (tripStart : option jsstring) (n : Z) :
  (dayPrefixShape name n -> 1 <= n <= 31 ->
   extractDayFromFolderName Date_parse name tripStart
   = Some {| detDay := n; dayPattern := str "day_prefix"; dayConfidence := high |}) /\
  (numericPrefixShape name n -> 1 <= n <= 31 ->
   exec ISO_DATE_PATTERN name = None ->
   exec ISO_DATE_PATTERN_UNDERSCORES name = None ->
   extractDayFromFolderName Date_parse name tripStart
   = Some {| detDay := n; dayPattern := str "numeric_prefix";
             dayConfidence := medium |}) /\
  (exec DAY_PREFIX_PATTERN name = None ->
   exec ISO_DATE_PATTERN name = None ->
   exec ISO_DATE_PATTERN_UNDERSCORES name = None ->
   exec NUMERIC_PREFIX_PATTERN name = None ->
   extractDayFromFolderName Date_parse name tripStart = None).
Proof.
  unfold extractDayFromFolderName, dayPrefixResult, isoResult, numericPrefixResult.
  split; [|split].
  - intros Hshape Hn. destruct (exec_DAY_PREFIX name n Hshape) as (caps & -> & ->).
    by rewrite inDayRange.
  - intros Hshape Hn Hiso1 Hiso2.
    destruct (exec_NUMERIC_PREFIX name n Hshape) as (-> & caps & -> & ->).
    by rewrite Hiso1, Hiso2, inDayRange.
  - by intros -> -> -> ->.
Qed.

End DayFacts.

(** The folder names of the specification. *)
Example extractDay_examples Date_parse tripStart :
  let high7 := Some {| detDay := 7; dayPattern := str "day_prefix";
                       dayConfidence := high |} in
  extractDayFromFolderName Date_parse (str "Day 7") tripStart = high7 /\
  extractDayFromFolderName Date_parse (str "D07") tripStart = high7 /\
  extractDayFromFolderName Date_parse (str "day_07x") tripStart = high7 /\
  extractDayFromFolderName Date_parse (str "7_Something") tripStart
  = Some {| detDay := 7; dayPattern := str "numeric_prefix";
            dayConfidence := medium |} /\
  extractDayFromFolderName Date_parse (str "Random Folder") tripStart = None.
Proof. repeat split; vm_compute; reflexivity. Qed.

Example isoDateOnly_epoch :
  isoDateOnly (str "1970-01-01") = Some 0 /\
  isoDateOnly (str "2024-03-15") = Some 1710460800000 /\
  isoDateOnly (str "2024-13-45") = None.
Proof. repeat split; vm_compute; reflexivity. Qed.

Example extractDay_iso_with_tripStart :
  extractDayFromFolderName isoDateOnly (str "2024-03-17 Golden Circle")
    (Some (str "2024-03-15"))
  = Some {| detDay := 3; dayPattern := str "iso_date"; dayConfidence := high |}.
Proof. vm_compute. reflexivity. Qed.

(** *** Bucket extraction *)

(** The folder names of the specification; the dash of the third one is
    the en dash U+2013. *)
Example detectBucket_examples :
  detectBucketFromFolderName (str "A_Establishing") = detected "A" high "standard" /\
  detectBucketFromFolderName (str "a-establishing") = detected "A" high "standard" /\
  detectBucketFromFolderName (str "A" ++ [8211%N] ++ str "Establishing")
  = detected "A" high "standard" /\
  detectBucketFromFolderName (str "A") = detected "A" high "letter" /\
  detectBucketFromFolderName (str "A_Whatever") = detected "A" medium "custom" /\
  detectBucketFromFolderName (str "01") = detected "A" low "numeric" /\
  detectBucketFromFolderName (str "Random Folder") = None.
Proof. repeat split; vm_compute; reflexivity. Qed.

(** Every canonical label behind its own letter, and every bare letter. *)
Example detectBucket_canonical_folders :
  Forall (fun kl => detectBucketFromFolderName (fst kl ++ str "_" ++ snd kl)
                    = Some {| detBucket := fst kl; bucketConfidence := high;
                              bucketPattern := str "standard" |}
                    /\ detectBucketFromFolderName (fst kl)
                       = Some {| detBucket := fst kl; bucketConfidence := high;
                                 bucketPattern := str "letter" |})
         BUCKET_LABELS.
Proof. repeat constructor; vm_compute; reflexivity. Qed.

(** The legacy codes map one to one onto the six buckets that are not the
    archive. *)
Example detectBucket_legacy_codes :
  map (fun code => detBucket <$> detectBucketFromFolderName (str code))
      ["01"; "02"; "03"; "04"; "05"; "06"; "00"; "07"]%string
  = [Some (str "A"); Some (str "B"); Some (str "C"); Some (str "D");
     Some (str "E"); Some (str "M"); None; None].
Proof. vm_compute. reflexivity. Qed.

Lemma BUCKET_PATTERNS_eq :
  BUCKET_STANDARD_PATTERN = afterLetter (Seq (Plus HYPHEN_PATTERN) categoryTail) /\
  BUCKET_LETTER_PATTERN = afterLetter Eol /\
  BUCKET_CUSTOM_PATTERN = afterLetter (Seq (Plus HYPHEN_PATTERN) customTail).
Proof. repeat split. Qed.

Lemma exec_afterLetter r l (s : jsstring) :
  exec (afterLetter r) (l :: s)
  = if bucketLetterClass l
    then matchAt r (1%nat, s) [(1%nat, [l])] (fun _ caps => Some caps)
    else None.
Proof. unfold afterLetter. rewrite exec_Bol. simpl. by destruct (bucketLetterClass l). Qed.

Lemma matchAt_Plus_Seq cls r c (s : jsstring) pos caps k :
  cls c = true ->
  matchAt (Seq (Plus cls) r) (pos, c :: s) caps k
  = matchStar cls (S pos) s caps (fun cur' caps' => matchAt r cur' caps' k).
Proof. intros H. simpl. by rewrite H. Qed.

(** Writes the string literals of the goal unit by unit. *)
Ltac explicit_strs :=
  repeat match goal with
         | |- context [str ?s] =>
             let v := eval vm_compute in (str s) in change (str s) with v
         end.

(** Splits [cat], equal to a literal up to case, into its units. *)
Ltac split_units H :=
  repeat match type of H with
         | map canonicalize ?cat = _ :: _ =>
             let c := fresh "c" in
             destruct cat as [|c cat]; [discriminate H|];
             let E := fresh "E" in
             injection H as E H
         | map canonicalize ?cat = [] =>
             destruct cat; [clear H|discriminate H]
         end.

Lemma categoryTail_match pos caps (cat label : jsstring) :
  label ∈ canonicalLabels -> map canonicalize cat = map canonicalize label ->
  is_Some (matchAt categoryTail (pos, cat) caps (fun _ caps' => Some caps')).
Proof.
  intros Hl Hcat. unfold categoryTail, categories, litI.
  repeat (apply elem_of_cons in Hl as [->|Hl]); [..|by inv Hl].
  all: match type of Hcat with
       | _ = ?r => let v := eval vm_compute in r in change r with v in Hcat
       end.
  all: split_units Hcat; explicit_strs; run_match; done.
Qed.

Lemma tail_keeps_letter r l cur caps res :
  1%nat ∉ groupsOf r ->
  matchStar HYPHEN_PATTERN (fst cur) (snd cur) [(1%nat, [l])]
    (fun cur' caps' => matchAt r cur' caps' (fun _ caps'' => Some caps'')) = Some res ->
  caps = res -> group 1 caps = [l].
Proof.
  intros Hg H ->. apply matchStar_result in H as [cur' H].
  apply matchAt_result in H as (cur'' & caps'' & H & Hc). inv H.
  unfold group. by rewrite Hc.
Qed.

(** Letter, separators, the rest: what the standard and the custom
    pattern capture once their tail matches after the separators. *)
Lemma exec_letter_separators r l (seps rest : jsstring) :
  1%nat ∉ groupsOf r ->
  bucketLetterClass l = true -> seps <> [] ->
  Forall (fun c => HYPHEN_PATTERN c = true) seps ->
  (forall pos caps, is_Some (matchAt r (pos, rest) caps (fun _ caps' => Some caps'))) ->
  exists caps,
    exec (afterLetter (Seq (Plus HYPHEN_PATTERN) r)) (l :: seps ++ rest) = Some caps /\
    group 1 caps = [l].
Proof.
  intros Hg Hl Hne Hseps Hrest. destruct seps as [|s1 seps]; [done|].
  inv Hseps. rewrite exec_afterLetter, Hl. cbn [app].
  rewrite matchAt_Plus_Seq by done.
  destruct (matchStar_some HYPHEN_PATTERN seps rest 2 [(1%nat, [l])]
              (fun cur' caps' => matchAt r cur' caps' (fun _ caps'' => Some caps'')))
    as [caps Hcaps]; [done|apply Hrest|].
  exists caps. split; [done|].
  by apply (tail_keeps_letter r l (2%nat, seps ++ rest) caps caps).
Qed.

Lemma customTail_match pos caps (suffix : jsstring) :
  suffix <> [] -> Forall (fun c => dot c = true) suffix ->
  is_Some (matchAt customTail (pos, suffix) caps (fun _ caps' => Some caps')).
Proof.
  intros Hne Hdot. destruct suffix as [|c suffix]; [done|]. inv Hdot.
  unfold customTail. cbn [matchAt fst snd]. rewrite H1.
  rewrite <- (app_nil_r suffix) at 1. by apply matchStar_some.
Qed.

(** The bucket extraction by shape, for the letters the patterns take:
    letter, separators and a canonical label in any case give the
    letter with confidence [high]; the bare letter too; letter,
    separators and any other non-empty suffix without a line break give
    it with confidence [medium]; a name that starts with no such letter
    and is no legacy code gives [null]. *)
Lemma detectBucket_by_shape (l : N) (seps : jsstring) :
  bucketLetterClass l = true ->
  seps <> [] -> Forall (fun c => HYPHEN_PATTERN c = true) seps ->
  (forall cat label,
     label ∈ canonicalLabels -> map canonicalize cat = map canonicalize label ->
     detectBucketFromFolderName (l :: seps ++ cat)
     = Some {| detBucket := [canonicalize l]; bucketConfidence := high;
               bucketPattern := str "standard" |}) /\
  detectBucketFromFolderName [l]
  = Some {| detBucket := [canonicalize l]; bucketConfidence := high;
            bucketPattern := str "letter" |} /\
  (forall suffix,
     suffix <> [] -> Forall (fun c => dot c = true) suffix ->
     exec BUCKET_STANDARD_PATTERN (l :: seps ++ suffix) = None ->
     detectBucketFromFolderName (l :: seps ++ suffix)
     = Some {| detBucket := [canonicalize l]; bucketConfidence := medium;
               bucketPattern := str "custom" |}).
Proof.
  intros Hl Hne Hseps.
  destruct BUCKET_PATTERNS_eq as (Hstd & Hlet & Hcus).
  unfold detectBucketFromFolderName. split; [|split].
  - intros cat label Hlabel Hcat.
    destruct (exec_letter_separators categoryTail l seps cat) as (caps & E & Hg);
      try done.
    { intros H. repeat (apply elem_of_cons in H as [H|H]; [done|]). by inv H. }
    { intros pos caps. by apply (categoryTail_match pos caps cat label). }
    rewrite Hstd, E. simpl. by rewrite Hg.
  - rewrite Hstd, Hlet, !exec_afterLetter, Hl. by simpl.
  - intros suffix Hsuf Hdot Hnostd.
    destruct (exec_letter_separators customTail l seps suffix) as (caps & E & Hg);
      try done.
    { intros H. repeat (apply elem_of_cons in H as [H|H]; [done|]). by inv H. }
    { intros pos caps. by apply customTail_match. }
    rewrite Hnostd, Hcus, E, Hlet, exec_afterLetter, Hl.
    destruct seps as [|s1 seps]; [done|]. simpl. by rewrite Hg.
Qed.

(** Without a letter of the class in front and without a legacy code
    there is no bucket. *)
Lemma detectBucket_no_letter (name : jsstring) :
  (forall l rest, name = l :: rest -> bucketLetterClass l = false) ->
  exec BUCKET_NUMERIC_PATTERN name = None ->
  detectBucketFromFolderName name = None.
Proof.
  intros Hl Hnum. destruct BUCKET_PATTERNS_eq as (Hstd & Hlet & Hcus).
  unfold detectBucketFromFolderName. rewrite Hnum, Hstd, Hlet, Hcus.
  destruct name as [|l rest].
  - unfold afterLetter. by rewrite !exec_Bol.
  - rewrite !exec_afterLetter, (Hl l rest eq_refl). done.
Qed.

(** C6 at the folder name ["F"]. The letter class of the three letter
    patterns is [[A-MX]]: it takes the letters F to L, which are no
    bucket keys, so that ["F"] is detected as bucket ["F"] with
    confidence [high] and ["F_Notes"] with confidence [medium], where
    [isMeceBucketLabel] rejects both. *)
Theorem detectBucket_accepts_non_bucket_letter :
  detectBucketFromFolderName (str "F") = detected "F" high "letter" /\
  detectBucketFromFolderName (str "F_Notes") = detected "F" medium "custom" /\
  detectBucketFromFolderName (str "F_People") = detected "F" high "standard" /\
  (str "F" ∉ MECE_BUCKET_KEYS) /\
  isMeceBucketLabel (str "F") = false /\
  isMeceBucketLabel (str "F_Notes") = false.
Proof.
  repeat split; try (vm_compute; reflexivity).
  intros H. by apply (bool_decide_pack _) in H.
Qed.

(** A numeric prefix in front of an ISO date: the date wins, and without
    a trip start it is day 1. *)
Lemma numeric_prefix_before_iso_date_counterexample :
  numericPrefixShape (str "7_2024-03-15") 7 /\
  extractDayFromFolderName isoDateOnly (str "7_2024-03-15") None
  = Some {| detDay := 1; dayPattern := str "iso_date"; dayConfidence := medium |}.
Proof.
  split; [|vm_compute; reflexivity].
  exists (str "7"), (unit_of "_"), (str "2024-03-15").
  repeat split; try (vm_compute; reflexivity).
  left. exists (unit_of "7"). split; vm_compute; reflexivity.
Qed.

Lemma extractDay_by_shape_witness :
  dayPrefixShape (str "day_07x") 7 /\
  extractDayFromFolderName isoDateOnly (str "day_07x") None
  = Some {| detDay := 7; dayPattern := str "day_prefix"; dayConfidence := high |}.
Proof.
  assert (H : dayPrefixShape (str "day_07x") 7).
  { exists (str "day"), (str "_"), (str "07"), (str "x").
    repeat split; try (vm_compute; reflexivity).
    - left. vm_compute. reflexivity.
    - right. exists (unit_of "_"). split; vm_compute; reflexivity.
    - right. exists (unit_of "0"), (unit_of "7"). repeat split; vm_compute; reflexivity. }
  split; [exact H|].
  apply (proj1 (extractDay_by_shape isoDateOnly (str "day_07x") None 7) H). lia.
Defined.

End DetectorFacts.

(** ** The reconciler: scan, archive folder, cached edits *)

Module ReconcilerFacts.
Import RegExp Detector DetectorFacts Reconciler.

(** *** Reconciliation fails on an empty scan *)

Section Service.
Variable Date_parse : jsstring -> option Z.
Variable toLowerCase : jsstring -> jsstring.
(** [generateId()]: the id drawn for the [n]-th photo of a scan. *)
Variable generateId : nat -> jsstring.
Local Abbreviation isHeicFile := (Reconciler.isHeicFile toLowerCase).
Local Abbreviation photoOfEntry := (Reconciler.photoOfEntry Date_parse toLowerCase).
Local Abbreviation scanFiles :=
  (Reconciler.scanFiles Date_parse toLowerCase generateId).
Local Abbreviation buildPhotosFromHandle :=
  (Reconciler.buildPhotosFromHandle Date_parse toLowerCase generateId).
Local Abbreviation isArchiveFolderSegment :=
  (Reconciler.isArchiveFolderSegment toLowerCase).
Local Abbreviation archivePhoto := (Reconciler.archivePhoto toLowerCase).
Local Abbreviation applyArchiveFolder := (Reconciler.applyArchiveFolder toLowerCase).
Local Abbreviation getState :=
  (Reconciler.getState Date_parse toLowerCase generateId).
Local Abbreviation specFingerprint := (Reconciler.specFingerprint toLowerCase).

Lemma scanFiles_length files photos seenFiles :
  (length photos <= length (scanFiles files photos seenFiles))%nat.
Proof.
  revert photos seenFiles. induction files as [|entry rest IH]; intros; simpl; [done|].
  case_decide; [apply IH|].
  etrans; [|apply IH]. rewrite length_app. simpl. lia.
Qed.

Lemma buildPhotosFromHandle_nil fs :
  buildPhotosFromHandle fs = [] <-> fs = [].
Proof.
  unfold buildPhotosFromHandle. split; [|by intros ->].
  intros E. apply (f_equal length) in E.
  rewrite (Permutation_length (OrderingFacts.Array_sort_perm _ _)) in E.
  destruct fs as [|entry rest]; [done|]. simpl in E.
  rewrite decide_False in E by set_solver.
  match type of E with
  | length (scanFiles ?r ?ps ?sn) = _ => pose proof (scanFiles_length r ps sn) as Hlen
  end.
  rewrite E in Hlen. simpl in Hlen. lia.
Qed.

(** C9. When the scan of the project folder yields no file, [getState]
    throws instead of returning a project, and the stored project states
    are left as they were; with a handle whose permission is granted the
    error is the "no longer available" one and no store changes at
    all. *)
Theorem getState_fails_on_empty_scan (projectId : jsstring) (w : World) :
  (forall handle, handleDb w !! projectId = Some handle -> files handle = []) ->
  exists e w',
    getState projectId w = (w', inl e) /\
    localStorage w' = localStorage w /\
    (forall handle, handleDb w !! projectId = Some handle ->
       hasRequestPermission handle = true -> permission handle = Some granted ->
       e = FolderNoLongerAvailable /\ w' = w).
Proof.
  intros Hfiles. unfold getState, bind, getHandle, throw.
  destruct (handleDb w !! projectId) as [handle|] eqn:Hh.
  - specialize (Hfiles handle eq_refl).
    destruct (hasRequestPermission handle) eqn:Hrp; simpl.
    + destruct (permission handle) as [[| |]|] eqn:Hp; simpl.
      * rewrite Hfiles. simpl.
        exists FolderNoLongerAvailable, w. repeat split; done.
      * exists FolderAccessNotGranted, w. repeat split; try done; congruence.
      * exists FolderAccessNotGranted, w. repeat split; try done; congruence.
      * eexists FolderAccessExpired, _. repeat split; try done; congruence.
    + exists FileSystemAccessUnsupported, w. repeat split; try done; congruence.
  - exists FolderAccessNotAvailable, w. repeat split; done.
Qed.

(** *** The archive-folder rule *)

Lemma archivePhoto_filePath af photo : filePath (archivePhoto af photo) = filePath photo.
Proof.
  unfold archivePhoto. destruct (filePath photo) as [[|c p]|] eqn:E; try done.
  by destruct (existsb _ _).
Qed.

Lemma pathParts_nil : pathParts [] = [].
Proof. reflexivity. Qed.

Lemma archivePhoto_forced af photo p segment :
  filePath photo = Some p -> segment ∈ pathParts p ->
  isArchiveFolderSegment segment af = true ->
  archived (archivePhoto af photo) = true /\
  bucket (archivePhoto af photo) = Some (str "X").
Proof.
  intros Hp Hseg Hrec. unfold archivePhoto. rewrite Hp.
  destruct p as [|c p]; [by inv Hseg|].
  assert (existsb (fun s => isArchiveFolderSegment s af) (pathParts (c :: p)) = true) as ->.
  { apply existsb_exists. exists segment. split; [|done].
    by apply list_elem_of_In. }
  done.
Qed.

Lemma configuredArchiveFolder_nonEmpty st : nonEmpty (configuredArchiveFolder st) = true.
Proof.
  unfold configuredArchiveFolder.
  by destruct (archiveFolder <$> folderStructure st) as [[|c s]|].
Qed.

Lemma getState_photos projectId w w' st :
  getState projectId w = (w', inr st) ->
  exists merged, photos st = map (archivePhoto (configuredArchiveFolder (settings st))) merged.
Proof.
  unfold getState, bind, getHandle, throw, ret, removeHandle, readStored.
  destruct (handleDb w !! projectId) as [handle|]; [|done].
  destruct (hasRequestPermission handle); simpl; [|done].
  destruct (permission handle) as [[| |]|]; simpl; try done.
  destruct (Nat.eqb _ 0); [done|].
  intros E. inv E. cbn [photos settings]. unfold applyArchiveFolder.
  match goal with |- context [if _ then map _ ?m else _] => exists m end.
  unfold configuredArchiveFolder.
  by destruct (archiveFolder <$> folderStructure _) as [[|c s]|].
Qed.

(** In the state [getState] returns, every photo whose path has a
    segment recognized as an archive folder is archived with bucket
    ["X"], whatever the cached edits said; a segment is recognized when
    it equals the configured archive-folder name (compared in lower
    case) and when its lower-case form contains ["archive"]. *)
Lemma getState_forces_archive (projectId : jsstring) (w w' : World)
    (st : ProjectState) :
  getState projectId w = (w', inr st) ->
  (forall photo p segment,
     photo ∈ photos st -> filePath photo = Some p -> segment ∈ pathParts p ->
     isArchiveFolderSegment segment (configuredArchiveFolder (settings st)) = true ->
     archived photo = true /\ bucket photo = Some (str "X")) /\
  (forall segment af,
     nonEmpty (toLowerCase af) = true -> toLowerCase segment = toLowerCase af ->
     isArchiveFolderSegment segment af = true) /\
  (forall segment af,
     includes (str "archive") (toLowerCase segment) = true ->
     isArchiveFolderSegment segment af = true).
Proof.
  intros Hst. split; [|split].
  - intros photo p segment Hin Hp Hseg Hrec.
    destruct (getState_photos _ _ _ _ Hst) as [merged Hm].
    rewrite Hm in Hin. apply list_elem_of_fmap in Hin as (q & -> & Hq).
    rewrite archivePhoto_filePath in Hp.
    by apply (archivePhoto_forced _ q p segment).
  - intros segment af Hne E. unfold isArchiveFolderSegment.
    by rewrite Hne, E, bool_decide_eq_true_2.
  - intros segment af Hinc. unfold isArchiveFolderSegment. rewrite Hinc.
    cbn [orb]. by repeat case_match.
Qed.

(** *** The merge with the cached edits *)

Lemma cachedEdits_fold (storedEdits : list Edit.t) (m : gmap jsstring Edit.t)
    (c : N) (p : jsstring) :
  fold_left
    (fun m edit =>
       match Edit.filePath edit with
       | Some (c :: p) => <[(c :: p) := edit]> m
       | _ => m
       end)
    storedEdits m !! (c :: p)
  = match editFor (c :: p) storedEdits with
    | Some e => Some e
    | None => m !! (c :: p)
    end.
Proof.
  unfold editFor. revert m.
  induction storedEdits as [|e rest IH]; intros m; [done|].
  cbn [fold_left]. rewrite IH, filter_cons.
  destruct (decide (Edit.filePath e = Some (c :: p))) as [E|E].
  - rewrite E, last_cons. destruct (last (filter _ rest)); [done|].
    by rewrite lookup_insert_eq.
  - destruct (last (filter _ rest)); [done|].
    destruct (Edit.filePath e) as [[|c' p']|]; try done.
    rewrite lookup_insert_ne; [done|congruence].
Qed.

Lemma cachedEditsOf_lookup (storedEdits : list Edit.t) (c : N) (p : jsstring) :
  cachedEditsOf storedEdits !! (c :: p) = editFor (c :: p) storedEdits.
Proof.
  unfold cachedEditsOf. rewrite cachedEdits_fold.
  by destruct (editFor (c :: p) storedEdits).
Qed.

(** C2, as the code has it. For a fresh photo whose (non-empty) path has
    an entry in the cached-edit list, the merge takes [day], [sequence],
    [favorite], [rating], [archived], [currentName] and
    [subfolderOverride] from the entry (the last one of that path), and
    [bucket] too when the cached bucket is a non-empty string; a cached
    bucket that is [null] or empty leaves the freshly detected bucket in
    place. Identity, thumbnail, media type and the detection provenance
    are those of the fresh scan. *)
Theorem applyCachedEdits_overlay (freshPhotos : list ProjectPhoto)
    (storedEdits : list Edit.t) (i : nat) (photo : ProjectPhoto)
    (c : N) (p : jsstring) (cached : Edit.t) :
  freshPhotos !! i = Some photo ->
  filePath photo = Some (c :: p) ->
  editFor (c :: p) storedEdits = Some cached ->
  exists merged,
    applyCachedEdits freshPhotos storedEdits !! i = Some merged /\
    day merged = Edit.day cached /\
    sequence merged = Edit.sequence cached /\
    favorite merged = Edit.favorite cached /\
    rating merged = Edit.rating cached /\
    archived merged = Edit.archived cached /\
    currentName merged = Edit.currentName cached /\
    subfolderOverride merged = Edit.subfolderOverride cached /\
    (truthy (Edit.bucket cached) = true -> bucket merged = Edit.bucket cached) /\
    (truthy (Edit.bucket cached) = false -> bucket merged = bucket photo) /\
    id merged = id photo /\
    originalName merged = originalName photo /\
    timestamp merged = timestamp photo /\
    filePath merged = filePath photo /\
    thumbnail merged = thumbnail photo /\
    mimeType merged = mimeType photo /\
    detectedDay merged = detectedDay photo /\
    detectedBucket merged = detectedBucket photo /\
    isPreOrganized merged = isPreOrganized photo /\
    organizationConfidence merged = organizationConfidence photo.
Proof.
  intros Hi Hp Hc. exists (mergeCached photo cached). split.
  - unfold applyCachedEdits. rewrite list_lookup_fmap, Hi. simpl.
    unfold lookupCached. by rewrite Hp, cachedEditsOf_lookup, Hc.
  - unfold mergeCached. simpl.
    repeat split; try done; by intros ->.
Qed.

(** A photo whose path has no entry keeps its fresh values. *)
Lemma applyCachedEdits_untouched (freshPhotos : list ProjectPhoto)
    (storedEdits : list Edit.t) (i : nat) photo (c : N) (p : jsstring) :
  freshPhotos !! i = Some photo -> filePath photo = Some (c :: p) ->
  editFor (c :: p) storedEdits = None ->
  applyCachedEdits freshPhotos storedEdits !! i = Some photo.
Proof.
  intros Hi Hp Hc. unfold applyCachedEdits. rewrite list_lookup_fmap, Hi. simpl.
  unfold lookupCached. by rewrite Hp, cachedEditsOf_lookup, Hc.
Qed.

(** *** Acceptance of the detector's output *)

Lemma firstOf_Some {A} (P : A -> Prop) (alternatives : list (option A)) r :
  firstOf alternatives = Some r ->
  Forall (fun o => forall x, o = Some x -> P x) alternatives -> P r.
Proof.
  induction alternatives as [|[a|] rest IH]; simpl; intros E HP; [done| |].
  - inv E. inv HP. eauto.
  - inv HP. eauto.
Qed.

Lemma extractDay_confidence folderName tripStart d :
  extractDayFromFolderName Date_parse folderName tripStart = Some d ->
  dayConfidence d = high \/ dayConfidence d = medium.
Proof.
  intros E.
  apply (firstOf_Some (fun d => dayConfidence d = high \/ dayConfidence d = medium) _ _ E).
  repeat first [apply Forall_nil_2 | apply Forall_cons_2]; intros x Hx.
  - unfold dayPrefixResult in Hx. repeat case_match; simplify_eq. by left.
  - unfold isoResult in Hx. repeat case_match; simplify_eq; simpl; auto.
  - unfold isoResult in Hx. repeat case_match; simplify_eq; simpl; auto.
  - unfold numericPrefixResult in Hx. repeat case_match; simplify_eq. by right.
Qed.

Lemma detectBucket_confidence folderName b :
  detectBucketFromFolderName folderName = Some b -> bucketConfidence b <> none.
Proof.
  intros E. apply (firstOf_Some (fun b => bucketConfidence b <> none) _ _ E).
  repeat first [apply Forall_nil_2 | apply Forall_cons_2]; intros x Hx.
  - destruct (exec BUCKET_STANDARD_PATTERN folderName); by simplify_eq/=.
  - destruct (exec BUCKET_LETTER_PATTERN folderName); by simplify_eq/=.
  - destruct (exec BUCKET_CUSTOM_PATTERN folderName); by simplify_eq/=.
  - destruct (exec BUCKET_NUMERIC_PATTERN folderName); [|done].
    destruct (lookupTable _ _); by simplify_eq/=.
Qed.

Lemma scanSegments_confidence segments d b dc bc :
  scanSegments Date_parse segments = (Some d, Some b, dc, bc) ->
  dc <> none /\ dc <> high /\ bc <> none.
Proof.
  induction segments as [|segment rest IH]; simpl; [done|].
  destruct (extractDayFromFolderName Date_parse segment None) as [dd|]; [|done].
  destruct rest as [|bucketFolder rest']; [done|].
  destruct (detectBucketFromFolderName bucketFolder) as [bd|] eqn:Hb; [|done].
  intros E. inv E. apply detectBucket_confidence in Hb.
  by destruct (dayConfidence dd).
Qed.

(** A path with both a day and a bucket detected has confidence [high]
    or [medium]: [low] is only reached with a day alone. *)
Lemma analyzePathStructure_preOrganized filePath optDaysFolder :
  let a := analyzePathStructure Date_parse toLowerCase filePath optDaysFolder in
  paIsPreOrganized a = true -> paConfidence a = high \/ paConfidence a = medium.
Proof.
  unfold analyzePathStructure.
  set (segs := dropLast (pathParts filePath)).
  set (idx := findIndex _ segs).
  set (four := match idx with Some _ => _ | None => _ end).
  assert (Hfour : forall d b dc bc, four = (Some d, Some b, dc, bc) ->
                                    dc <> none /\ bc <> none).
  { intros d b dc bc. unfold four. destruct idx as [i|].
    - destruct (i + 1 <? length segs)%nat.
      + destruct (extractDayFromFolderName _ _ _) as [dd|] eqn:Hd; [|done].
        apply extractDay_confidence in Hd.
        destruct (if (i + 2 <? length segs)%nat then _ else None) as [bd|] eqn:Hb;
          [|done].
        intros E. inv E. split; [by destruct Hd as [-> | ->]|].
        destruct (i + 2 <? length segs)%nat; [|done].
        by apply detectBucket_confidence in Hb.
      + intros E. apply scanSegments_confidence in E. tauto.
    - intros E. apply scanSegments_confidence in E. tauto. }
  destruct four as [[[[d|] [b|]] dc] bc]; simpl; try done.
  destruct (Hfour d b dc bc eq_refl) as [Hdc Hbc]. intros _.
  destruct dc, bc; simpl; auto; done.
Qed.

Lemma scanFiles_elem files photos seenFiles photo :
  photo ∈ scanFiles files photos seenFiles ->
  photo ∈ photos \/ exists entry n, entry ∈ files /\ photo = photoOfEntry entry (generateId n).
Proof.
  revert photos seenFiles. induction files as [|entry rest IH]; intros photos seen; simpl.
  - by left.
  - case_decide; intros Hin; apply IH in Hin.
    + destruct Hin as [?|(e & n & ? & ?)]; [by left|].
      right. exists e, n. split; [by right|done].
    + destruct Hin as [Hin|(e & n & ? & ?)].
      * apply elem_of_app in Hin as [?|Hin]; [by left|].
        apply list_elem_of_singleton in Hin. right.
        exists entry, (length photos). split; [by left|done].
      * right. exists e, n. split; [by right|done].
Qed.

(** C7, as the code has it. Every photo of a scan records what the path
    detector inferred in [detectedDay], [detectedBucket],
    [isPreOrganized] and [organizationConfidence]; the detected day and
    bucket become its editable [day] and [bucket] exactly when the
    detector found both (then the confidence is [high] or [medium]);
    otherwise, whatever the confidence, and in particular when it is
    [low], [day] and [bucket] are left [null]. *)
Theorem buildPhotos_detection_acceptance (fs : list FileEntry) (photo : ProjectPhoto) :
  photo ∈ buildPhotosFromHandle fs ->
  exists entry,
    entry ∈ fs /\ filePath photo = Some (path entry) /\
    let a := analyzePathStructure Date_parse toLowerCase (path entry) None in
    detectedDay photo = paDetectedDay a /\
    detectedBucket photo = paDetectedBucket a /\
    isPreOrganized photo = paIsPreOrganized a /\
    organizationConfidence photo = paConfidence a /\
    (paIsPreOrganized a = true ->
       (paConfidence a = high \/ paConfidence a = medium) /\
       day photo = paDetectedDay a /\ bucket photo = paDetectedBucket a) /\
    (paIsPreOrganized a = false -> day photo = None /\ bucket photo = None) /\
    (paConfidence a = low -> day photo = None /\ bucket photo = None).
Proof.
  unfold buildPhotosFromHandle. rewrite OrderingFacts.Array_sort_perm.
  intros Hin. apply scanFiles_elem in Hin as [Hin|(entry & n & He & ->)]; [by inv Hin|].
  exists entry. split; [done|]. split; [done|].
  pose proof (analyzePathStructure_preOrganized (path entry) None) as Hpre.
  cbv zeta in *. unfold photoOfEntry. cbn [detectedDay detectedBucket isPreOrganized
    organizationConfidence day bucket].
  set (a := analyzePathStructure Date_parse toLowerCase (path entry) None) in *.
  repeat split; try done.
  - by apply Hpre.
  - destruct (Hpre H) as [-> | ->]; by rewrite H.
  - destruct (Hpre H) as [-> | ->]; by rewrite H.
  - by rewrite H.
  - by rewrite H.
  - rewrite H. by rewrite andb_false_r.
  - rewrite H. by rewrite andb_false_r.
Qed.

(** *** Duplicate suppression *)

Lemma str_cons a s : str (String a s) = N_of_ascii a :: str s.
Proof. reflexivity. Qed.

Lemma str_inj s1 s2 : str s1 = str s2 -> s1 = s2.
Proof.
  revert s2. induction s1 as [|a s1 IH]; intros [|b s2]; try done.
  rewrite !str_cons. intros E. inv E. f_equal; [|by apply IH].
  by rewrite <- (ascii_N_embedding a), <- (ascii_N_embedding b), H0.
Qed.

Lemma numberToString_inj n1 n2 : numberToString n1 = numberToString n2 -> n1 = n2.
Proof.
  unfold numberToString. intros E. apply str_inj in E.
  apply DecimalZ.to_int_inj.
  pose proof (NilEmpty.isi (Z.to_int n1)) as H1.
  pose proof (NilEmpty.isi (Z.to_int n2)) as H2.
  rewrite E in H1. congruence.
Qed.

Lemma string_of_uint_no_bar d : 124%N ∉ str (NilEmpty.string_of_uint d).
Proof.
  induction d; simpl; rewrite ?str_cons; [by apply not_elem_of_nil|..];
    (apply not_elem_of_cons; split; [by vm_compute|done]).
Qed.

Lemma numberToString_no_bar n : 124%N ∉ numberToString n.
Proof.
  unfold numberToString. destruct (Z.to_int n) as [d|d]; simpl.
  - apply string_of_uint_no_bar.
  - rewrite str_cons. apply not_elem_of_cons. split; [by vm_compute|].
    apply string_of_uint_no_bar.
Qed.

Lemma split_at_last (x : N) (l1 l2 r1 r2 : jsstring) :
  x ∉ r1 -> x ∉ r2 -> l1 ++ x :: r1 = l2 ++ x :: r2 -> l1 = l2 /\ r1 = r2.
Proof.
  intros H1 H2. revert l2. induction l1 as [|a l1 IH]; intros [|b l2] E; simpl in E.
  - by inv E.
  - inv E. exfalso. apply H1. apply elem_of_app. right. by left.
  - inv E. exfalso. apply H2. apply elem_of_app. right. by left.
  - inv E. destruct (IH l2) as [-> ->]; done.
Qed.

(** The fingerprint string stands for the triple of the name as
    reported, the timestamp and the size. *)
Lemma fileFingerprint_inj e1 e2 :
  fileFingerprint e1 = fileFingerprint e2 <-> fileKey e1 = fileKey e2.
Proof.
  unfold fileFingerprint, fileKey. split.
  - intros E.
    assert (forall a b c : jsstring,
              a ++ str "|" ++ b ++ str "|" ++ c = (a ++ 124%N :: b) ++ 124%N :: c) as Hj.
    { intros a b c. by rewrite <- app_assoc. }
    rewrite !Hj in E.
    apply split_at_last in E as [E1 E2]; try apply numberToString_no_bar.
    apply split_at_last in E1 as [E1 E3]; try apply numberToString_no_bar.
    apply numberToString_inj in E2, E3. congruence.
  - intros E. by inv E.
Qed.

Lemma scanFiles_firstCopies (fs : list FileEntry) (photos : list ProjectPhoto)
    (seenFiles : gset jsstring)
    (seen : list (jsstring * Z * Z)) :
  (forall e, fileFingerprint e ∈ seenFiles <-> fileKey e ∈ seen) ->
  scanFiles fs photos seenFiles
  = photos ++ imap (fun n entry => photoOfEntry entry (generateId (length photos + n)))
                   (firstCopies fs seen).
Proof.
  revert photos seenFiles seen.
  induction fs as [|entry rest IH]; intros photos seenFiles seen Hseen; simpl.
  - by rewrite app_nil_r.
  - destruct (decide (fileFingerprint entry ∈ seenFiles)) as [Hin|Hin].
    + rewrite decide_True by (by apply Hseen). by apply IH.
    + rewrite decide_False by (by rewrite <- Hseen).
      rewrite (IH _ _ (fileKey entry :: seen)).
      * rewrite <- app_assoc. simpl. f_equal. rewrite Nat.add_0_r. f_equal.
        apply imap_ext. intros n e _. simpl. rewrite length_app. simpl.
        do 2 f_equal. lia.
      * intros e. rewrite elem_of_union, elem_of_singleton, elem_of_cons, Hseen.
        by rewrite fileFingerprint_inj.
Qed.

(** A copy of a file already seen does not change what survives. *)
Lemma firstCopies_skip l1 e l2 seen :
  fileKey e ∈ seen -> firstCopies (l1 ++ e :: l2) seen = firstCopies (l1 ++ l2) seen.
Proof.
  revert seen. induction l1 as [|a l1 IH]; intros seen Hin; simpl.
  - by rewrite decide_True.
  - case_decide; [by apply IH|]. f_equal. apply IH. by right.
Qed.

(** C4, as the code has it. The fingerprint of a file is the triple of
    its name exactly as reported (no case folding), its last-modified
    timestamp and its size; a scan keeps the files that are no copy, by
    that triple, of a file enumerated earlier, one photo each in
    enumeration order and then sorted by timestamp, so that of the
    files sharing a fingerprint only the first-enumerated path reaches
    the output. *)
Theorem buildPhotos_duplicate_suppression (fs : list FileEntry) :
  (forall e1 e2,
     fileFingerprint e1 = fileFingerprint e2 <->
     name e1 = name e2 /\ lastModified e1 = lastModified e2 /\ size e1 = size e2) /\
  scanFiles fs [] ∅
  = imap (fun n entry => photoOfEntry entry (generateId n)) (firstCopies fs []) /\
  buildPhotosFromHandle fs
  = Ordering.Array_sort (fun a b => timestamp a - timestamp b)
      (imap (fun n entry => photoOfEntry entry (generateId n)) (firstCopies fs [])) /\
  filePath <$> buildPhotosFromHandle fs
    ≡ₚ (fun entry => Some (path entry)) <$> firstCopies fs [] /\
  (forall e1 e2 between after,
     fileKey e1 = fileKey e2 ->
     firstCopies (e1 :: between ++ e2 :: after) []
     = e1 :: firstCopies (between ++ after) [fileKey e1]).
Proof.
  assert (Hscan : scanFiles fs [] ∅
    = imap (fun n entry => photoOfEntry entry (generateId n)) (firstCopies fs [])).
  { rewrite (scanFiles_firstCopies fs [] ∅ []); [done|].
    intros e. split; [set_solver|by intros H; inv H]. }
  split; [|split; [|split; [|split]]].
  - intros e1 e2. rewrite fileFingerprint_inj. unfold fileKey.
    split; [by intros E; inv E|by intros (-> & -> & ->)].
  - exact Hscan.
  - unfold buildPhotosFromHandle. by rewrite Hscan.
  - unfold buildPhotosFromHandle. rewrite Hscan, OrderingFacts.Array_sort_perm.
    rewrite fmap_imap.
    rewrite (imap_ext _ (const (fun entry => Some (path entry)))); [|done].
    by rewrite imap_const.
  - intros e1 e2 between after E. cbn [firstCopies app].
    rewrite decide_False by (by intros H; inv H).
    f_equal. apply firstCopies_skip. rewrite <- E. by left.
Qed.

End Service.

(** *** Scans and stores to evaluate the service on *)

(** The scan of [projectService.test.ts]: [IMG_0001.jpg] is reachable
    under [Day1] and under [Day2]. *)
Example collects_files_and_skips_duplicates :
  filePath <$> scan [jpeg "Day1/IMG_0001.jpg" "IMG_0001.jpg" 1000 3;
                     jpeg "Day2/IMG_0001.jpg" "IMG_0001.jpg" 1000 3;
                     jpeg "Day2/IMG_0002.jpg" "IMG_0002.jpg" 2000 4;
                     jpeg "ROOT_0001.jpg" "ROOT_0001.jpg" 1500 2]
  = [Some (str "Day1/IMG_0001.jpg"); Some (str "ROOT_0001.jpg");
     Some (str "Day2/IMG_0002.jpg")].
Proof. vm_compute. reflexivity. Qed.

(** Two files whose names differ in case only have the same fingerprint
    in the specification's wording, and both reach the output. *)
Lemma lowercased_fingerprint_counterexample :
  let a := jpeg "Day1/IMG_0001.JPG" "IMG_0001.JPG" 1000 3 in
  let b := jpeg "Day2/img_0001.jpg" "img_0001.jpg" 1000 3 in
  specFingerprint toLowerCaseLatin a = specFingerprint toLowerCaseLatin b /\
  filePath <$> scan [a; b]
  = [Some (str "Day1/IMG_0001.JPG"); Some (str "Day2/img_0001.jpg")].
Proof. split; vm_compute; reflexivity. Qed.

Lemma buildPhotos_duplicate_suppression_witness :
  let a := jpeg "Day1/IMG_0001.jpg" "IMG_0001.jpg" 1000 3 in
  let b := jpeg "Day2/IMG_0001.jpg" "IMG_0001.jpg" 1000 3 in
  fileFingerprint a = fileFingerprint b /\
  firstCopies [a; b] [] = [a] /\
  filePath <$> scan [a; b] ≡ₚ [Some (str "Day1/IMG_0001.jpg")].
Proof.
  intros a b.
  destruct (buildPhotos_duplicate_suppression isoDateOnly toLowerCaseLatin testId [a; b])
    as (Hfp & _ & _ & Hpaths & Hfirst).
  assert (Hkey : fileKey a = fileKey b) by reflexivity.
  assert (Hcopies : firstCopies [a; b] [] = [a]) by apply (Hfirst a b [] [] Hkey).
  split; [by apply Hfp|]. split; [exact Hcopies|].
  unfold scan. rewrite Hpaths, Hcopies. reflexivity.
Defined.

(** A day folder under the days folder, without a bucket folder: the
    detection has confidence [high] and day 1, and the editable day
    stays [null]. *)
Lemma high_confidence_day_not_applied_counterexample :
  (fun p => (organizationConfidence p, detectedDay p, isPreOrganized p, day p))
    <$> scan [jpeg "01_DAYS/Day 1/IMG_0001.jpg" "IMG_0001.jpg" 1000 3]
  = [(high, Some 1, false, None)].
Proof. vm_compute. reflexivity. Qed.

Example organizedScan_detected :
  (fun p => (organizationConfidence p, day p, bucket p)) <$> organizedScan
  = [(high, Some 1, Some (str "A"))].
Proof. vm_compute. reflexivity. Qed.

Lemma buildPhotos_detection_acceptance_witness :
  exists photo entry,
    photo ∈ organizedScan /\
    filePath photo = Some (path entry) /\
    isPreOrganized photo = true /\
    day photo = Some 1 /\ bucket photo = Some (str "A").
Proof.
  destruct organizedScan as [|photo rest] eqn:E; [by vm_compute in E|].
  assert (Hin : photo ∈ organizedScan) by (rewrite E; by left).
  destruct (buildPhotos_detection_acceptance isoDateOnly toLowerCaseLatin testId _ _ Hin)
    as (entry & He & Hp & _).
  exists photo, entry. split; [by rewrite <- E|]. split; [exact Hp|].
  vm_compute in E. inv E. repeat split; vm_compute; reflexivity.
Defined.

(** A cached entry whose bucket is [null] does not clear the bucket the
    fresh scan detected. *)
Lemma cached_null_bucket_not_overlaid_counterexample :
  let cached := cachedEdit "01_DAYS/Day 1/A_Establishing/IMG_0001.jpg" None true false in
  Edit.bucket cached = None /\
  (fun p => (filePath p, bucket p, favorite p))
    <$> applyCachedEdits organizedScan [cached]
  = [(Edit.filePath cached, Some (str "A"), true)].
Proof. split; vm_compute; reflexivity. Qed.

Lemma applyCachedEdits_overlay_witness :
  let cached :=
    cachedEdit "01_DAYS/Day 1/A_Establishing/IMG_0001.jpg" (Some "B"%string) true false in
  exists fresh merged,
    organizedScan !! 0%nat = Some fresh /\
    bucket fresh = Some (str "A") /\
    applyCachedEdits organizedScan [cached] !! 0%nat = Some merged /\
    bucket merged = Some (str "B") /\ favorite merged = true /\
    thumbnail merged = thumbnail fresh /\ detectedBucket merged = Some (str "A").
Proof.
  intros cached.
  destruct (organizedScan !! 0%nat) as [fresh|] eqn:E; [|by vm_compute in E].
  assert (Hp : filePath fresh
               = Some (unit_of "0" :: str "1_DAYS/Day 1/A_Establishing/IMG_0001.jpg")).
  { vm_compute in E. inv E. vm_compute. reflexivity. }
  assert (Hc : editFor (unit_of "0" :: str "1_DAYS/Day 1/A_Establishing/IMG_0001.jpg")
                 [cached] = Some cached) by (vm_compute; reflexivity).
  destruct (applyCachedEdits_overlay organizedScan [cached] 0 fresh _ _ cached E Hp Hc)
    as (merged & Hm & _ & _ & Hfav & _ & _ & _ & _ & Hb & _ & _ & _ & _ & _
        & Hth & _ & _ & Hdb & _).
  exists fresh, merged. split; [done|].
  split; [vm_compute in E; inv E; vm_compute; reflexivity|].
  split; [exact Hm|]. split; [by apply Hb|]. split; [exact Hfav|].
  split; [exact Hth|]. rewrite Hdb. vm_compute in E. inv E. vm_compute. reflexivity.
Defined.

Lemma getState_fails_on_empty_scan_witness :
  (forall handle, handleDb emptyWorld !! projectId = Some handle -> files handle = []) /\
  exists e w',
    getState isoDateOnly toLowerCaseLatin testId projectId emptyWorld = (w', inl e) /\
    localStorage w' = localStorage emptyWorld.
Proof.
  assert (H : forall handle,
             handleDb emptyWorld !! projectId = Some handle -> files handle = []).
  { intros handle Hh. vm_compute in Hh. by inv Hh. }
  split; [exact H|].
  destruct (getState_fails_on_empty_scan isoDateOnly toLowerCaseLatin testId
              projectId emptyWorld H) as (e & w' & E & Hls & _).
  by exists e, w'.
Defined.

Example getState_empty_scan_error :
  snd (getState isoDateOnly toLowerCaseLatin testId projectId emptyWorld)
  = inl FolderNoLongerAvailable.
Proof. vm_compute. reflexivity. Qed.

End ReconcilerFacts.

(** ** The grouped views, evaluated *)

Module ScenarioFacts.
Import Ordering Scenarios.

Example separates_videos_when_requested :
  idsOf (sortPhotos lexCompare
           [media "v1" 1000 "video/mp4"; media "p1" 1001 "image/jpeg";
            media "v2" 1002 "video/mp4"; media "p2" 1003 "image/jpeg"]
           {| groupBy := None; separateVideos := true; selectedDay := None;
              getSubfolderGroup := None; isVideo := Some isVideoMime |})
  = [str "p1"; str "p2"; str "v1"; str "v2"].
Proof. vm_compute. reflexivity. Qed.

Example groups_by_subfolder :
  let result :=
    sortPhotos lexCompare
      [createPhoto "a" 1003 (Some "01_DAYS/Day 01/subfolder/a.jpg"%string) "test.jpg" None;
       createPhoto "b" 1001 (Some "01_DAYS/Day 01/b.jpg"%string) "test.jpg" None;
       createPhoto "c" 1002 (Some "01_DAYS/Day 01/subfolder/c.jpg"%string) "test.jpg" None]
      {| groupBy := Some subfolder; separateVideos := false; selectedDay := Some 1;
         getSubfolderGroup := Some subfolderOf; isVideo := None |} in
  idsOf result = [str "b"; str "c"; str "a"] /\
  (fun g => (label g, startIndex g)) <$> default [] (groups result)
  = [(str "Day Root", 0); (str "subfolder", 1)].
Proof. split; vm_compute; reflexivity. Qed.

Example groups_by_bucket_and_day :
  let ps := [createPhoto "a" 1000 None "test.jpg" None;
             createPhoto "b" 1001 None "test.jpg" (Some "X"%string);
             createPhoto "c" 1002 None "test.jpg" (Some "A"%string)] in
  idsOf (sortPhotos lexCompare ps
           {| groupBy := Some bucketGroup; separateVideos := false;
              selectedDay := None; getSubfolderGroup := None; isVideo := None |})
  = [str "c"; str "b"; str "a"].
Proof. vm_compute. reflexivity. Qed.

End ScenarioFacts.

(** ** The grouped views: what they show and in which order *)

Module GroupingFacts.
Import Ordering OrderingFacts Views.

Section Grouped.
Context {K : Type} `{EqDecision K}.
Variable key : ProjectPhoto -> K.
Variable emit : list ProjectPhoto -> list ProjectPhoto.
Hypothesis emit_perm : forall g, emit g ≡ₚ g.

Local Abbreviation grouped keys l :=
  (flat_map (fun k => emit (filter (fun p => key p = k) l)) keys).

Lemma grouped_perm (keys : list K) (l : list ProjectPhoto) :
  NoDup keys ->
  grouped keys l ≡ₚ filter (fun p => key p ∈ keys) l.
Proof.
  induction 1 as [|k keys Hk Hkeys IH]; simpl.
  - induction l as [|p l IHl]; [done|]. rewrite filter_cons.
    destruct (decide _) as [Hin|]; [by inv Hin|done].
  - rewrite IH, emit_perm. clear IH.
    induction l as [|p l IHl]; [done|].
    rewrite !filter_cons.
    destruct (decide (key p = k)) as [E|NE].
    + assert (key p ∉ keys) as Hout by (by rewrite E).
      assert (key p ∈ k :: keys) as Hin by (rewrite E; left).
      rewrite (decide_False (P := key p ∈ keys)) by done.
      rewrite (decide_True (P := key p ∈ k :: keys)) by done.
      simpl. by rewrite IHl.
    + destruct (decide (key p ∈ keys)) as [Hin|Hout].
      * rewrite (decide_True (P := key p ∈ k :: keys)) by (by right).
        rewrite <- Permutation_middle. by rewrite IHl.
      * rewrite (decide_False (P := key p ∈ k :: keys)); [done|].
        intros Hin. by inv Hin.
Qed.

Lemma grouped_elem (keys : list K) (l : list ProjectPhoto) p :
  p ∈ grouped keys l -> p ∈ l /\ key p ∈ keys.
Proof.
  intros Hp. apply list_elem_of_In, in_flat_map in Hp as (k & Hk & Hp).
  apply list_elem_of_In in Hk, Hp. rewrite emit_perm in Hp.
  apply list_elem_of_filter in Hp as [E Hp]. by rewrite E.
Qed.

Lemma filter_filter_ne (l : list ProjectPhoto) k k' :
  k <> k' -> filter (fun p => key p = k) (filter (fun p => key p = k') l) = [].
Proof.
  intros Hne. induction l as [|p l IH]; [done|].
  rewrite filter_cons. case_decide as E; [|done].
  rewrite filter_cons, decide_False; [done|]. congruence.
Qed.

Lemma filter_filter_same (l : list ProjectPhoto) k :
  filter (fun p => key p = k) (filter (fun p => key p = k) l)
  = filter (fun p => key p = k) l.
Proof.
  induction l as [|p l IH]; [done|].
  rewrite filter_cons. case_decide as E; [|done].
  rewrite filter_cons, decide_True by done. by rewrite IH.
Qed.

Lemma grouped_Sorted (R : K -> K -> Prop) (keys : list K)
    (l : list ProjectPhoto) :
  (forall k, R k k) -> StronglySorted R keys ->
  StronglySorted (fun p q => R (key p) (key q)) (grouped keys l).
Proof.
  intros Hrefl. induction 1 as [|k keys Hkeys IH Hk]; simpl; [constructor|].
  apply StronglySorted_app_2; [| |exact IH].
  - intros p q Hp Hq. rewrite emit_perm in Hp.
    apply list_elem_of_filter in Hp as [-> _].
    apply grouped_elem in Hq as [_ Hq].
    rewrite Forall_forall in Hk. by apply Hk.
  - assert (Forall (fun p => key p = k) (emit (filter (fun p => key p = k) l))) as Hall.
    { rewrite emit_perm. apply Forall_forall. intros p Hp.
      by apply list_elem_of_filter in Hp as [? _]. }
    induction Hall as [|p g Hp Hall IHg]; constructor; [done|].
    eapply Forall_impl; [exact Hall|]. simpl. intros q ->. rewrite Hp. apply Hrefl.
Qed.

(** The photos of one key stand together, as [emit] left them. *)
Lemma grouped_filter (keys : list K) (l : list ProjectPhoto) k :
  (forall g, filter (fun p => key p = k) (emit g) = emit (filter (fun p => key p = k) g)) ->
  emit [] = [] ->
  NoDup keys -> k ∈ keys ->
  filter (fun p => key p = k) (grouped keys l) = emit (filter (fun p => key p = k) l).
Proof.
  intros Hcomm Hnil.
  assert (Hout : forall keys, k ∉ keys -> filter (fun p => key p = k) (grouped keys l) = []).
  { clear keys. intros keys. induction keys as [|k' keys IH]; simpl; intros Hk; [done|].
    apply not_elem_of_cons in Hk as [Hne Hk].
    rewrite filter_app, IH, app_nil_r, Hcomm by done.
    by rewrite filter_filter_ne, Hnil. }
  induction 1 as [|k' keys Hk' Hkeys IH]; intros Hk; [by inv Hk|]. simpl.
  rewrite filter_app, Hcomm.
  destruct (decide (k = k')) as [<-|Hne].
  - rewrite Hout, app_nil_r by done. by rewrite filter_filter_same.
  - rewrite filter_filter_ne, Hnil by done. simpl. apply IH.
    by inv Hk.
Qed.

End Grouped.


Lemma mapKeys_elem {K} `{EqDecision K} (ks seen : list K) k :
  k ∈ mapKeys ks seen <-> k ∈ ks /\ k ∉ seen.
Proof.
  revert seen. induction ks as [|k' ks IH]; intros seen; simpl.
  - split; [by inversion 1|]. by intros [? _].
  - case_decide as Hk'.
    + rewrite IH, elem_of_cons. split.
      * intros [Hin Hout]. split; [by right|exact Hout].
      * intros [[->|Hin] Hout]; done.
    + rewrite elem_of_cons, IH, not_elem_of_cons, elem_of_cons. split.
      * intros [->|[Hin [Hne Hout]]]; [split; [by left|exact Hk']|].
        split; [by right|exact Hout].
      * intros [[->|Hin] Hout]; [by left|].
        destruct (decide (k = k')) as [->|Hne]; [by left|by right].
Qed.

Lemma filter_all_keys {K} `{EqDecision K} (key : ProjectPhoto -> K)
    (keys : list K) (l : list ProjectPhoto) :
  (forall p, p ∈ l -> key p ∈ keys) -> filter (fun p => key p ∈ keys) l = l.
Proof.
  induction l as [|p l IH]; intros Hall; [done|].
  rewrite filter_cons, decide_True by (apply Hall; left).
  rewrite IH; [done|]. intros q Hq. apply Hall. by right.
Qed.

Lemma filter_none {A} (P : A -> Prop) `{!forall x, Decision (P x)} (l : list A) :
  (forall x, x ∈ l -> ~ P x) -> filter P l = [].
Proof.
  induction l as [|x l IH]; intros Hall; [done|].
  rewrite filter_cons, decide_False by (apply Hall; left).
  apply IH. intros y Hy. apply Hall. by right.
Qed.

Lemma emitGroup_filter {K} `{EqDecision K} (key : ProjectPhoto -> K) sep v k g :
  filter (fun p => key p = k) (emitGroup sep v g)
  = emitGroup sep v (filter (fun p => key p = k) g).
Proof.
  unfold emitGroup. destruct sep, v as [v|]; try done.
  rewrite filter_app. f_equal; rewrite !list_filter_filter; apply list_filter_iff; tauto.
Qed.


(** *** No photo lost, none shown twice *)

(** Whatever the comparator does, insertion by [compareFn] yields a list
    sorted by a relation the comparator decides. *)
Lemma Array_sort_Sorted_by {A} (compareFn : A -> A -> Z) (R : A -> A -> Prop) l :
  (forall x y, compareFn x y <= 0 -> R x y) ->
  (forall x y, 0 < compareFn x y -> R y x) ->
  Sorted R (Array_sort compareFn l).
Proof.
  intros Hle Hgt. induction l as [|x l IH]; simpl; [constructor|].
  induction IH as [|y l' Hl' IH' Hy]; simpl; [repeat constructor|].
  destruct (Z.leb_spec (compareFn x y) 0) as [H|H].
  - repeat constructor; [done..|]. by apply Hle.
  - constructor; [exact IH'|].
    destruct Hy as [|z l'' Hz]; simpl.
    + constructor. by apply Hgt.
    + destruct (compareFn x z <=? 0); constructor; [by apply Hgt|done].
Qed.

#[local] Instance dayLe_refl : Reflexive dayLe.
Proof. intros [x|]; simpl; [lia|done]. Qed.

#[local] Instance dayLe_trans : Transitive dayLe.
Proof. intros [x|] [y|] [z|]; simpl; try done; lia. Qed.

Lemma sortedDays_Sorted (ks : list (option Z)) :
  StronglySorted dayLe (Array_sort compareDays ks).
Proof.
  apply Sorted_StronglySorted; [apply _|].
  apply Array_sort_Sorted_by.
  - intros [x|] [y|]; simpl; try done; lia.
  - intros [x|] [y|]; simpl; try done; lia.
Qed.

Section ViewFacts.
Variable localeCompare : jsstring -> jsstring -> Z.
Variable ps : list ProjectPhoto.
Variable options : SortOptions.
Local Abbreviation sorted := (Array_sort (comparePhotos localeCompare) ps).
Local Abbreviation emit := (emitGroup (separateVideos options) (isVideo options)).
Local Abbreviation r := (sortPhotos localeCompare ps options).

Lemma sorted_keys {K} `{EqDecision K} (key : ProjectPhoto -> K)
    (compareFn : K -> K -> Z) p :
  p ∈ sorted -> key p ∈ Array_sort compareFn (mapKeys (map key sorted) []).
Proof.
  intros Hp. rewrite Array_sort_perm. apply mapKeys_elem. split; [|by inversion 1].
  by apply (list_elem_of_fmap_2 key).
Qed.

Lemma sortedKeys_NoDup {K} `{EqDecision K} (compareFn : K -> K -> Z) (ks : list K) :
  NoDup (Array_sort compareFn (mapKeys ks [])).
Proof. rewrite Array_sort_perm. apply mapKeys_NoDup. Qed.

(** X1: outside the bucket view, the display sequence is the given photos,
    rearranged. *)
Theorem sortPhotos_keeps_every_photo :
  groupBy options <> Some bucketGroup ->
  photos (sortPhotos localeCompare ps options) ≡ₚ ps.
Proof.
  intros Hg. unfold sortPhotos, groupBySubfolder, groupByDay, buildIndexMap.
  pose proof (emitGroup_perm (separateVideos options) (isVideo options)) as Hemit.
  destruct (groupBy options) as [[| |]|]; [|done| |].
  - destruct (selectedDay options) as [d|], (getSubfolderGroup options) as [g|];
      cbn [photos]; try (by rewrite Hemit, Array_sort_perm).
    rewrite pushGroups_photos, flat_map_map. cbn [app snd].
    rewrite (grouped_perm (fun p => g p (Some d))) by (done || apply sortedKeys_NoDup).
    rewrite filter_all_keys by (intros p; apply (sorted_keys (fun p => g p (Some d)))).
    apply Array_sort_perm.
  - cbn [photos].
    rewrite (grouped_perm day) by (done || apply sortedKeys_NoDup).
    rewrite filter_all_keys by (intros p; apply (sorted_keys day)).
    apply Array_sort_perm.
  - cbn [photos]. by rewrite Hemit, Array_sort_perm.
Qed.


(** *** The bucket view *)

Lemma bucketOrder_NoDup : NoDup bucketOrder.
Proof. apply (bool_decide_unpack _). vm_compute. exact I. Qed.

Lemma bucketOrder_Sorted :
  StronglySorted (fun a b => (rankIn a bucketOrder <= rankIn b bucketOrder)%nat)
    bucketOrder.
Proof. apply (bool_decide_unpack _). vm_compute. exact I. Qed.

(** X2: in the bucket view the display sequence holds the photos whose
    bucket is one of [A], [B], [C], [D], [E], [M], [X] or none, and only
    those: a photo with any other bucket is shown nowhere. The buckets
    follow each other in that order, and inside a bucket the photos keep
    the base order (stills before videos when asked for). *)
Theorem sortPhotos_bucket_view :
  groupBy options = Some bucketGroup ->
  photos (sortPhotos localeCompare ps options)
  ≡ₚ filter (fun p => bucketKey p ∈ bucketOrder) ps /\
  (forall p, p ∈ photos (sortPhotos localeCompare ps options)
             <-> p ∈ ps /\ bucketKey p ∈ bucketOrder) /\
  StronglySorted (fun p q => (bucketRank p <= bucketRank q)%nat)
    (photos (sortPhotos localeCompare ps options)) /\
  (forall b, b ∈ bucketOrder ->
     filter (fun p => bucketKey p = b) (photos (sortPhotos localeCompare ps options))
     = emit (filter (fun p => bucketKey p = b) sorted)).
Proof.
  intros Hg. unfold sortPhotos, groupByBucket, buildIndexMap. rewrite Hg.
  pose proof (emitGroup_perm (separateVideos options) (isVideo options)) as Hemit.
  assert (Hperm :
    flat_map (fun b => emit (filter (fun p => bucketKey p = b) sorted)) bucketOrder
    ≡ₚ filter (fun p => bucketKey p ∈ bucketOrder) ps).
  { rewrite (grouped_perm bucketKey) by (done || apply bucketOrder_NoDup).
    by rewrite Array_sort_perm. }
  destruct (selectedDay options), (getSubfolderGroup options); cbn [photos].
  all: (split; [exact Hperm|]).
  all: (split; [intros p; rewrite Hperm; rewrite list_elem_of_filter; tauto|]).
  all: (split;
    [apply (grouped_Sorted bucketKey _ Hemit
              (fun a b => (rankIn a bucketOrder <= rankIn b bucketOrder)%nat));
       [done|apply bucketOrder_Sorted]|]).
  all: intros b Hb; apply (grouped_filter bucketKey);
    [intros; apply emitGroup_filter|by destruct (separateVideos options), (isVideo options)
    |apply bucketOrder_NoDup|done].
Qed.

(** *** The day view *)

(** X3: in the day view the days ascend and the photos without a day come
    last; the photos of one day stand together in the base order (stills
    before videos when asked for). *)
Theorem sortPhotos_day_view :
  groupBy options = Some dayGroup ->
  StronglySorted (fun p q => dayLe (day p) (day q))
    (photos (sortPhotos localeCompare ps options)) /\
  (forall d, filter (fun p => day p = d) (photos (sortPhotos localeCompare ps options))
             = emit (filter (fun p => day p = d) sorted)).
Proof.
  intros Hg. unfold sortPhotos, groupByDay, buildIndexMap. rewrite Hg.
  pose proof (emitGroup_perm (separateVideos options) (isVideo options)) as Hemit.
  assert (Hnil : emit [] = []).
  { by destruct (separateVideos options), (isVideo options). }
  destruct (selectedDay options), (getSubfolderGroup options); cbn [photos].
  all: (split;
    [apply (grouped_Sorted day _ Hemit dayLe); [apply dayLe_refl|apply sortedDays_Sorted]|]).
  all: intros d;
    destruct (decide (d ∈ Array_sort compareDays (mapKeys (map day sorted) [])))
      as [Hd|Hd];
    [apply (grouped_filter day);
       [intros; apply emitGroup_filter|done|apply sortedKeys_NoDup|done]|].
  all: assert (filter (fun p => day p = d) sorted = []) as ->
    by (apply filter_none; intros p Hp E; apply Hd; rewrite <- E;
        by apply (sorted_keys day)).
  all: rewrite Hnil; apply filter_none; intros p Hp E;
    apply (grouped_elem day) in Hp as [_ Hp]; [|done]; apply Hd; by rewrite <- E.
Qed.


(** *** The subfolder view *)

Lemma pushGroups_groups separate isVid gs ordered (i : nat) x :
  snd (pushGroups separate isVid gs ordered) !! i = Some x ->
  exists l g, gs !! i = Some (l, g) /\ label x = l /\ groupPhotos x = g /\
    startIndex x = Z.of_nat (length ordered + length (flat_map snd (take i gs))).
Proof.
  revert ordered i. induction gs as [|[l g] gs IH]; intros ordered i; simpl; [done|].
  destruct i as [|i]; simpl.
  - intros [= <-]. exists l, g. simpl. repeat split; try done. f_equal. lia.
  - intros Hx. apply IH in Hx as (l' & g' & Hi & Hl & Hg & Hs).
    exists l', g'. repeat split; try done. rewrite Hs. f_equal.
    rewrite !length_app. rewrite (Permutation_length (emitGroup_perm separate isVid g)).
    lia.
Qed.

Lemma pushGroups_length separate isVid gs ordered :
  length (snd (pushGroups separate isVid gs ordered)) = length gs.
Proof.
  revert ordered. induction gs as [|[l g] gs IH]; intros ordered; simpl; [done|].
  by rewrite IH.
Qed.

(** Insertion by [compareLabels] keeps the day root in front. *)
Lemma dayRoot_first (labels : list jsstring) :
  str "Day Root" ∈ labels ->
  head (Array_sort (compareLabels localeCompare) labels) = Some (str "Day Root").
Proof.
  induction labels as [|a labels IH]; intros Hin; [by inv Hin|].
  cbn [Array_sort].
  destruct (decide (a = str "Day Root")) as [->|Hne].
  - destruct (Array_sort _ labels) as [|y l']; cbn [sort_insert]; [done|].
    unfold compareLabels. by rewrite decide_True.
  - assert (str "Day Root" ∈ labels) as Hin' by (by inv Hin).
    specialize (IH Hin').
    destruct (Array_sort _ labels) as [|y l']; [done|]. cbn [head] in IH. inv IH.
    cbn [sort_insert]. unfold compareLabels. rewrite decide_False by done.
    by rewrite decide_True.
Qed.

(** X4: in the subfolder view every label names one group; a group holds
    the photos of its label in the base order, it is never empty, its
    [startIndex] is the number of photos displayed before it, and the
    display sequence shows it from there on (stills before videos when
    asked for). The group of the day root, when there is one, comes
    first. *)
Theorem sortPhotos_subfolder_groups (selDay : Z)
    (getGroup : ProjectPhoto -> option Z -> jsstring) :
  groupBy options = Some subfolder -> selectedDay options = Some selDay ->
  getSubfolderGroup options = Some getGroup ->
  exists gs, groups (sortPhotos localeCompare ps options) = Some gs /\
    NoDup (label <$> gs) /\
    (forall p, p ∈ ps -> getGroup p (Some selDay) ∈ label <$> gs) /\
    (forall (i : nat) x, gs !! i = Some x ->
       groupPhotos x = filter (fun p => getGroup p (Some selDay) = label x) sorted /\
       groupPhotos x <> [] /\
       startIndex x = Z.of_nat (length (flat_map groupPhotos (take i gs))) /\
       take (length (groupPhotos x))
            (drop (Z.to_nat (startIndex x)) (photos (sortPhotos localeCompare ps options)))
       = emit (groupPhotos x)) /\
    ((exists p, p ∈ ps /\ getGroup p (Some selDay) = str "Day Root") ->
     label <$> head gs = Some (str "Day Root")).
Proof.
  intros Hg Hd Hf. unfold sortPhotos, groupBySubfolder. rewrite Hg, Hd, Hf.
  cbn [groups photos].
  set (labelOf := fun p => getGroup p (Some selDay)).
  set (labels := Array_sort (compareLabels localeCompare) (mapKeys (map labelOf sorted) [])).
  set (sortedGroups := map (fun l => (l, filter (fun p => labelOf p = l) sorted)) labels).
  exists (snd (pushGroups (separateVideos options) (isVideo options) sortedGroups [])).
  split; [reflexivity|].
  assert (Hlabels : label <$> snd (pushGroups (separateVideos options) (isVideo options)
                                     sortedGroups []) = labels).
  { apply list_eq. intros i. rewrite list_lookup_fmap.
    destruct (snd (pushGroups _ _ sortedGroups []) !! i) as [x|] eqn:Hx; simpl.
    - apply pushGroups_groups in Hx as (l & g & Hi & Hl & _).
      unfold sortedGroups in Hi. rewrite list_lookup_fmap in Hi.
      destruct (labels !! i) as [l'|]; [|done]. simpl in Hi. by inv Hi.
    - apply lookup_ge_None in Hx. rewrite pushGroups_length in Hx.
      unfold sortedGroups in Hx. rewrite length_map in Hx.
      symmetry. by apply lookup_ge_None. }
  rewrite Hlabels.
  split; [apply sortedKeys_NoDup|].
  split.
  { intros p Hp. apply (sorted_keys labelOf). by rewrite Array_sort_perm. }
  split.
  - intros i x Hx. pose proof Hx as Hx'.
    apply pushGroups_groups in Hx as (l & g & Hi & Hl & Hgp & Hs).
    unfold sortedGroups in Hi. rewrite list_lookup_fmap in Hi.
    destruct (labels !! i) as [l'|] eqn:Hl'; [|done]. simpl in Hi.
    injection Hi as El Eg. rewrite <- El in Hl. rewrite <- Eg in Hgp. clear El Eg l g.
    rewrite <- Hl in Hgp.
    split; [exact Hgp|].
    split.
    { rewrite Hgp, Hl. apply list_elem_of_lookup_2 in Hl'.
      unfold labels in Hl'. rewrite Array_sort_perm in Hl'.
      apply mapKeys_elem in Hl' as [Hl' _].
      apply list_elem_of_fmap in Hl' as (p & E & Hp).
      intros Hnil. eapply (filter_nil_not_elem_of _ _ p); [exact Hnil|done|done]. }
    assert (Hflat : forall n,
      flat_map groupPhotos (take n (snd (pushGroups (separateVideos options)
                                            (isVideo options) sortedGroups [])))
      = flat_map snd (take n sortedGroups)).
    { clear. generalize (@nil ProjectPhoto). generalize sortedGroups.
      intros gs. induction gs as [|[l g] gs IH]; intros ordered [|n]; simpl; try done.
      by rewrite IH. }
    split; [by rewrite Hs, Hflat|].
    rewrite Hs, Nat2Z.id, pushGroups_photos. cbn [app length Nat.add].
    change (map _ labels) with sortedGroups.
    rewrite <- (take_drop_middle sortedGroups i (label x, groupPhotos x)) at 2.
    2:{ unfold sortedGroups. by rewrite list_lookup_fmap, Hl', Hgp, Hl. }
    rewrite flat_map_app. simpl.
    assert (length (flat_map snd (take i sortedGroups))
            = length (flat_map (fun lg => emit lg.2) (take i sortedGroups))) as ->.
    { generalize (take i sortedGroups). intros gs.
      induction gs as [|[l g] gs IH]; simpl; [done|].
      rewrite !length_app, IH.
      by rewrite (Permutation_length (emitGroup_perm _ _ g)). }
    rewrite drop_app_length.
    rewrite <- (Permutation_length (emitGroup_perm (separateVideos options)
                                     (isVideo options) (groupPhotos x))).
    by rewrite take_app_length.
  - intros (p & Hp & E).
    assert (head labels = Some (str "Day Root")) as Hhead.
    { apply dayRoot_first, mapKeys_elem. split; [|by inversion 1].
      rewrite <- E. apply (list_elem_of_fmap_2 labelOf). by rewrite Array_sort_perm. }
    rewrite <- Hlabels in Hhead.
    by destruct (snd (pushGroups _ _ sortedGroups [])).
Qed.


(** *** The index map *)

Lemma setIndices_last (l : list ProjectPhoto) i0 m (j : nat) k :
  (id <$> l) !! j = Some k -> k ∉ drop (S j) (id <$> l) ->
  setIndices l i0 m !! k = Some (i0 + Z.of_nat j).
Proof.
  revert i0 m j. induction l as [|q l IH]; intros i0 m j Hj Hlast; [done|].
  cbn [setIndices]. destruct j as [|j]; simpl in Hj, Hlast.
  - injection Hj as <-. rewrite setIndices_notin by done.
    rewrite lookup_insert_eq. f_equal. lia.
  - rewrite (IH _ _ j) by done. f_equal. lia.
Qed.

Lemma sortPhotos_indexMap : indexMap r = indexMapOf (photos r).
Proof.
  unfold sortPhotos, groupBySubfolder, groupByBucket, groupByDay, buildIndexMap.
  by destruct (groupBy options) as [[| |]|], (selectedDay options),
    (getSubfolderGroup options).
Qed.

(** X5: for every result of [sortPhotos], [getPhotoIndex] of an id is the
    position of the last photo of the display sequence with that id (the
    position of the photo, when ids are distinct), and [-1] exactly for
    an id the sequence does not show. *)
Theorem getPhotoIndex_position (k : jsstring) :
  let ids := id <$> photos (sortPhotos localeCompare ps options) in
  (k ∉ ids <-> getPhotoIndex k (indexMap (sortPhotos localeCompare ps options)) = -1) /\
  (forall j : nat,
     ids !! j = Some k -> k ∉ drop (S j) ids ->
     getPhotoIndex k (indexMap (sortPhotos localeCompare ps options)) = Z.of_nat j) /\
  (forall (j : nat) p,
     NoDup (id <$> ps) -> photos (sortPhotos localeCompare ps options) !! j = Some p ->
     getPhotoIndex (id p) (indexMap (sortPhotos localeCompare ps options)) = Z.of_nat j).
Proof.
  intros ids. rewrite sortPhotos_indexMap. unfold getPhotoIndex, indexMapOf.
  assert (Hlast : forall j : nat, ids !! j = Some k -> k ∉ drop (S j) ids ->
            default (-1) (setIndices (photos r) 0 ∅ !! k) = Z.of_nat j).
  { intros j Hj Hl. by rewrite (setIndices_last _ _ _ j). }
  split; [split|split; [exact Hlast|]].
  - intros Hk. by rewrite setIndices_notin.
  - intros Hm Hk.
    assert (exists j : nat, ids !! j = Some k /\ k ∉ drop (S j) ids) as (j & Hj & Hl).
    { clear -Hk. induction ids as [|a l IH]; [by inv Hk|].
      destruct (decide (k ∈ l)) as [Hin|Hout].
      - destruct (IH Hin) as (j & Hj & Hl). by exists (S j).
      - exists 0%nat. inv Hk; done. }
    rewrite (Hlast j Hj Hl) in Hm. lia.
  - intros j p Hnd Hp.
    destruct (sortPhotos_wellFormed localeCompare ps options Hnd) as [_ Hnd'].
    pose proof (indexMapOf_lookup _ _ _ Hnd' Hp) as E.
    unfold indexMapOf in E. fold r in E. by rewrite E.
Qed.

End ViewFacts.

Lemma sortPhotos_keeps_every_photo_witness :
  groupBy noOptions <> Some bucketGroup /\
  photos (sortPhotos lexCompare viewerPhotos noOptions) ≡ₚ viewerPhotos.
Proof.
  assert (H : groupBy noOptions <> Some bucketGroup) by discriminate.
  split; [exact H|].
  exact (sortPhotos_keeps_every_photo lexCompare viewerPhotos noOptions H).
Defined.

Lemma sortPhotos_bucket_view_witness :
  groupBy (viewOptions bucketGroup) = Some bucketGroup /\
  photos (sortPhotos lexCompare viewerPhotos (viewOptions bucketGroup))
  ≡ₚ filter (fun p => bucketKey p ∈ bucketOrder) viewerPhotos.
Proof.
  split; [reflexivity|].
  exact (proj1 (sortPhotos_bucket_view lexCompare viewerPhotos (viewOptions bucketGroup)
                  eq_refl)).
Defined.

Lemma sortPhotos_day_view_witness :
  groupBy (viewOptions dayGroup) = Some dayGroup /\
  StronglySorted (fun p q => dayLe (day p) (day q))
    (photos (sortPhotos lexCompare viewerPhotos (viewOptions dayGroup))).
Proof.
  split; [reflexivity|].
  exact (proj1 (sortPhotos_day_view lexCompare viewerPhotos (viewOptions dayGroup)
                  eq_refl)).
Defined.

Lemma sortPhotos_subfolder_groups_witness :
  groupBy (viewOptions subfolder) = Some subfolder /\
  selectedDay (viewOptions subfolder) = Some 1 /\
  getSubfolderGroup (viewOptions subfolder) = Some Scenarios.subfolderOf /\
  exists gs,
    groups (sortPhotos lexCompare viewerPhotos (viewOptions subfolder)) = Some gs /\
    NoDup (label <$> gs).
Proof.
  split; [reflexivity|]. split; [reflexivity|]. split; [reflexivity|].
  destruct (sortPhotos_subfolder_groups lexCompare viewerPhotos (viewOptions subfolder)
              1 Scenarios.subfolderOf eq_refl eq_refl eq_refl)
    as (gs & Hgroups & Hlabels & _).
  exists gs. split; [exact Hgroups|exact Hlabels].
Defined.

End GroupingFacts.

(** ** The detector: the shape of every result *)

Module AnalysisFacts.
Import RegExp RegExpFacts Detector DetectorFacts Reconciler ReconcilerFacts Analysis.

Section Day.
Variable Date_parse : jsstring -> option Z.

Lemma calculateDayFromDate_same dateStr d :
  calculateDayFromDate Date_parse dateStr None = Some d -> d = 1.
Proof.
  unfold calculateDayFromDate. destruct (Date_parse dateStr) as [t|]; [|done].
  intros [= <-]. by rewrite Z.sub_diag.
Qed.

Lemma extractDay_cases (folderName : jsstring) (tripStart : option jsstring)
    (r : DayDetection) :
  extractDayFromFolderName Date_parse folderName tripStart = Some r ->
  (dayPattern r = str "day_prefix" /\ dayConfidence r = high /\ 1 <= detDay r <= 31) \/
  (dayPattern r = str "iso_date" /\
   dayConfidence r = (if truthy tripStart then high else medium) /\
   (truthy tripStart = false -> detDay r = 1)) \/
  (dayPattern r = str "numeric_prefix" /\ dayConfidence r = medium /\
   1 <= detDay r <= 31).
Proof.
  intros E.
  assert (Hiso : forall pattern x, isoResult Date_parse pattern folderName tripStart = Some x ->
            dayPattern x = str "iso_date" /\
            dayConfidence x = (if truthy tripStart then high else medium) /\
            (truthy tripStart = false -> detDay x = 1)).
  { intros pattern x Hx. unfold isoResult in Hx.
    destruct (exec pattern folderName) as [m|]; [|done].
    destruct (calculateDayFromDate _ _ _) as [d|] eqn:Hd; [|done].
    injection Hx as <-. cbn. repeat split; try done.
    intros Ht. destruct tripStart as [[|c s]|]; try done;
      by apply calculateDayFromDate_same in Hd. }
  pattern r. eapply firstOf_Some; [exact E|].
  repeat first [apply Forall_nil_2 | apply Forall_cons_2]; intros x Hx.
  - left. unfold dayPrefixResult in Hx.
    destruct (exec _ _) as [m|]; [|done].
    destruct (_ && _) eqn:Hr; [|done]. injection Hx as <-. cbn.
    apply andb_true_iff in Hr as [?%Z.leb_le ?%Z.leb_le]. done.
  - right; left. by apply (Hiso ISO_DATE_PATTERN).
  - right; left. by apply (Hiso ISO_DATE_PATTERN_UNDERSCORES).
  - right; right. unfold numericPrefixResult in Hx.
    destruct (exec _ _) as [m|]; [|done].
    destruct (_ && _) eqn:Hr; [|done]. injection Hx as <-. cbn.
    apply andb_true_iff in Hr as [?%Z.leb_le ?%Z.leb_le]. done.
Qed.

(** X6: what a day extraction returns. A day read off a day prefix or a
    numeric prefix lies in 1..31, with confidence [high] for the former
    and [medium] for the latter; a day computed from an ISO date has
    confidence [high] with a trip start and [medium] without one, and
    without a trip start it is always day 1. *)
Theorem extractDay_result (folderName : jsstring) (tripStart : option jsstring)
    (r : DayDetection) :
  extractDayFromFolderName Date_parse folderName tripStart = Some r ->
  (dayPattern r = str "day_prefix" /\ dayConfidence r = high /\ 1 <= detDay r <= 31) \/
  (dayPattern r = str "iso_date" /\
   dayConfidence r = (if truthy tripStart then high else medium) /\
   (truthy tripStart = false -> detDay r = 1)) \/
  (dayPattern r = str "numeric_prefix" /\ dayConfidence r = medium /\
   1 <= detDay r <= 31).
Proof. exact (extractDay_cases folderName tripStart r). Qed.

End Day.


(** *** The bucket a folder name yields *)

Lemma exec_afterLetter_inv r (name : jsstring) caps :
  1%nat ∉ groupsOf r ->
  exec (afterLetter r) name = Some caps ->
  exists l rest, name = l :: rest /\ bucketLetterClass l = true /\ group 1 caps = [l].
Proof.
  intros Hg E. destruct name as [|l rest].
  - unfold afterLetter in E. by rewrite exec_Bol in E.
  - rewrite exec_afterLetter in E. destruct (bucketLetterClass l) eqn:Hl; [|done].
    exists l, rest. repeat split; try done.
    apply matchAt_result in E as (cur' & caps' & E' & Hc). injection E' as <-.
    unfold group. by rewrite Hc.
Qed.

Lemma bucketLetterClass_letter l :
  bucketLetterClass l = true -> classLetter (canonicalize l).
Proof.
  unfold bucketLetterClass, classLetter, inRangeN. intros H.
  apply orb_true_iff in H as [H|H].
  - apply andb_true_iff in H as [?%N.leb_le ?%N.leb_le]. by left.
  - apply N.eqb_eq in H. by right.
Qed.

Lemma lookupTable_elem key table v :
  lookupTable key table = Some v -> (key, v) ∈ table.
Proof.
  induction table as [|[k x] table IH]; simpl; [done|].
  case_decide as E; [intros [= <-]; rewrite E; left|right; by apply IH].
Qed.

Lemma detectBucket_cases (folderName : jsstring) (r : BucketDetection) :
  detectBucketFromFolderName folderName = Some r ->
  exists c, detBucket r = [c] /\ classLetter c /\
    ((exists l rest, folderName = l :: rest /\ bucketLetterClass l = true /\
                     c = canonicalize l /\
        ((bucketPattern r = str "standard" /\ bucketConfidence r = high) \/
         (bucketPattern r = str "letter" /\ bucketConfidence r = high /\ rest = []) \/
         (bucketPattern r = str "custom" /\ bucketConfidence r = medium))) \/
     (bucketPattern r = str "numeric" /\ bucketConfidence r = low /\
      (folderName, [c]) ∈ NUMERIC_TO_BUCKET_MAP)).
Proof.
  intros E. destruct BUCKET_PATTERNS_eq as (Hstd & Hlet & Hcus).
  assert (Hletter : forall tail caps,
            1%nat ∉ groupsOf tail -> exec (afterLetter tail) folderName = Some caps ->
            exists l rest, folderName = l :: rest /\ bucketLetterClass l = true /\
                           toUpperCase (group 1 caps) = [canonicalize l]).
  { intros tail caps Hg Hx.
    apply exec_afterLetter_inv in Hx as (l & rest & ? & ? & ->); [|done].
    by exists l, rest. }
  pattern r. eapply firstOf_Some; [exact E|].
  repeat first [apply Forall_nil_2 | apply Forall_cons_2]; intros x Hx.
  - rewrite Hstd in Hx. destruct (exec _ _) as [caps|] eqn:Hc; [|done].
    injection Hx as <-. cbn.
    apply Hletter in Hc as (l & rest & -> & Hl & ->); [|by apply (bool_decide_unpack _)].
    exists (canonicalize l). split; [done|]. split; [by apply bucketLetterClass_letter|].
    left. exists l, rest. repeat split; try done. by left.
  - rewrite Hlet in Hx. destruct (exec _ _) as [caps|] eqn:Hc; [|done].
    injection Hx as <-. cbn. pose proof Hc as Hc'.
    apply Hletter in Hc as (l & rest & -> & Hl & ->); [|by apply (bool_decide_unpack _)].
    exists (canonicalize l). split; [done|]. split; [by apply bucketLetterClass_letter|].
    left. exists l, rest. repeat split; try done. right; left. repeat split; try done.
    rewrite exec_afterLetter, Hl in Hc'. by destruct rest.
  - rewrite Hcus in Hx. destruct (exec _ _) as [caps|] eqn:Hc; [|done].
    injection Hx as <-. cbn.
    apply Hletter in Hc as (l & rest & -> & Hl & ->); [|by apply (bool_decide_unpack _)].
    exists (canonicalize l). split; [done|]. split; [by apply bucketLetterClass_letter|].
    left. exists l, rest. repeat split; try done. by right; right.
  - destruct (exec BUCKET_NUMERIC_PATTERN folderName) as [caps|] eqn:Hc; [|done].
    destruct (lookupTable _ _) as [b|] eqn:Hb; [|done].
    injection Hx as <-. cbn.
    assert (group 1 caps = folderName) as Hg1.
    { change BUCKET_NUMERIC_PATTERN
        with (Seq Bol (Seq (Group 1 (Seq (Chr (chr (unit_of "0"))) (Chr (inRangeN 49 54))))
                           Eol)) in Hc.
      rewrite exec_Bol in Hc.
      destruct folderName as [|u1 [|u2 [|u3 rest]]]; cbn in Hc; try done.
      - by destruct (chr _ u1).
      - destruct (chr _ u1); [|done]. destruct (inRangeN 49 54 u2); [|done].
        by injection Hc as <-.
      - destruct (chr _ u1); [|done]. by destruct (inRangeN 49 54 u2). }
    rewrite Hg1 in Hb. apply lookupTable_elem in Hb.
    assert (exists c, b = [c] /\ classLetter c) as (c & -> & Hcl).
    { unfold NUMERIC_TO_BUCKET_MAP in Hb.
      repeat (apply elem_of_cons in Hb as [Hb|Hb];
              [injection Hb as _ ->; eexists; split; [reflexivity|left; vm_compute; by split]|]).
      by inv Hb. }
    exists c. repeat split; try done. by right.
Qed.

(** X7: the bucket of a folder name is always one capital letter of the
    class [[A-MX]]: the first unit of the name in upper case for the
    three letter patterns (then the name starts with a letter of the
    class, in either case), one of [A] to [E] and [M] for a legacy code.
    The confidence is [high] for the standard and the letter pattern,
    [medium] for the custom one and [low] for a legacy code. *)
Theorem detectBucket_result (folderName : jsstring) (r : BucketDetection) :
  detectBucketFromFolderName folderName = Some r ->
  exists c, detBucket r = [c] /\ classLetter c /\
    ((exists l rest, folderName = l :: rest /\ bucketLetterClass l = true /\
                     c = canonicalize l /\
        ((bucketPattern r = str "standard" /\ bucketConfidence r = high) \/
         (bucketPattern r = str "letter" /\ bucketConfidence r = high /\ rest = []) \/
         (bucketPattern r = str "custom" /\ bucketConfidence r = medium))) \/
     (bucketPattern r = str "numeric" /\ bucketConfidence r = low /\
      (folderName, [c]) ∈ NUMERIC_TO_BUCKET_MAP)).
Proof. exact (detectBucket_cases folderName r). Qed.


(** *** What the analysis of a path guarantees *)

Section Path.
Variable Date_parse : jsstring -> option Z.
Variable toLowerCase : jsstring -> jsstring.

Lemma extractDay_analysis segment dd :
  extractDayFromFolderName Date_parse segment None = Some dd ->
  1 <= detDay dd <= 31 /\ dayConfidence dd <> none.
Proof.
  intros E. apply extractDay_cases in E as [(_ & -> & ?)|[(_ & -> & H)|(_ & -> & ?)]];
    try done.
  rewrite H by done. done.
Qed.

Lemma detectBucket_analysis bucketFolder bd :
  detectBucketFromFolderName bucketFolder = Some bd ->
  (exists c, detBucket bd = [c] /\ classLetter c) /\ bucketConfidence bd <> none.
Proof.
  intros E. split; [|by apply detectBucket_confidence in E].
  apply detectBucket_cases in E as (c & ? & ? & _). by exists c.
Qed.

Lemma scanSegments_ok segments :
  detectionOk (scanSegments Date_parse segments) /\
  (scanSegments Date_parse segments).1.2 <> high.
Proof.
  induction segments as [|segment rest IH]; simpl; [done|].
  destruct (extractDayFromFolderName Date_parse segment None) as [dd|] eqn:Hd; [|done].
  apply extractDay_analysis in Hd as [Hrange _].
  assert (match dayConfidence dd with high => medium | _ => low end <> none
          /\ match dayConfidence dd with high => medium | _ => low end <> high)
    as [? ?] by (by destruct (dayConfidence dd)).
  destruct rest as [|bucketFolder rest']; [done|].
  destruct (detectBucketFromFolderName bucketFolder) as [bd|] eqn:Hb; [|done].
  apply detectBucket_analysis in Hb as [? ?]. done.
Qed.

Lemma findIndex_Some {A} (pred : A -> bool) (l : list A) i :
  findIndex pred l = Some i -> exists x, l !! i = Some x /\ pred x = true.
Proof.
  revert i. induction l as [|y l IH]; intros i; simpl; [done|].
  destruct (pred y) eqn:Hy.
  - intros [= <-]. by exists y.
  - destruct (findIndex pred l) as [j|]; [|done]. intros [= <-].
    by apply IH.
Qed.

Lemma analyzePathStructure_facts (filePath : jsstring)
    (optDaysFolder : option jsstring) :
  let a := analyzePathStructure Date_parse toLowerCase filePath optDaysFolder in
  (paDetectedDay a = None -> paDetectedBucket a = None) /\
  (forall d, paDetectedDay a = Some d -> 1 <= d <= 31) /\
  (forall b, paDetectedBucket a = Some b -> exists c, b = [c] /\ classLetter c) /\
  (paIsPreOrganized a = true <->
   is_Some (paDetectedDay a) /\ is_Some (paDetectedBucket a)) /\
  (paIsPreOrganized a = true -> paConfidence a = high \/ paConfidence a = medium) /\
  (paConfidence a = none <-> paDetectedDay a = None) /\
  (paConfidence a = high ->
   exists segment, segment ∈ pathSegments a /\
     isDaysFolder toLowerCase (str_or optDaysFolder (str "01_DAYS")) segment = true) /\
  pathSegments a = dropLast (pathParts filePath).
Proof.
  pose proof (analyzePathStructure_preOrganized Date_parse toLowerCase (fun _ => [])
                filePath optDaysFolder) as Hpre.
  cbv zeta in Hpre. revert Hpre.
  unfold analyzePathStructure.
  set (segs := dropLast (pathParts filePath)).
  set (pred := fun segment : jsstring => _).
  set (idx := findIndex pred segs).
  set (four := match idx with Some _ => _ | None => _ end).
  assert (Hfour : detectionOk four /\
            (four.1.2 = high -> exists segment, segment ∈ segs /\ pred segment = true)).
  { unfold four. destruct idx as [i|] eqn:Hidx.
    - destruct (i + 1 <? length segs)%nat.
      + split.
        * destruct (extractDayFromFolderName _ _ _) as [dd|] eqn:Hd; [|done].
          apply extractDay_analysis in Hd as [? ?].
          destruct (if (i + 2 <? length segs)%nat then _ else None) as [bd|] eqn:Hb;
            [|done].
          destruct (i + 2 <? length segs)%nat; [|done].
          by apply detectBucket_analysis in Hb as [? ?].
        * intros _. apply findIndex_Some in Hidx as (x & Hx & Hp).
          exists x. split; [by eapply list_elem_of_lookup_2|done].
      + destruct (scanSegments_ok segs) as [? ?]. done.
    - destruct (scanSegments_ok segs) as [? ?]. done. }
  destruct Hfour as [Hok Hhigh].
  destruct four as [[[[d|] [b|]] dc] bc]; cbn in *; intros Hpre.
  all: destruct Hok as [Hd Hb].
  - destruct Hd as [Hd Hdc]. destruct Hb as [Hb Hbc]. split_and!; try done.
    + by intros d' [= <-].
    + by intros b' [= <-].
    + split; [|done]. by destruct dc, bc.
    + intros H. apply Hhigh. by destruct dc, bc.
  - destruct Hd as [Hd Hdc]. split_and!; try done.
    + by intros d' [= <-].
    + split; [done|]. by intros [_ [? ?]].
  - by destruct Hd.
  - destruct Hd as [_ ->]. split_and!; try done.
    split; [done|]. by intros [[? ?] _].
Qed.

(** X8: what every analysis of a path guarantees. A bucket is never
    detected without a day; a detected day lies in 1..31 and a detected
    bucket is one capital letter of [[A-MX]]; the path counts as
    pre-organized exactly when both were found, and then the confidence
    is [high] or [medium]; the confidence is [none] exactly when no day
    was found; it is [high] only below a folder that names the days
    folder; the segments are those of the path without the file name. *)
Theorem analyzePathStructure_invariants (filePath : jsstring)
    (optDaysFolder : option jsstring) :
  let a := analyzePathStructure Date_parse toLowerCase filePath optDaysFolder in
  (paDetectedDay a = None -> paDetectedBucket a = None) /\
  (forall d, paDetectedDay a = Some d -> 1 <= d <= 31) /\
  (forall b, paDetectedBucket a = Some b -> exists c, b = [c] /\ classLetter c) /\
  (paIsPreOrganized a = true <->
   is_Some (paDetectedDay a) /\ is_Some (paDetectedBucket a)) /\
  (paIsPreOrganized a = true -> paConfidence a = high \/ paConfidence a = medium) /\
  (paConfidence a = none <-> paDetectedDay a = None) /\
  (paConfidence a = high ->
   exists segment, segment ∈ pathSegments a /\
     isDaysFolder toLowerCase (str_or optDaysFolder (str "01_DAYS")) segment = true) /\
  pathSegments a = dropLast (pathParts filePath).
Proof. exact (analyzePathStructure_facts filePath optDaysFolder). Qed.

End Path.

Lemma extractDay_result_witness :
  let r := {| detDay := 2; dayPattern := str "day_prefix"; dayConfidence := high |} in
  extractDayFromFolderName isoDateOnly (str "Day 2") None = Some r /\
  ((dayPattern r = str "day_prefix" /\ dayConfidence r = high /\ 1 <= detDay r <= 31) \/
   (dayPattern r = str "iso_date" /\
    dayConfidence r = (if truthy None then high else medium) /\
    (truthy None = false -> detDay r = 1)) \/
   (dayPattern r = str "numeric_prefix" /\ dayConfidence r = medium /\
    1 <= detDay r <= 31)).
Proof.
  intros r.
  assert (H : extractDayFromFolderName isoDateOnly (str "Day 2") None = Some r)
    by (vm_compute; reflexivity).
  split; [exact H|].
  exact (extractDay_result isoDateOnly (str "Day 2") None r H).
Defined.

Lemma detectBucket_result_witness :
  let r := {| detBucket := str "A"; bucketConfidence := high;
              bucketPattern := str "standard" |} in
  detectBucketFromFolderName (str "A_Establishing") = Some r /\
  exists c, detBucket r = [c] /\ classLetter c.
Proof.
  intros r.
  assert (H : detectBucketFromFolderName (str "A_Establishing") = Some r)
    by (vm_compute; reflexivity).
  split; [exact H|].
  destruct (detectBucket_result (str "A_Establishing") r H) as (c & Hc & Hletter & _).
  exists c. split; [exact Hc|exact Hletter].
Defined.

End AnalysisFacts.

(** ** Fresh scans and loading a project *)

Module ScanFacts.
Import RegExp Detector DetectorFacts Reconciler ReconcilerFacts Ordering OrderingFacts.
Import GroupingFacts Analysis AnalysisFacts Scan.

Section Fresh.
Variable Date_parse : jsstring -> option Z.
Variable toLowerCase : jsstring -> jsstring.
Variable generateId : nat -> jsstring.
Local Abbreviation photoOfEntry := (Reconciler.photoOfEntry Date_parse toLowerCase).
Local Abbreviation scanFiles := (Reconciler.scanFiles Date_parse toLowerCase generateId).
Local Abbreviation buildPhotosFromHandle :=
  (Reconciler.buildPhotosFromHandle Date_parse toLowerCase generateId).
Local Abbreviation getState := (Reconciler.getState Date_parse toLowerCase generateId).

Lemma scanFiles_ids (files : list FileEntry) (photos : list ProjectPhoto)
    (seenFiles : gset jsstring) :
  id <$> photos = generateId <$> seq 0 (length photos) ->
  let result := scanFiles files photos seenFiles in
  id <$> result = generateId <$> seq 0 (length result).
Proof.
  revert photos seenFiles. induction files as [|entry rest IH]; intros photos seen Hids;
    cbn [Reconciler.scanFiles]; [done|].
  case_decide; [by apply IH|]. apply IH.
  rewrite fmap_app, length_app, seq_app, fmap_app, Hids. done.
Qed.

(** X9: what a fresh scan returns. The photos come in ascending
    timestamp order; none carries an edit; a photo has a day exactly
    when it has a bucket; and the ids are pairwise distinct whenever
    [generateId] never repeats itself. *)
Theorem buildPhotos_fresh (fs : list FileEntry) :
  let photos := buildPhotosFromHandle fs in
  Sorted (fun a b => timestamp a <= timestamp b) photos /\
  (forall photo, photo ∈ photos ->
     unedited photo /\ (is_Some (day photo) <-> is_Some (bucket photo)) /\
     (day photo = None \/ day photo = detectedDay photo) /\
     (bucket photo = None \/ bucket photo = detectedBucket photo)) /\
  ((forall m n, generateId m = generateId n -> m = n) -> NoDup (id <$> photos)) /\
  (length photos <= length fs)%nat.
Proof.
  cbv zeta. unfold Reconciler.buildPhotosFromHandle. split_and!.
  - apply Array_sort_Sorted_by; intros a b; lia.
  - intros photo Hin. rewrite Array_sort_perm in Hin.
    apply scanFiles_elem in Hin as [Hin|(entry & n & He & ->)]; [by inv Hin|].
    split; [done|].
    unfold Reconciler.photoOfEntry. cbn [day bucket detectedDay detectedBucket].
    destruct (analyzePathStructure_facts Date_parse toLowerCase (path entry) None)
      as (_ & _ & _ & Hpre & Hconf & _).
    cbv zeta in Hpre, Hconf.
    destruct (paIsPreOrganized _) eqn:Hp.
    + destruct (Hconf eq_refl) as [-> | ->]; cbn [isAccepted andb];
        (split; [by split; intros _; apply Hpre|by split; right]).
    + cbn [andb]. split; [|by split; left]. split; by intros [? ?].
  - intros Hinj. rewrite Array_sort_perm.
    rewrite (scanFiles_ids fs [] ∅) by done.
    assert (Inj (=) (=) generateId) by (intros m n; apply Hinj).
    apply NoDup_fmap_2; [done|]. apply NoDup_ListNoDup, List.seq_NoDup.
  - rewrite (Permutation_length (Array_sort_perm _ _)).
    assert (forall entries photos seenFiles,
              (length (scanFiles entries photos seenFiles)
               <= length photos + length entries)%nat) as Hlen.
    { induction entries as [|entry rest IH]; intros photos seen;
        cbn [Reconciler.scanFiles length]; [lia|].
      case_decide; [etrans; [apply IH|lia]|].
      etrans; [apply IH|]. rewrite length_app. simpl. lia. }
    apply (Hlen fs [] ∅).
Qed.


(** *** When [getState] succeeds, and what it does to the stores *)

Lemma applyArchiveFolder_keeps (af : jsstring) (photos : list ProjectPhoto) :
  let archivedPhotos := applyArchiveFolder toLowerCase photos af in
  id <$> archivedPhotos = id <$> photos /\
  filePath <$> archivedPhotos = filePath <$> photos /\
  timestamp <$> archivedPhotos = timestamp <$> photos.
Proof.
  cbv zeta. unfold applyArchiveFolder. destruct (nonEmpty af); [|done].
  change (map ?f ?l) with (f <$> l). rewrite <- !list_fmap_compose.
  split_and!; apply list_fmap_ext; intros i photo _; cbn; unfold archivePhoto;
    by repeat case_match.
Qed.

Lemma applyCachedEdits_keeps (freshPhotos : list ProjectPhoto)
    (storedEdits : list Edit.t) :
  let photos := applyCachedEdits freshPhotos storedEdits in
  id <$> photos = id <$> freshPhotos /\
  filePath <$> photos = filePath <$> freshPhotos /\
  timestamp <$> photos = timestamp <$> freshPhotos.
Proof.
  cbv zeta. unfold applyCachedEdits.
  change (map ?f ?l) with (f <$> l). rewrite <- !list_fmap_compose.
  split_and!; apply list_fmap_ext; intros i photo _; cbn; by case_match.
Qed.

Lemma getState_scan (projectId : jsstring) (w w' : World) (st : ProjectState)
    (handle : DirectoryHandle) :
  getState projectId w = (w', inr st) -> handleDb w !! projectId = Some handle ->
  let freshPhotos := buildPhotosFromHandle (files handle) in
  w' = w /\
  id <$> Reconciler.photos st = id <$> freshPhotos /\
  filePath <$> Reconciler.photos st = filePath <$> freshPhotos /\
  timestamp <$> Reconciler.photos st = timestamp <$> freshPhotos.
Proof.
  unfold Reconciler.getState, bind, getHandle, throw, ret, removeHandle, readStored.
  intros E Hh. rewrite Hh in E.
  destruct (hasRequestPermission handle); cbn [negb] in E; [|done].
  destruct (permission handle) as [[| |]|]; try done.
  destruct (Nat.eqb _ 0); [done|].
  injection E as <- <-. cbv zeta. cbn [Reconciler.photos].
  split; [done|].
  match goal with
  | |- context [applyArchiveFolder _ ?ps ?af] =>
      destruct (applyArchiveFolder_keeps af ps) as (-> & -> & ->)
  end.
  destruct (edits _) as [storedEdits|]; [|done].
  by destruct (applyCachedEdits_keeps
                 (buildPhotosFromHandle (files handle)) storedEdits) as (-> & -> & ->).
Qed.

Lemma buildPhotos_paths (fs : list FileEntry) :
  filePath <$> buildPhotosFromHandle fs
  ≡ₚ (fun entry => Some (path entry)) <$> firstCopies fs [].
Proof.
  unfold Reconciler.buildPhotosFromHandle.
  rewrite OrderingFacts.Array_sort_perm.
  rewrite (scanFiles_firstCopies Date_parse toLowerCase generateId fs [] ∅ []).
  - cbn [app length Nat.add]. rewrite fmap_imap.
    rewrite (imap_ext _ (const (fun entry => Some (path entry)))); [|done].
    by rewrite imap_const.
  - intros e. split; [intros H; by apply not_elem_of_empty in H|by intros H; inv H].
Qed.

(** C3. [getState] returns a photo for every file of the scan (every
    listed file that is no copy of an earlier one), under the path of
    the file, and in the state it returns every photo whose path has a
    segment recognized as an archive folder is archived with bucket
    ["X"], whatever the cached edits said: a file that lies under the
    archive folder comes back as an archived photo of bucket ["X"]. A
    segment is recognized when it equals the configured archive-folder
    name (compared in lower case) and when its lower-case form contains
    ["archive"]. *)
Theorem getState_archive_folder_forced (projectId : jsstring) (w w' : World)
    (st : ProjectState) (handle : DirectoryHandle) :
  getState projectId w = (w', inr st) -> handleDb w !! projectId = Some handle ->
  let archiveFolder := configuredArchiveFolder (settings st) in
  (forall entry, entry ∈ firstCopies (files handle) [] ->
     exists photo, photo ∈ Reconciler.photos st /\ filePath photo = Some (path entry)) /\
  (forall photo p segment,
     photo ∈ Reconciler.photos st -> filePath photo = Some p ->
     segment ∈ pathParts p ->
     isArchiveFolderSegment toLowerCase segment archiveFolder = true ->
     archived photo = true /\ bucket photo = Some (str "X")) /\
  (forall entry segment,
     entry ∈ firstCopies (files handle) [] -> segment ∈ pathParts (path entry) ->
     isArchiveFolderSegment toLowerCase segment archiveFolder = true ->
     exists photo, photo ∈ Reconciler.photos st /\ filePath photo = Some (path entry) /\
                   archived photo = true /\ bucket photo = Some (str "X")) /\
  (forall segment af,
     nonEmpty (toLowerCase af) = true -> toLowerCase segment = toLowerCase af ->
     isArchiveFolderSegment toLowerCase segment af = true) /\
  (forall segment af,
     includes (str "archive") (toLowerCase segment) = true ->
     isArchiveFolderSegment toLowerCase segment af = true).
Proof.
  intros Hst Hh. cbv zeta.
  destruct (getState_forces_archive Date_parse toLowerCase generateId projectId w w' st
              Hst) as (Hforced & Hexact & Hfuzzy).
  assert (Hlisted : forall entry, entry ∈ firstCopies (files handle) [] ->
            exists photo, photo ∈ Reconciler.photos st
                          /\ filePath photo = Some (path entry)).
  { intros entry He.
    destruct (getState_scan projectId w w' st handle Hst Hh) as (_ & _ & Hpaths & _).
    assert (Some (path entry) ∈ filePath <$> Reconciler.photos st) as Hin.
    { rewrite Hpaths, buildPhotos_paths.
      by apply (list_elem_of_fmap_2 (fun entry => Some (path entry))). }
    apply list_elem_of_fmap in Hin as (photo & Hp & Hin). by exists photo. }
  split; [exact Hlisted|]. split; [exact Hforced|].
  split; [|split; [exact Hexact|exact Hfuzzy]].
  intros entry segment He Hseg Hrec.
  destruct (Hlisted entry He) as (photo & Hin & Hp).
  exists photo. split; [exact Hin|]. split; [exact Hp|].
  by apply (Hforced photo (path entry) segment).
Qed.

(** X10: [getState] returns a project exactly when the store holds a
    handle for the id that offers [requestPermission], answers
    [granted] and lists at least one file. It then leaves both stores as
    they were, and the photos are those of the fresh scan, one for one:
    same ids, paths and timestamps in the same (ascending timestamp)
    order. *)
Theorem getState_succeeds (projectId : jsstring) (w : World) :
  ((exists w' st, getState projectId w = (w', inr st)) <->
   exists handle, handleDb w !! projectId = Some handle /\
     hasRequestPermission handle = true /\ permission handle = Some granted /\
     files handle <> []) /\
  (forall w' st handle,
     getState projectId w = (w', inr st) -> handleDb w !! projectId = Some handle ->
     let freshPhotos := buildPhotosFromHandle (files handle) in
     w' = w /\
     id <$> Reconciler.photos st = id <$> freshPhotos /\
     filePath <$> Reconciler.photos st = filePath <$> freshPhotos /\
     timestamp <$> Reconciler.photos st = timestamp <$> freshPhotos).
Proof.
  unfold Reconciler.getState, bind, getHandle, throw, ret, removeHandle, readStored.
  destruct (handleDb w !! projectId) as [handle|] eqn:Hh.
  2:{ split; [|done]. split; [by intros (? & ? & ?)|by intros (? & ? & _)]. }
  destruct (hasRequestPermission handle) eqn:Hrp; cbn [negb].
  2:{ split; [|done]. split; [by intros (? & ? & ?)|].
      intros (h & [= <-] & ? & _). congruence. }
  destruct (permission handle) as [[| |]|] eqn:Hp.
  2,3,4: (split; [|done]; split; [by intros (? & ? & ?)|];
          intros (h & [= <-] & _ & ? & _); congruence).
  destruct (Nat.eqb _ 0) eqn:Hlen.
  - apply Nat.eqb_eq, length_zero_iff_nil, buildPhotosFromHandle_nil in Hlen.
    split; [|done]. split; [by intros (? & ? & ?)|].
    intros (h & [= <-] & _ & _ & Hfs). done.
  - split.
    + split; [|by eauto]. intros _. exists handle. split_and!; try done.
      intros Hfs. rewrite Hfs in Hlen. done.
    + intros w' st h [= <- <-] [= <-]. cbv zeta. cbn [Reconciler.photos].
      split; [done|].
      match goal with
      | |- context [applyArchiveFolder _ ?ps ?af] =>
          destruct (applyArchiveFolder_keeps af ps) as (-> & -> & ->)
      end.
      destruct (edits _) as [storedEdits|]; [|done].
      by destruct (applyCachedEdits_keeps
                     (buildPhotosFromHandle (files handle)) storedEdits) as (-> & -> & ->).
Qed.

(** X11: [getState] never writes to the stored project states, and it
    changes the handle store in one case only: when [requestPermission]
    throws, the handle of the project is removed. The next [getState] of
    the same project then reports that no folder access is available. *)
Theorem getState_stores (projectId : jsstring) (w : World) :
  let w' := (getState projectId w).1 in
  let r := (getState projectId w).2 in
  localStorage w' = localStorage w /\
  (forall handle, handleDb w !! projectId = Some handle ->
     hasRequestPermission handle = true -> permission handle = None ->
     r = inl FolderAccessExpired /\
     handleDb w' = delete projectId (handleDb w) /\
     getState projectId w' = (w', inl FolderAccessNotAvailable)) /\
  (r <> inl FolderAccessExpired -> w' = w) /\
  (handleDb w !! projectId = None -> r = inl FolderAccessNotAvailable).
Proof.
  cbv zeta.
  unfold Reconciler.getState, bind, getHandle, throw, ret, removeHandle, readStored.
  destruct (handleDb w !! projectId) as [handle|] eqn:Hh.
  2:{ cbn. by rewrite Hh. }
  destruct (hasRequestPermission handle) eqn:Hrp; cbn [negb].
  2:{ cbn. split_and!; try done. intros h [= <-] ? ?. congruence. }
  destruct (permission handle) as [[| |]|] eqn:Hp.
  - destruct (Nat.eqb _ 0); cbn; split_and!; try done; intros h [= <-] ? ?; congruence.
  - cbn. split_and!; try done. intros h [= <-] ? ?; congruence.
  - cbn. split_and!; try done. intros h [= <-] ? ?; congruence.
  - cbn. split_and!; try done. intros h [= <-] _ _. split_and!; try done.
    by rewrite lookup_delete_eq.
Qed.

End Fresh.

Lemma getState_archive_folder_forced_witness :
  let file := jpeg "98_ARCHIVE/IMG_0003.jpg" "IMG_0003.jpg" 3000 5 in
  (exists handle, handleDb archiveWorld !! projectId = Some handle /\
                  file ∈ firstCopies (files handle) []) /\
  exists w' st,
    Reconciler.getState isoDateOnly toLowerCaseLatin testId projectId archiveWorld
    = (w', inr st) /\
    exists photo, photo ∈ Reconciler.photos st /\
      filePath photo = Some (path file) /\
      archived photo = true /\ bucket photo = Some (str "X").
Proof.
  intros file.
  destruct (handleDb archiveWorld !! projectId) as [handle|] eqn:Hh;
    [|by vm_compute in Hh].
  assert (Hfile : file ∈ firstCopies (files handle) []).
  { vm_compute in Hh. injection Hh as <-. vm_compute. by left. }
  split; [by exists handle|].
  destruct (Reconciler.getState isoDateOnly toLowerCaseLatin testId projectId archiveWorld)
    as [w' [e|st]] eqn:E; [by vm_compute in E|].
  exists w', st. split; [done|].
  destruct (getState_archive_folder_forced isoDateOnly toLowerCaseLatin testId
              projectId archiveWorld w' st handle E Hh) as (_ & _ & H & _).
  apply (H file (str "98_ARCHIVE")); [exact Hfile| |].
  - vm_compute. by left.
  - pose proof E as E'. vm_compute in E'. injection E' as <- <-.
    vm_compute. reflexivity.
Defined.

End ScanFacts.

(** ** Saving, creating and deleting: what is read back *)

Module PersistenceFacts.
Import RegExp Detector DetectorFacts Reconciler ReconcilerFacts Ordering OrderingFacts.
Import GroupingFacts Analysis AnalysisFacts Scan ScanFacts Persistence.

Section Service.
Variable Date_parse : jsstring -> option Z.
Variable toLowerCase : jsstring -> jsstring.
Local Abbreviation photoOfEntry := (Reconciler.photoOfEntry Date_parse toLowerCase).
Local Abbreviation scanFiles := (Reconciler.scanFiles Date_parse toLowerCase).
Local Abbreviation buildPhotosFromHandle :=
  (Reconciler.buildPhotosFromHandle Date_parse toLowerCase).
Local Abbreviation getState := (Reconciler.getState Date_parse toLowerCase).
Local Abbreviation archivePhoto := (Reconciler.archivePhoto toLowerCase).
Local Abbreviation applyArchiveFolder := (Reconciler.applyArchiveFolder toLowerCase).
Local Abbreviation initProject := (Persistence.initProject Date_parse toLowerCase).

(** *** Deleting a project *)

(** [getState] reads the entries of its own project only. *)
Lemma getState_local (generateId : nat -> jsstring) (projectId : jsstring) (w1 w2 : World) :
  handleDb w1 !! projectId = handleDb w2 !! projectId ->
  localStorage w1 !! projectId = localStorage w2 !! projectId ->
  (getState generateId projectId w1).2 = (getState generateId projectId w2).2.
Proof.
  intros Hh Hs.
  unfold Reconciler.getState, bind, getHandle, throw, ret, removeHandle, readStored.
  rewrite Hh.
  destruct (handleDb w2 !! projectId) as [handle|]; [|done].
  destruct (hasRequestPermission handle); [|done]. cbn [negb].
  destruct (permission handle) as [[| |]|]; try done.
  cbn beta. rewrite Hs. by destruct (Nat.eqb _ 0).
Qed.

(** X12: after [deleteProject] the project is gone: [getState] reports
    that no folder access is available. The handles and states of the
    other projects stay, and [getState] answers for them as before. *)
Theorem deleteProject_forgets (generateId : nat -> jsstring) (projectId : jsstring) (w : World) :
  let w' := (deleteProject projectId w).1 in
  getState generateId projectId w' = (w', inl FolderAccessNotAvailable) /\
  handleDb w' !! projectId = None /\ localStorage w' !! projectId = None /\
  (forall other, other <> projectId ->
     handleDb w' !! other = handleDb w !! other /\
     localStorage w' !! other = localStorage w !! other /\
     (getState generateId other w').2 = (getState generateId other w).2).
Proof.
  cbv zeta. cbn [deleteProject fst]. split_and!.
  - unfold Reconciler.getState, bind, getHandle, throw. cbn [handleDb].
    by rewrite lookup_delete_eq.
  - cbn. by rewrite lookup_delete_eq.
  - cbn. by rewrite lookup_delete_eq.
  - intros other Hne.
    assert (handleDb {| handleDb := delete projectId (handleDb w);
                        localStorage := delete projectId (localStorage w) |} !! other
            = handleDb w !! other) as Hh by (cbn; by rewrite lookup_delete_ne).
    assert (localStorage {| handleDb := delete projectId (handleDb w);
                            localStorage := delete projectId (localStorage w) |} !! other
            = localStorage w !! other) as Hs by (cbn; by rewrite lookup_delete_ne).
    split_and!; [done..|]. by apply getState_local.
Qed.


(** *** Creating a project, then loading it *)

Lemma Array_sort_fmap {A B} (f : A -> B) (cmpA : A -> A -> Z) (cmpB : B -> B -> Z)
    (l : list A) :
  (forall a b, cmpB (f a) (f b) = cmpA a b) ->
  Array_sort cmpB (f <$> l) = f <$> Array_sort cmpA l.
Proof.
  intros Hcmp. induction l as [|x l IH]; [done|]. cbn [fmap list_fmap Array_sort].
  change (list_fmap A B f l) with (f <$> l). rewrite IH.
  generalize (Array_sort cmpA l). intros s.
  induction s as [|y s IHs]; [done|]. cbn. rewrite Hcmp.
  destruct (cmpA x y <=? 0); [done|]. cbn. f_equal. apply IHs.
Qed.

Lemma scanFiles_sameButIds (g1 g2 : nat -> jsstring) (fs : list FileEntry)
    (ps1 ps2 : list ProjectPhoto)
    (seen : gset jsstring) :
  sameButIds ps1 ps2 -> sameButIds (scanFiles g1 fs ps1 seen) (scanFiles g2 fs ps2 seen).
Proof.
  unfold sameButIds. revert ps1 ps2 seen.
  induction fs as [|entry rest IH]; intros ps1 ps2 seen Hps; cbn [Reconciler.scanFiles];
    [done|].
  case_decide; [by apply IH|]. apply IH. rewrite !fmap_app. by f_equal.
Qed.

Lemma buildPhotos_sameButIds (g1 g2 : nat -> jsstring) (fs : list FileEntry) :
  sameButIds (buildPhotosFromHandle g1 fs) (buildPhotosFromHandle g2 fs).
Proof.
  unfold sameButIds, Reconciler.buildPhotosFromHandle.
  rewrite <- !(Array_sort_fmap (withId []) _ (fun a b => timestamp a - timestamp b)) by done.
  f_equal. by apply scanFiles_sameButIds.
Qed.

Lemma archivePhoto_withId af i photo :
  archivePhoto af (withId i photo) = withId i (archivePhoto af photo).
Proof.
  unfold Reconciler.archivePhoto. cbn [filePath withId].
  destruct (filePath photo) as [[|c p]|]; try done. by destruct (existsb _ _).
Qed.

Lemma archivePhoto_idem af photo :
  archivePhoto af (archivePhoto af photo) = archivePhoto af photo.
Proof.
  unfold Reconciler.archivePhoto at 2.
  destruct (filePath photo) as [[|c p]|] eqn:Hp.
  1,3: unfold Reconciler.archivePhoto; by rewrite Hp.
  destruct (existsb _ _) eqn:Hex.
  - unfold Reconciler.archivePhoto. cbn [filePath]. by rewrite Hp, Hex.
  - unfold Reconciler.archivePhoto. by rewrite Hp, Hex.
Qed.

Lemma firstCopies_sublist (fs : list FileEntry) seen : firstCopies fs seen `sublist_of` fs.
Proof.
  revert seen. induction fs as [|e fs IH]; intros seen; simpl; [done|].
  case_decide; [by apply sublist_cons|by apply sublist_skip].
Qed.

Lemma buildPhotos_paths_NoDup (g : nat -> jsstring) (fs : list FileEntry) :
  NoDup (path <$> fs) -> NoDup (filePath <$> buildPhotosFromHandle g fs).
Proof.
  intros Hnd. rewrite (buildPhotos_paths Date_parse toLowerCase g).
  rewrite (list_fmap_compose path Some).
  apply NoDup_fmap_2; [apply _|].
  eapply sublist_NoDup; [exact Hnd|]. apply fmap_sublist, firstCopies_sublist.
Qed.


Lemma editFor_unique (saved : list ProjectPhoto) (i : nat) photo p :
  NoDup (filePath <$> saved) -> saved !! i = Some photo -> filePath photo = Some p ->
  editFor p (editOfPhoto <$> saved) = Some (editOfPhoto photo).
Proof.
  unfold editFor. revert i. induction saved as [|q saved IH]; intros i Hnd Hi Hp; [done|].
  cbn [fmap list_fmap] in *. apply NoDup_cons in Hnd as [Hq Hnd].
  rewrite filter_cons. destruct i as [|i]; cbn in Hi.
  - injection Hi as ->. rewrite decide_True by done.
    rewrite filter_none; [done|].
    intros e He E. apply list_elem_of_fmap in He as (q' & -> & Hq').
    apply Hq. rewrite Hp. cbn in E. rewrite <- E. by apply (list_elem_of_fmap_2 filePath).
  - rewrite decide_False.
    + by apply (IH i).
    + cbn. intros E. apply Hq. rewrite E, <- Hp.
      apply (list_elem_of_fmap_2 filePath). by eapply list_elem_of_lookup_2.
Qed.

Lemma editOf_filePath fresh saved : editOf fresh saved -> filePath saved = filePath fresh.
Proof. unfold editOf. intros E. by apply (f_equal filePath) in E. Qed.

(** Laying the saved edits over a new scan and applying the archive
    rule gives back the saved photos, the archive rule applied. *)
Lemma reload_photos (fresh saved : list ProjectPhoto) (af : jsstring) :
  nonEmpty af = true ->
  NoDup (filePath <$> saved) ->
  Forall (fun photo => truthy (filePath photo) = true) fresh ->
  Forall2 editOf fresh saved ->
  sameButIds (applyArchiveFolder (applyCachedEdits fresh (editOfPhoto <$> saved)) af)
             (applyArchiveFolder saved af).
Proof.
  intros Haf Hnd Hpaths Hedit. unfold sameButIds, Reconciler.applyArchiveFolder.
  rewrite Haf. unfold applyCachedEdits.
  change (map ?f ?l) with (f <$> l). rewrite <- !list_fmap_compose.
  apply list_eq. intros i. rewrite !list_lookup_fmap.
  destruct (fresh !! i) as [f|] eqn:Hf.
  - destruct (Forall2_lookup_l _ _ _ _ _ Hedit Hf) as (sv & Hs & He).
    rewrite Hs. cbn. f_equal.
    rewrite Forall_forall in Hpaths.
    assert (truthy (filePath f) = true) as Ht
      by (apply Hpaths; by eapply list_elem_of_lookup_2).
    unfold lookupCached.
    destruct (filePath f) as [[|c p]|] eqn:Hp; try done.
    rewrite cachedEditsOf_lookup.
    rewrite (editFor_unique saved i sv (c :: p)); [|done|done|].
    2:{ rewrite <- Hp. by apply editOf_filePath. }
    rewrite <- !archivePhoto_withId. by rewrite He.
  - apply Forall2_length in Hedit. apply lookup_ge_None in Hf.
    rewrite (proj2 (lookup_ge_None saved i)); [done|lia].
Qed.


Lemma buildPhotos_paths_truthy (g : nat -> jsstring) (fs : list FileEntry) :
  Forall (fun entry => path entry <> []) fs ->
  Forall (fun photo => truthy (filePath photo) = true) (buildPhotosFromHandle g fs).
Proof.
  intros Hfs. apply Forall_forall. intros photo Hin.
  unfold Reconciler.buildPhotosFromHandle in Hin. rewrite Array_sort_perm in Hin.
  apply scanFiles_elem in Hin as [Hin|(entry & n & He & ->)]; [by inv Hin|].
  rewrite Forall_forall in Hfs. specialize (Hfs entry He). cbn.
  by destruct (path entry).
Qed.

(** What [getState] reads after [saveState] wrote. *)
Lemma getState_after_saveState (generateId : nat -> jsstring) (projectId : jsstring)
    (w : World) (handle : DirectoryHandle) (now : Z) (state : ProjectState) :
  handleDb w !! projectId = Some handle ->
  hasRequestPermission handle = true -> permission handle = Some granted ->
  files handle <> [] ->
  NoDup (path <$> files handle) ->
  Forall (fun entry => path entry <> []) (files handle) ->
  Forall2 editOf (buildPhotosFromHandle generateId (files handle))
    (Reconciler.photos state) ->
  let w' := (saveState now projectId state w).1 in
  exists loaded,
    getState generateId projectId w' = (w', inr loaded) /\
    sameButIds (Reconciler.photos loaded)
      (applyArchiveFolder (Reconciler.photos state)
         (configuredArchiveFolder (settings state))) /\
    projectName loaded = str_or (Some (projectName state)) (handleName handle) /\
    rootPath loaded = str_or (Some (rootPath state)) (handleName handle) /\
    settings loaded = settings state /\
    dayLabels loaded = dayLabels state /\
    dayContainers loaded = dayContainers state /\
    stateLastModified loaded = Some (default now (stateLastModified state)).
Proof.
  intros Hh Hrp Hp Hfs Hnd Hne Hedit. cbv zeta.
  unfold Reconciler.getState, bind, getHandle, throw, ret, removeHandle, readStored.
  cbn [saveState writeStored fst handleDb localStorage].
  rewrite Hh, Hrp, Hp. cbn [negb localStorage]. rewrite lookup_insert_eq.
  cbn [default serializeState edits storedSettings storedProjectName storedRootPath
       storedDayLabels storedDayContainers storedLastModified].
  destruct (Nat.eqb _ 0) eqn:Hlen.
  { apply Nat.eqb_eq, length_zero_iff_nil, buildPhotosFromHandle_nil in Hlen. done. }
  eexists. split; [reflexivity|]. cbn. split_and!; try done.
  change (map editOfPhoto ?l) with (editOfPhoto <$> l).
  apply reload_photos; try done.
  - apply configuredArchiveFolder_nonEmpty.
  - assert (filePath <$> Reconciler.photos state
            = filePath <$> buildPhotosFromHandle generateId (files handle)) as ->.
    { apply list_eq. intros i. rewrite !list_lookup_fmap.
      destruct (buildPhotosFromHandle generateId (files handle) !! i) as [f|] eqn:Hf.
      - destruct (Forall2_lookup_l _ _ _ _ _ Hedit Hf) as (sv & -> & He).
        cbn. f_equal. by apply editOf_filePath.
      - apply Forall2_length in Hedit. apply lookup_ge_None in Hf.
        rewrite (proj2 (lookup_ge_None (Reconciler.photos state) i)); [done|lia]. }
    by apply buildPhotos_paths_NoDup.
  - by apply buildPhotos_paths_truthy.
Qed.


Lemma editFor_savedFor (p : jsstring) (saved : list ProjectPhoto) :
  editFor p (editOfPhoto <$> saved) = editOfPhoto <$> savedFor p saved.
Proof.
  unfold editFor, savedFor. rewrite <- fmap_last. f_equal.
  induction saved as [|q saved IH]; [done|].
  cbn [fmap list_fmap]. rewrite !filter_cons. cbn [Edit.filePath editOfPhoto].
  case_decide; cbn [fmap list_fmap]; by rewrite IH.
Qed.


Lemma editOf_archivePhoto af fresh scanned :
  withId [] fresh = withId [] scanned -> editOf fresh (archivePhoto af scanned).
Proof.
  intros E. unfold editOf, Reconciler.archivePhoto.
  destruct (filePath scanned) as [[|c p]|] eqn:Hp;
    try destruct (existsb _ _) eqn:Hex;
    destruct (bucket scanned) as [[|? ?]|] eqn:Hb;
    destruct fresh, scanned; unfold withId in *; simpl in *;
    injection E; intros; subst; simplify_eq; reflexivity.
Qed.

Lemma applyArchiveFolder_idem af (photos : list ProjectPhoto) :
  applyArchiveFolder (applyArchiveFolder photos af) af = applyArchiveFolder photos af.
Proof.
  unfold Reconciler.applyArchiveFolder. destruct (nonEmpty af); [|done].
  rewrite map_map. apply map_ext. intros photo. apply archivePhoto_idem.
Qed.


End Service.

(** *** The suggested days *)

Lemma closeTogether_snoc (g : list ProjectPhoto) q :
  closeTogether g ->
  (forall a, last g = Some a -> timestamp q - timestamp a <= gapThreshold) ->
  closeTogether (g ++ [q]).
Proof.
  induction g as [|a [|b g] IH]; intros Hg Hq; cbn in *; [done| |].
  - split; [|done]. by apply Hq.
  - destruct Hg as [? Hg]. split; [done|]. apply IH; [done|]. intros c Hc. by apply Hq.
Qed.

Lemma farApart_snoc_same (gs : list (list ProjectPhoto)) g q :
  g <> [] -> farApart (gs ++ [g]) -> farApart (gs ++ [g ++ [q]]).
Proof.
  intros Hg. induction gs as [|g0 [|g1 gs] IH]; cbn in *; [done| |].
  - intros [H _]. split; [|done]. intros a b Ha Hb. apply H; [done|].
    destruct g; [done|]. by cbn in *.
  - intros [H1 H2]. split; [done|]. by apply IH.
Qed.

Lemma farApart_snoc_new (gs : list (list ProjectPhoto)) g q :
  (forall a, last g = Some a -> gapThreshold < timestamp q - timestamp a) ->
  farApart (gs ++ [g]) -> farApart ((gs ++ [g]) ++ [[q]]).
Proof.
  intros Hq. induction gs as [|g0 [|g1 gs] IH]; cbn in *.
  - intros _. split; [|done]. intros a b Ha [= <-]. by apply Hq.
  - intros [H _]. split; [done|]. split; [|done]. intros a b Ha [= <-]. by apply Hq.
  - intros [H1 H2]. split; [done|]. by apply IH.
Qed.

Lemma daysOf_snoc_same (gs : list (list ProjectPhoto)) g q (days : gmap Z (list jsstring)) :
  (forall d, days !! d = daysOf (gs ++ [g]) d) ->
  forall d, alter (fun ids => ids ++ [id q]) (Z.of_nat (length gs) + 1) days !! d
            = daysOf (gs ++ [g ++ [q]]) d.
Proof.
  intros Hdays d. unfold daysOf in *.
  destruct (decide (d = Z.of_nat (length gs) + 1)) as [->|Hne].
  - rewrite lookup_alter_eq, Hdays. rewrite !decide_True by lia.
    replace (Z.to_nat (Z.of_nat (length gs) + 1 - 1)) with (length gs) by lia.
    rewrite !list_lookup_middle by done. cbn [fmap option_fmap option_map].
    by rewrite map_app.
  - rewrite lookup_alter_ne, Hdays by done. case_decide; [|done].
    destruct (decide (Z.to_nat (d - 1) < length gs)%nat).
    + by rewrite !lookup_app_l by done.
    + rewrite !lookup_ge_None_2; [done|rewrite length_app; cbn; lia..].
Qed.

Lemma daysOf_snoc_new (gs : list (list ProjectPhoto)) q (days : gmap Z (list jsstring)) :
  (forall d, days !! d = daysOf gs d) ->
  forall d, alter (fun ids => ids ++ [id q]) (Z.of_nat (length gs) + 1)
              (<[Z.of_nat (length gs) + 1 := []]> days) !! d
            = daysOf (gs ++ [[q]]) d.
Proof.
  intros Hdays d. unfold daysOf in *.
  destruct (decide (d = Z.of_nat (length gs) + 1)) as [->|Hne].
  - rewrite lookup_alter_eq, lookup_insert_eq. rewrite decide_True by lia.
    replace (Z.to_nat (Z.of_nat (length gs) + 1 - 1)) with (length gs) by lia.
    by rewrite list_lookup_middle.
  - rewrite lookup_alter_ne, lookup_insert_ne, Hdays by done. case_decide; [|done].
    destruct (decide (Z.to_nat (d - 1) < length gs)%nat).
    + by rewrite lookup_app_l by done.
    + rewrite !lookup_ge_None_2; [done|rewrite ?length_app; cbn; lia..].
Qed.

(** The loop, from a state that stands for the groups [gs ++ [g]]. *)
Lemma clusterSteps (rest : list ProjectPhoto) (gs : list (list ProjectPhoto))
    (g : list ProjectPhoto) (a : ProjectPhoto) (days : gmap Z (list jsstring)) :
  last g = Some a ->
  Forall (fun g => g <> []) gs ->
  (forall d, days !! d = daysOf (gs ++ [g]) d) ->
  Forall closeTogether (gs ++ [g]) -> farApart (gs ++ [g]) ->
  exists groups,
    concat groups = concat (gs ++ [g]) ++ rest /\
    Forall (fun g => g <> []) groups /\
    (forall d, (fold_left clusterStep rest
                  (days, Z.of_nat (length gs) + 1, timestamp a)).1.1 !! d
               = daysOf groups d) /\
    Forall closeTogether groups /\ farApart groups.
Proof.
  revert gs g a days. induction rest as [|q rest IH]; intros gs g a days Ha Hgs Hdays Hc Hf.
  - exists (gs ++ [g]). rewrite app_nil_r. split_and!; try done.
    apply Forall_app. split; [done|]. constructor; [|done]. by destruct g.
  - cbn [fold_left clusterStep].
    assert (g <> []) as Hg by (by destruct g).
    destruct (Z.ltb_spec gapThreshold (timestamp q - timestamp a)) as [Hgap|Hgap].
    + destruct (IH (gs ++ [g]) [q] q
                  (alter (fun ids => ids ++ [id q]) (Z.of_nat (length gs) + 1 + 1)
                     (<[Z.of_nat (length gs) + 1 + 1 := []]> days)))
        as (groups & Hcat & Hne & Hd & Hcl & Hfar).
      * done.
      * apply Forall_app. split; [done|]. by constructor.
      * replace (Z.of_nat (length gs) + 1 + 1) with (Z.of_nat (length (gs ++ [g])) + 1)
          by (rewrite length_app; cbn; lia).
        by apply daysOf_snoc_new.
      * apply Forall_app. split; [done|]. by constructor.
      * apply farApart_snoc_new; [|done]. intros a' Ha'. by simplify_eq.
      * exists groups. split_and!; try done.
        -- rewrite Hcat, !concat_app. cbn. by rewrite !app_nil_r, <- !app_assoc.
        -- intros d. rewrite <- Hd.
           replace (Z.of_nat (length (gs ++ [g])) + 1) with (Z.of_nat (length gs) + 1 + 1)
             by (rewrite length_app; cbn; lia).
           done.
    + destruct (IH gs (g ++ [q]) q
                  (alter (fun ids => ids ++ [id q]) (Z.of_nat (length gs) + 1) days))
        as (groups & Hcat & Hne & Hd & Hcl & Hfar).
      * by rewrite last_snoc.
      * done.
      * by apply daysOf_snoc_same.
      * apply Forall_app in Hc as [Hc1 Hc2]. apply Forall_app. split; [done|].
        constructor; [|done]. apply closeTogether_snoc; [by inv Hc2|].
        intros a' Ha'. by simplify_eq.
      * by apply farApart_snoc_same.
      * exists groups. split_and!; try done.
        rewrite Hcat, !concat_app. cbn. by rewrite !app_nil_r, <- !app_assoc.
Qed.

(** X15: the suggested days of [clusterPhotosByTime] split the photos, in
    the order given, into groups: day 1 holds the ids of the first
    group, day 2 those of the second, and so on, with no other day; no
    group is empty; inside a group consecutive photos are at most six
    hours apart, and more than six hours pass from the last photo of a
    group to the first of the next. No photo gives no day. *)
Theorem clusterPhotosByTime_groups (photos : list ProjectPhoto) :
  exists groups,
    concat groups = photos /\
    Forall (fun g => g <> []) groups /\
    (forall d, clusterPhotosByTime photos !! d = daysOf groups d) /\
    Forall closeTogether groups /\ farApart groups.
Proof.
  destruct photos as [|p rest].
  - exists []. split_and!; try done. intros d. unfold daysOf. by case_decide.
  - unfold clusterPhotosByTime. cbn [fold_left clusterStep].
    replace (gapThreshold <? timestamp p - timestamp p) with false
      by (rewrite Z.sub_diag; reflexivity).
    destruct (clusterSteps rest [] [p] p (alter (fun ids => ids ++ [id p]) 1 {[1 := []]}))
      as (groups & Hcat & Hne & Hd & Hcl & Hfar); try done.
    + intros d. apply (daysOf_snoc_new [] p ∅). intros d'. unfold daysOf.
      by case_decide.
    + by repeat constructor.
    + by exists groups.
Qed.



End PersistenceFacts.

(** ** The archive rule in closed form *)

Module ArchiveFacts.
Import Archive.
Import RegExp Detector DetectorFacts Reconciler ReconcilerFacts.
Import Persistence PersistenceFacts.

(** *** Substrings *)

Lemma startsWith_app (needle s : jsstring) :
  startsWith needle s = true <-> exists rest, s = needle ++ rest.
Proof.
  revert s. induction needle as [|a needle IH]; intros s; cbn.
  - split; [by eexists|done].
  - destruct s as [|b s]; [split; [done|by intros [? ?]]|].
    rewrite andb_true_iff, N.eqb_eq, IH. split.
    + intros [-> [rest ->]]. by exists rest.
    + intros [rest [= -> ->]]. eauto.
Qed.

Lemma includes_app (needle s : jsstring) :
  includes needle s = true <-> exists before after, s = before ++ needle ++ after.
Proof.
  induction s as [|b s IH]; cbn.
  - rewrite orb_false_r, startsWith_app. split.
    + intros [rest E]. by exists [], rest.
    + intros (before & after & E). symmetry in E.
      apply app_eq_nil in E as [-> E]. apply app_eq_nil in E as [-> ->]. by exists [].
  - rewrite orb_true_iff, startsWith_app, IH. split.
    + intros [[rest E]|(before & after & ->)].
      * by exists [], rest.
      * by exists (b :: before), after.
    + intros ([|c before] & after & E); cbn in E.
      * left. by exists after.
      * right. injection E as -> ->. by exists before, after.
Qed.

Lemma includes_self (needle : jsstring) : includes needle needle = true.
Proof. apply includes_app. exists [], []. by rewrite app_nil_r. Qed.

Lemma includes_endsWith (needle s : jsstring) :
  endsWith needle s = true -> includes (drop 1 needle) s = true.
Proof.
  unfold endsWith. rewrite startsWith_app. intros [rest E].
  apply (f_equal (@rev N)) in E. rewrite rev_involutive, rev_app_distr, rev_involutive in E.
  apply includes_app. exists (rev rest ++ take 1 needle), [].
  by rewrite app_nil_r, <- app_assoc, take_drop.
Qed.

(** A word of lower-case letters and digits found after the runs of
    other units were replaced is found in the string itself. *)
Lemma startsWith_replaceRuns (needle s : jsstring) :
  Forall (fun c => lowerAlnum c = true) needle ->
  startsWith needle (replaceRuns false s) = true -> startsWith needle s = true.
Proof.
  intros Hw. revert s. induction Hw as [|a needle Ha Hw IH]; intros s; [done|].
  destruct s as [|c s]; [done|]. cbn.
  destruct (lowerAlnum c) eqn:Hc; cbn.
  - rewrite !andb_true_iff. intros [? ?]. split; [done|]. by apply IH.
  - rewrite andb_true_iff, N.eqb_eq. intros [-> _]. done.
Qed.

Lemma includes_replaceRuns (needle s : jsstring) inRun :
  needle <> [] -> Forall (fun c => lowerAlnum c = true) needle ->
  includes needle (replaceRuns inRun s) = true -> includes needle s = true.
Proof.
  intros Hne Hw. revert inRun. induction s as [|c s IH]; intros inRun; [done|].
  cbn [replaceRuns]. destruct (lowerAlnum c) eqn:Hc.
  - cbn [includes]. rewrite !orb_true_iff. intros [H|H].
    + left. apply (startsWith_replaceRuns needle (c :: s)); [done|]. cbn [replaceRuns].
      by rewrite Hc.
    + right. by apply (IH false).
  - assert (Hskip : includes needle (replaceRuns true s) = true ->
                    includes needle (c :: s) = true).
    { intros H. cbn [includes]. apply orb_true_iff. right. by apply (IH true). }
    destruct inRun; [exact Hskip|].
    cbn [includes]. rewrite orb_true_iff. intros [H|H]; [|by apply Hskip].
    destruct needle as [|a needle]; [done|]. cbn in H.
    apply andb_true_iff in H as [H%N.eqb_eq _]. subst a. by inv Hw.
Qed.

Lemma includes_suffix (needle before s : jsstring) :
  includes needle s = true -> includes needle (before ++ s) = true.
Proof.
  rewrite !includes_app. intros (b & a & ->). exists (before ++ b), a.
  by rewrite <- app_assoc.
Qed.

Lemma includes_prefix (needle s after : jsstring) :
  includes needle s = true -> includes needle (s ++ after) = true.
Proof.
  rewrite !includes_app. intros (b & a & ->). exists b, (a ++ after).
  by rewrite <- !app_assoc.
Qed.

Lemma trimStart_suffix (s : jsstring) : exists before, s = before ++ trimStart s.
Proof.
  induction s as [|c s [before IH]]; cbn; [by exists []|].
  destruct (whiteSpace c); [|by exists []].
  exists (c :: before). cbn. by f_equal.
Qed.

Lemma includes_trim (needle s : jsstring) :
  includes needle (trim s) = true -> includes needle s = true.
Proof.
  unfold trim. intros H.
  destruct (trimStart_suffix s) as [b1 E1].
  destruct (trimStart_suffix (rev (trimStart s))) as [b2 E2].
  apply (f_equal (@rev N)) in E2. rewrite rev_involutive, rev_app_distr in E2.
  rewrite E1, E2. by apply includes_suffix, includes_prefix.
Qed.

Section Rule.
Variable toLowerCase : jsstring -> jsstring.
Local Abbreviation isArchiveFolderSegment :=
  (Reconciler.isArchiveFolderSegment toLowerCase).
Local Abbreviation archivePhoto := (Reconciler.archivePhoto toLowerCase).
Local Abbreviation applyArchiveFolder := (Reconciler.applyArchiveFolder toLowerCase).

(** X16: the five tests of [isArchiveFolderSegment] come to two: a
    segment is an archive folder exactly when its lower-case form is the
    (non-empty) lower-case form of the configured name or contains
    ["archive"]. *)
Theorem isArchiveFolderSegment_rule (segment archiveFolder : jsstring) :
  isArchiveFolderSegment segment archiveFolder
  = (nonEmpty (toLowerCase archiveFolder)
     && bool_decide (toLowerCase segment = toLowerCase archiveFolder))
    || includes (str "archive") (toLowerCase segment).
Proof.
  unfold Reconciler.isArchiveFolderSegment.
  set (normalized := toLowerCase segment).
  destruct (nonEmpty _ && bool_decide _); [done|]. cbn [orb].
  destruct (includes (str "archive") normalized) eqn:Hinc.
  - by repeat case_match.
  - assert (includes (str "archive") (trim (replaceRuns false normalized)) = false) as ->.
    { apply not_true_is_false. intros H. apply includes_trim in H.
      apply includes_replaceRuns in H; [congruence|done|].
      by apply (bool_decide_unpack _). }
    rewrite orb_false_r.
    assert (bool_decide (normalized = str "archive") = false) as ->.
    { apply bool_decide_eq_false. intros E. by rewrite E, includes_self in Hinc. }
    assert (bool_decide (normalized = str "archives") = false) as ->.
    { apply bool_decide_eq_false. intros E. by rewrite E in Hinc. }
    assert (endsWith (str "_archive") normalized = false) as ->.
    { apply not_true_is_false. intros H%includes_endsWith.
      change (drop 1 _) with (str "archive") in H. congruence. }
    assert (endsWith (str "-archive") normalized = false) as ->.
    { apply not_true_is_false. intros H%includes_endsWith.
      change (drop 1 _) with (str "archive") in H. congruence. }
    done.
Qed.

(** X17: applying the archive rule twice is the same as applying it
    once. The rule keeps the number and the order of the photos; it
    leaves a photo as it is or marks it archived with bucket [X]: it
    marks every photo with a recognized segment in its (non-empty)
    path and leaves every photo without one as it is; it never clears
    an archive mark. With an empty archive folder name it does nothing
    at all. *)
Theorem applyArchiveFolder_rule (photos : list ProjectPhoto) (archiveFolder : jsstring) :
  let result := applyArchiveFolder photos archiveFolder in
  applyArchiveFolder result archiveFolder = result /\
  length result = length photos /\
  (forall (i : nat) photo, photos !! i = Some photo ->
     exists photo', result !! i = Some photo' /\
       (archived photo = true -> archived photo' = true) /\
       (photo' = photo \/ photo' = markArchived photo) /\
       (archiveFolder <> [] ->
        (exists c p segment, filePath photo = Some (c :: p) /\
           segment ∈ pathParts (c :: p) /\
           isArchiveFolderSegment segment archiveFolder = true) ->
        photo' = markArchived photo) /\
       ((forall p segment, filePath photo = Some p -> segment ∈ pathParts p ->
           isArchiveFolderSegment segment archiveFolder = false) ->
        photo' = photo)) /\
  (archiveFolder = [] -> result = photos).
Proof.
  cbv zeta. split_and!.
  - apply applyArchiveFolder_idem.
  - unfold Reconciler.applyArchiveFolder. destruct (nonEmpty _); [|done].
    by rewrite length_map.
  - intros i photo Hi. unfold Reconciler.applyArchiveFolder.
    destruct (nonEmpty archiveFolder) eqn:Hne.
    + exists (archivePhoto archiveFolder photo).
      change (map ?f ?l) with (f <$> l). rewrite list_lookup_fmap, Hi.
      split; [done|]. unfold Reconciler.archivePhoto.
      destruct (filePath photo) as [[|c p]|] eqn:Hp.
      1,3: split_and!; [done|by left|by intros _ (? & ? & ? & ? & _)|done].
      destruct (existsb _ (pathParts (c :: p))) eqn:Hex.
      * split_and!;
          [done|right; unfold markArchived; by rewrite Hp
          |intros _ _; unfold markArchived; by rewrite Hp|].
        intros Hno.
        apply existsb_exists in Hex as (seg & Hs & Hr).
        rewrite (Hno (c :: p) seg) in Hr; [done|done|by apply list_elem_of_In].
      * split_and!; [done|by left| |done].
        intros _ (c' & p' & seg & [= <- <-] & Hs & Hr). exfalso.
        assert (existsb (fun s => isArchiveFolderSegment s archiveFolder)
                  (pathParts (c :: p)) = true); [|congruence].
        apply existsb_exists. exists seg. split; [by apply list_elem_of_In|done].
    + exists photo. split_and!; [done|done|by left| |done].
      intros Haf. by destruct archiveFolder.
  - intros ->. done.
Qed.

End Rule.
End ArchiveFacts.

(** ** Folder mappings: what is listed, skipped and suggested *)

Module StructureFacts.
Import RegExp RegExpFacts Detector DetectorFacts Ordering OrderingFacts.
Import Views GroupingFacts Analysis AnalysisFacts Structure.

(** *** Literal words under the [i] flag *)

Lemma matchAt_litI'_inv (word : jsstring) (s : jsstring) pos caps k res :
  word <> [] -> matchAt (litI' word) (pos, s) caps k = Some res ->
  exists pre rest, s = pre ++ rest /\ map canonicalize pre = map canonicalize word /\
    k ((pos + length word)%nat, rest) caps = Some res.
Proof.
  revert s pos. induction word as [|x word IH]; intros s pos Hne; [done|].
  assert (Hone : forall k',
            matchAt (Chr (chrI x)) (pos, s) caps k' = Some res ->
            exists c rest, s = c :: rest /\ canonicalize c = canonicalize x /\
              k' (S pos, rest) caps = Some res).
  { intros k'. cbn. destruct s as [|c rest]; [done|]. unfold chrI.
    destruct (N.eqb_spec (canonicalize c) (canonicalize x)); [|done]. by eauto. }
  destruct word as [|y word].
  - cbn [litI']. intros H. apply Hone in H as (c & rest & -> & Hc & Hk).
    exists [c], rest. cbn. rewrite Hc. split_and!; [done..|].
    by replace (pos + 1)%nat with (S pos) by lia.
  - change (litI' (x :: y :: word)) with (Seq (Chr (chrI x)) (litI' (y :: word))).
    intros H.
    change (matchAt (Chr (chrI x)) (pos, s) caps
              (fun cur' caps' => matchAt (litI' (y :: word)) cur' caps' k) = Some res) in H.
    apply Hone in H as (c & rest & -> & Hc & Hk).
    apply IH in Hk as (pre & rest' & -> & Hpre & Hk); [|done].
    exists (c :: pre), rest'. cbn [map app]. rewrite Hc, Hpre. split_and!; [done..|].
    by replace (pos + length (x :: y :: word))%nat
      with (S pos + length (y :: word))%nat by (cbn; lia).
Qed.

Lemma matchAt_litI' (word pre rest : jsstring) pos caps k :
  word <> [] -> map canonicalize pre = map canonicalize word ->
  matchAt (litI' word) (pos, pre ++ rest) caps k = k ((pos + length word)%nat, rest) caps.
Proof.
  revert pre pos. induction word as [|x word IH]; intros pre pos Hne Hpre; [done|].
  destruct pre as [|c pre]; [done|]. cbn in Hpre. injection Hpre as Hc Hpre.
  assert (chrI x c = true) as Hx by (by apply chrI_intro).
  destruct word as [|y word].
  - destruct pre; [|done]. cbn. rewrite Hx.
    by replace (pos + 1)%nat with (S pos) by lia.
  - change (litI' (x :: y :: word)) with (Seq (Chr (chrI x)) (litI' (y :: word))).
    cbn [matchAt app fst snd]. rewrite Hx. rewrite IH by done.
    by replace (pos + length (x :: y :: word))%nat
      with (S pos + length (y :: word))%nat by (cbn; lia).
Qed.

(** [/^word$/i] takes the strings equal to the word up to case. *)
Lemma test_word (word : string) (s : jsstring) :
  str word <> [] ->
  test (Seqs [Bol; litI word; Eol]) s = true
  <-> map canonicalize s = map canonicalize (str word).
Proof.
  intros Hne. unfold test. cbn [Seqs]. rewrite exec_Bol. unfold litI. cbn [matchAt].
  split.
  - destruct (matchAt _ _ _ _) as [res|] eqn:E; [|done]. intros _.
    apply matchAt_litI'_inv in E as (pre & rest & -> & Hpre & Hk); [|done].
    cbn in Hk. destruct rest; [|done]. by rewrite app_nil_r.
  - intros E. rewrite <- (app_nil_r s), matchAt_litI' by done. done.
Qed.

(** X18: [shouldSkipFolder] skips the names that start with a dot and, in
    any case, the names [unsorted], [inbox], [miscellaneous],
    [metadata] and [_meta], and no other name. *)
Theorem shouldSkipFolder_rule (folderName : jsstring) :
  shouldSkipFolder folderName = true <->
  (exists rest, folderName = unit_of "." :: rest) \/
  map canonicalize folderName ∈ map canonicalize <$> skippedNames.
Proof.
  unfold shouldSkipFolder, skipPatterns, skippedNames.
  cbn [existsb fmap list_fmap]. rewrite !orb_true_iff, !test_word by done.
  rewrite !elem_of_cons, elem_of_nil.
  assert (test (Seqs [Bol; Chr (chr (unit_of ".")); Star dot]) folderName = true
          <-> exists rest, folderName = unit_of "." :: rest) as Hdot.
  2:{ rewrite Hdot. intuition congruence. }
  unfold test. cbn [Seqs]. rewrite exec_Bol. cbn [matchAt Star fst snd].
  destruct folderName as [|c rest]; [split; [done|by intros [? ?]]|].
  unfold chr. destruct (N.eqb_spec c (unit_of ".")) as [->|Hne].
  - split; [by eauto|]. intros _. by repeat case_match.
  - split; [done|]. by intros [? [= ? _]].
Qed.

(** *** The mappings of a folder list *)

Section Mappings.
Variable localeCompare : jsstring -> jsstring -> Z.
Variable Date_parse : jsstring -> option Z.
Variable toLowerCase : jsstring -> jsstring.
Local Abbreviation mappingOf := (Structure.mappingOf Date_parse).
Local Abbreviation collectMappings := (Structure.collectMappings Date_parse toLowerCase).
Local Abbreviation detectFolderStructure :=
  (Structure.detectFolderStructure localeCompare Date_parse toLowerCase).
Local Abbreviation listed := (Structure.listed toLowerCase).

Lemma collectMappings_filter (folders : list jsstring) photoCountMap projectName tripStart :
  collectMappings folders photoCountMap projectName tripStart
  = mappingOf photoCountMap tripStart <$> filter (listed projectName) folders.
Proof.
  induction folders as [|folder rest IH]; [done|].
  cbn [Structure.collectMappings]. rewrite filter_cons, IH.
  destruct (decide (listed projectName folder)) as [[Hskip Hname]|Hno].
  - rewrite Hskip. destruct Hname as [->|Hname]; [done|].
    rewrite bool_decide_eq_false_2 by done. by rewrite andb_false_r.
  - destruct (shouldSkipFolder folder) eqn:Hskip; [done|].
    destruct projectName as [|c name]; [exfalso; apply Hno; split; [done|by left]|].
    cbn [nonEmpty andb]. case_bool_decide as E; [done|].
    exfalso. apply Hno. split; [done|by right].
Qed.

Lemma mappingOf_folder photoCountMap tripStart folder :
  FolderMapping.folder (mappingOf photoCountMap tripStart folder) = folder.
Proof. unfold Structure.mappingOf. by destruct (extractDayFromFolderName _ _ _). Qed.

(** X19: [detectFolderStructure] lists every folder of the input that
    is not skipped and is not the project's own name, once for each
    occurrence, and no other; every entry is the mapping of its folder,
    with the photo count of the map or 0; the entries come with the
    detected days ascending and the folders without a day last. *)
Theorem detectFolderStructure_mappings (folders : list jsstring)
    (photoCountMap : gmap jsstring Z) (projectName : jsstring)
    (tripStart : option jsstring) :
  let mappings := detectFolderStructure folders photoCountMap projectName tripStart in
  FolderMapping.folder <$> mappings ≡ₚ filter (listed projectName) folders /\
  (forall m, m ∈ mappings ->
     m = mappingOf photoCountMap tripStart (FolderMapping.folder m) /\
     FolderMapping.detectedDay m
     = detectDayNumberFromFolderName Date_parse (FolderMapping.folder m) tripStart /\
     FolderMapping.suggestedName m = suggestFolderName (FolderMapping.detectedDay m) /\
     (FolderMapping.confidence m = undetected <-> FolderMapping.detectedDay m = None) /\
     FolderMapping.photoCount m = default 0 (photoCountMap !! FolderMapping.folder m) /\
     shouldSkipFolder (FolderMapping.folder m) = false) /\
  StronglySorted dayLe (FolderMapping.detectedDay <$> mappings).
Proof.
  cbv zeta. unfold Structure.detectFolderStructure. split_and!.
  - rewrite Array_sort_perm, collectMappings_filter, <- list_fmap_compose.
    rewrite (list_fmap_ext _ (fun x => x)); [by rewrite list_fmap_id|].
    intros i folder _. apply mappingOf_folder.
  - intros m Hm. rewrite Array_sort_perm, collectMappings_filter in Hm.
    apply list_elem_of_fmap in Hm as (folder & -> & Hf).
    apply list_elem_of_filter in Hf as [[Hskip _] _].
    rewrite mappingOf_folder. split; [done|].
    unfold Structure.mappingOf, detectDayNumberFromFolderName.
    by destruct (extractDayFromFolderName _ _ _).
  - apply (@Sorted_StronglySorted _ dayLe dayLe_trans).
    apply (Sorted_fmap FolderMapping.detectedDay
             (fun a b => dayLe (FolderMapping.detectedDay a) (FolderMapping.detectedDay b))
             dayLe); [done|].
    apply Array_sort_Sorted_by; intros a b; unfold Structure.compareMappings;
      destruct (FolderMapping.detectedDay a), (FolderMapping.detectedDay b); cbn;
      try done; lia.
Qed.

Lemma extractDay_suggested (d : Z) (tripStart : option jsstring) :
  1 <= d <= 31 ->
  extractDayFromFolderName Date_parse (suggestFolderName (Some d)) tripStart
  = Some {| detDay := d; dayPattern := str "day_prefix"; dayConfidence := high |} /\
  shouldSkipFolder (suggestFolderName (Some d)) = false.
Proof.
  intros Hd. assert (d ∈ seqZ 1 31) as Hin by (apply elem_of_seqZ; lia).
  vm_compute seqZ in Hin.
  repeat (apply elem_of_cons in Hin as [->|Hin];
          [split; vm_compute; reflexivity|]).
  by inv Hin.
Qed.

(** X20: the name suggested for a day of 1..31 is read back as that day,
    from its day prefix and with confidence [high], whatever the trip
    start; the name suggested for a folder without a day, ["Unsorted"],
    is one that [detectFolderStructure] skips. *)
Theorem suggestFolderName_roundtrip (d : Z) (tripStart : option jsstring) :
  1 <= d <= 31 ->
  extractDayFromFolderName Date_parse (suggestFolderName (Some d)) tripStart
  = Some {| detDay := d; dayPattern := str "day_prefix"; dayConfidence := high |} /\
  shouldSkipFolder (suggestFolderName (Some d)) = false /\
  shouldSkipFolder (suggestFolderName None) = true.
Proof.
  intros Hd. destruct (extractDay_suggested d tripStart Hd) as [Hday Hskip].
  split_and!; [exact Hday|exact Hskip|by vm_compute].
Qed.

End Mappings.

Lemma suggestFolderName_roundtrip_witness :
  1 <= 5 <= 31 /\
  suggestFolderName (Some 5) = str "Day 05" /\
  extractDayFromFolderName isoDateOnly (str "Day 05") (Some (str "2024-03-01"))
  = Some {| detDay := 5; dayPattern := str "day_prefix"; dayConfidence := high |}.
Proof.
  assert (H : 1 <= 5 <= 31) by lia.
  split; [exact H|]. split; [reflexivity|].
  exact (proj1 (suggestFolderName_roundtrip isoDateOnly 5 (Some (str "2024-03-01")) H)).
Defined.

End StructureFacts.

(** ** The export: what it copies and what it leaves alone *)

Module ExportFacts.
Import RegExp Detector DetectorFacts Reconciler ReconcilerFacts Analysis AnalysisFacts
  Structure StructureFacts ExportManifest.

Lemma splitPath_nonnil s : splitPath s <> [].
Proof. destruct s as [|c s]; simpl; [done|]. by destruct (_ || _), (splitPath s). Qed.

Lemma splitPath_plain n :
  Forall (fun c => c <> 47%N /\ c <> 92%N) n -> splitPath n = [n].
Proof.
  induction 1 as [|c n [H1 H2] _ IH]; simpl; [done|].
  rewrite IH. apply N.eqb_neq in H1, H2. by rewrite H1, H2.
Qed.

Lemma splitPath_app_sep a b :
  splitPath (a ++ str "/" ++ b) = splitPath a ++ splitPath b.
Proof.
  induction a as [|c a IH]; [done|].
  change ((c :: a) ++ str "/" ++ b) with (c :: (a ++ str "/" ++ b)).
  cbn [splitPath]. rewrite IH. destruct (_ || _); [done|].
  pose proof (splitPath_nonnil a). by destruct (splitPath a).
Qed.

Lemma pathParts_app_sep a b :
  pathParts (a ++ str "/" ++ b) = pathParts a ++ pathParts b.
Proof. unfold pathParts. by rewrite splitPath_app_sep, List.filter_app. Qed.

Lemma plainName_check name :
  nonEmpty name && forallb (fun c => negb ((c =? 47)%N || (c =? 92)%N)) name = true ->
  plainName name.
Proof.
  intros [Hne Hall]%andb_true_iff. split; [by destruct name|].
  apply Forall_forall. intros c Hc%list_elem_of_In.
  rewrite forallb_forall in Hall. specialize (Hall c Hc).
  apply negb_true_iff, orb_false_iff in Hall as [H1%N.eqb_neq H2%N.eqb_neq]. done.
Qed.

Lemma pathParts_plain n : plainName n -> pathParts n = [n].
Proof.
  intros [Hne Hn]. unfold pathParts. rewrite splitPath_plain by done.
  by destruct n.
Qed.

Section Exported.
Variable Date_parse : jsstring -> option Z.
Variable toLowerCase : jsstring -> jsstring.

Local Abbreviation photoOfEntry := (Reconciler.photoOfEntry Date_parse toLowerCase).
Local Abbreviation analyzePathStructure :=
  (Detector.analyzePathStructure Date_parse toLowerCase).

Lemma pathParts_suggested d :
  1 <= d <= 31 -> pathParts (suggestFolderName (Some d)) = [suggestFolderName (Some d)].
Proof.
  intros Hd. assert (d ∈ seqZ 1 31) as Hin by (apply elem_of_seqZ; lia).
  vm_compute seqZ in Hin.
  repeat (apply elem_of_cons in Hin as [->|Hin]; [vm_compute; reflexivity|]).
  by inv Hin.
Qed.

Lemma bucketFolder_detected bucket :
  bucket ∈ MECE_BUCKET_KEYS ->
  let folder := bucket ++ str "_" ++ bucketLabelOf bucketNames bucket in
  pathParts folder = [folder] /\
  exists r, detectBucketFromFolderName folder = Some r /\
    detBucket r = bucket /\ isAccepted (bucketConfidence r) = true.
Proof.
  intros Hin. unfold MECE_BUCKET_KEYS in Hin.
  repeat (apply elem_of_cons in Hin as [->|Hin];
          [split; [vm_compute; reflexivity|eexists; split_and!; vm_compute; reflexivity]|]).
  by inv Hin.
Qed.

Lemma analyze_target daysFolder dayF bucketF name d r :
  plainName daysFolder -> isDaysFolder toLowerCase (str "01_DAYS") daysFolder = true ->
  pathParts dayF = [dayF] -> pathParts bucketF = [bucketF] -> plainName name ->
  extractDayFromFolderName Date_parse dayF None
  = Some {| detDay := d; dayPattern := str "day_prefix"; dayConfidence := high |} ->
  detectBucketFromFolderName bucketF = Some r ->
  isAccepted (bucketConfidence r) = true ->
  let pa := analyzePathStructure
              (daysFolder ++ str "/" ++ dayF ++ str "/" ++ bucketF ++ str "/" ++ name)
              None in
  paDetectedDay pa = Some d /\ paDetectedBucket pa = Some (detBucket r) /\
  paIsPreOrganized pa = true /\ isAccepted (paConfidence pa) = true.
Proof.
  intros Hdays Hrec HdayF HbucketF Hname Hday Hbucket Hacc.
  unfold Detector.analyzePathStructure.
  rewrite !pathParts_app_sep, HdayF, HbucketF, !pathParts_plain by done.
  change (dropLast _) with [daysFolder; dayF; bucketF].
  cbn [findIndex]. change (str_or None ?x) with x.
  unfold isDaysFolder in Hrec. rewrite Hrec.
  cbn [Nat.add Nat.ltb Nat.leb length lookup list_lookup default].
  unfold Datatypes.id. rewrite Hday, Hbucket. cbn.
  split_and!; try done. by destruct (bucketConfidence r).
Qed.

Lemma target_segments entry d b dayLabels folders :
  atTarget toLowerCase dayLabels folders d b entry ->
  pathParts (path entry)
  = [daysFolder folders; suggestFolderName (Some d);
     b ++ str "_" ++ bucketLabelOf bucketNames b; name entry].
Proof.
  intros (Hdays & Hrec & Hd & Hlabel & Hb & Hname & Hpath).
  destruct (bucketFolder_detected b Hb) as (HbucketF & _).
  rewrite Hpath. unfold bucketTargetPath, dayLabelOf. rewrite Hlabel.
  change (str_or None ?x) with x.
  change (str "Day " ++ padStart 2 (unit_of "0") (numberToString d))
    with (suggestFolderName (Some d)).
  rewrite !pathParts_app_sep.
  rewrite (pathParts_plain (daysFolder folders)), pathParts_suggested by done.
  replace (b ++ str "_" ++ bucketLabelOf bucketNames b ++ str "/" ++ name entry)
    with ((b ++ str "_" ++ bucketLabelOf bucketNames b) ++ str "/" ++ name entry)
    by (by rewrite <- !app_assoc).
  by rewrite pathParts_app_sep, HbucketF, pathParts_plain.
Qed.

(** A fresh photo carries a day and a bucket together or neither, the
    bucket being one letter, and its day is the detected one. *)
Lemma photoOfEntry_assignment entry newId :
  let photo := photoOfEntry entry newId in
  (exists d c, day photo = Some d /\ bucket photo = Some [c] /\
     detectedDay photo = Some d /\ isPreOrganized photo = true) \/
  (day photo = None /\ bucket photo = None).
Proof.
  destruct (analyzePathStructure_facts Date_parse toLowerCase (path entry) None)
    as (_ & _ & Hb & Hpre & _).
  cbv zeta in *. unfold Reconciler.photoOfEntry.
  cbn [day bucket detectedDay isPreOrganized].
  destruct (paIsPreOrganized _) eqn:Hp; [|by right].
  destruct (isAccepted _); [|by right]. cbn [andb].
  destruct Hpre as [Hpre _]. destruct (Hpre eq_refl) as [[d Hd] [b Hbucket]].
  destruct (Hb b Hbucket) as (c & -> & _).
  left. by exists d, c.
Qed.

Lemma fresh_export_rule entry newId archiveFolder dayLabels daysFolder :
  let photo := photoOfEntry entry newId in
  determineIfShouldExport photo archiveFolder dayLabels daysFolder bucketNames
  = match day photo, bucket photo with
    | Some d, Some b =>
        awayFrom (bucketTargetPath daysFolder dayLabels bucketNames d b (name entry))
                 (Some (path entry))
    | _, _ => false
    end.
Proof.
  cbv zeta. unfold determineIfShouldExport.
  destruct (photoOfEntry_assignment entry newId) as [(d & c & Hd & Hb & Hdd & Hp)|[Hd Hb]];
    cbv zeta in *.
  - rewrite Hd, Hb, Hdd, Hp. cbn [truthy negb andb orb].
    rewrite !bool_decide_eq_true_2 by done. done.
  - rewrite Hd, Hb. cbn [truthy negb andb orb].
    rewrite !bool_decide_eq_true_2 by done. done.
Qed.

(** X21: whether a photo fresh from a scan is exported. It is exported
    exactly when the scan gave it a day and a bucket and its file is
    not at the place the export gives that day and bucket: the path is
    not the target path and does not contain it. A fresh photo without
    an accepted day and bucket is never exported. *)
Theorem fresh_photo_export entry newId archiveFolder dayLabels daysFolder :
  let photo := photoOfEntry entry newId in
  determineIfShouldExport photo archiveFolder dayLabels daysFolder bucketNames
  = match day photo, bucket photo with
    | Some d, Some b =>
        awayFrom (bucketTargetPath daysFolder dayLabels bucketNames d b (name entry))
                 (Some (path entry))
    | _, _ => false
    end.
Proof. exact (fresh_export_rule entry newId archiveFolder dayLabels daysFolder). Qed.

Lemma rescan_at_target entry newId d b dayLabels folders :
  atTarget toLowerCase dayLabels folders d b entry ->
  let photo := photoOfEntry entry newId in
  day photo = Some d /\ bucket photo = Some b /\ isPreOrganized photo = true /\
  determineIfShouldExport photo (archiveFolder folders) dayLabels (daysFolder folders)
    bucketNames = false.
Proof.
  intros (Hdays & Hrec & Hd & Hlabel & Hb & Hname & Hpath).
  destruct (bucketFolder_detected b Hb) as (HbucketF & r & Hr & Hrb & Hacc).
  destruct (extractDay_suggested Date_parse d None Hd) as [Hday _].
  pose proof (analyze_target (daysFolder folders) (suggestFolderName (Some d))
                (b ++ str "_" ++ bucketLabelOf bucketNames b) (name entry) d r
                Hdays Hrec (pathParts_suggested d Hd) HbucketF Hname Hday Hr Hacc)
    as Ha.
  assert (path entry
          = daysFolder folders ++ str "/" ++ suggestFolderName (Some d) ++ str "/"
            ++ (b ++ str "_" ++ bucketLabelOf bucketNames b) ++ str "/" ++ name entry)
    as Hpath'.
  { rewrite Hpath. unfold bucketTargetPath, dayLabelOf. rewrite Hlabel.
    change (str_or None ?x) with x. unfold suggestFolderName.
    by rewrite <- !app_assoc. }
  rewrite <- Hpath' in Ha. cbv zeta in Ha. destruct Ha as (Ha1 & Ha2 & Ha3 & Ha4).
  assert (day (photoOfEntry entry newId) = Some d /\
          bucket (photoOfEntry entry newId) = Some b) as [Hpd Hpb].
  { unfold Reconciler.photoOfEntry. cbn [day bucket].
    rewrite Ha3, Ha4. cbn [andb]. by rewrite Ha1, Ha2, Hrb. }
  cbv zeta. split; [exact Hpd|]. split; [exact Hpb|]. split; [exact Ha3|].
  rewrite fresh_export_rule, Hpd, Hpb, <- Hpath. unfold awayFrom.
  by rewrite bool_decide_eq_true_2.
Qed.

(** X22: an exported file is settled. A file found where the export puts
    a photo of day [d] (1..31, without a label of its own) and bucket
    [b] (one of the bucket keys), under a days folder the scan
    recognizes, comes back from a scan with that day and that bucket,
    pre-organized, and is not exported again. *)
Theorem exported_file_rescan entry newId d b dayLabels folders :
  atTarget toLowerCase dayLabels folders d b entry ->
  let photo := photoOfEntry entry newId in
  day photo = Some d /\ bucket photo = Some b /\ isPreOrganized photo = true /\
  determineIfShouldExport photo (archiveFolder folders) dayLabels (daysFolder folders)
    bucketNames = false.
Proof. exact (rescan_at_target entry newId d b dayLabels folders). Qed.

Section Manifest.
Variable sizeOf : ProjectPhoto -> Z.
Variable generateId : nat -> jsstring.

Local Abbreviation exportOperations := (ExportManifest.exportOperations sizeOf).
Local Abbreviation generateExportManifest :=
  (ExportManifest.generateExportManifest sizeOf).
Local Abbreviation buildPhotosFromHandle :=
  (Reconciler.buildPhotosFromHandle Date_parse toLowerCase generateId).

Lemma exportOperations_none photos destinationRoot ingested dayLabels folders :
  Forall (fun photo =>
            determineIfShouldExport photo (archiveFolder folders) dayLabels
              (daysFolder folders) bucketNames = false) photos ->
  exportOperations photos destinationRoot ingested dayLabels folders = [].
Proof.
  induction 1 as [|photo photos Hp _ IH]; cbn [ExportManifest.exportOperations]; [done|].
  rewrite Hp, IH. by destruct (filePath photo) as [[|? ?]|].
Qed.


Lemma endsWith_app (needle s : jsstring) :
  (exists before, s = before ++ needle) -> endsWith needle s = true.
Proof.
  intros [before ->]. unfold endsWith. rewrite rev_app_distr.
  apply ArchiveFacts.startsWith_app. by eexists.
Qed.

Lemma destinationOf_shape photo destinationRoot ingested dayLabels folders :
  let destinationPath := destinationOf photo destinationRoot ingested dayLabels folders in
  startsWith (destinationRoot ++ str "/") destinationPath = true /\
  endsWith (str "/" ++ currentName photo) destinationPath = true.
Proof.
  cbv zeta. unfold destinationOf, bucketTargetPath.
  split.
  - apply ArchiveFacts.startsWith_app.
    destruct (archived photo); [eexists; by rewrite <- app_assoc|].
    destruct (bucket photo) as [[|c b]|], (day photo) as [d|], ingested;
      eexists; by rewrite <- app_assoc.
  - apply endsWith_app.
    destruct (archived photo).
    { exists (destinationRoot ++ str "/" ++ archiveFolder folders).
      by rewrite <- !app_assoc. }
    destruct (bucket photo) as [[|c b]|], (day photo) as [d|], ingested;
      try (exists destinationRoot; by rewrite <- ?app_assoc).
    + eexists (destinationRoot ++ str "/" ++ daysFolder folders ++ str "/"
               ++ dayLabelOf dayLabels d ++ str "/" ++ (c :: b) ++ str "_"
               ++ bucketLabelOf bucketNames (c :: b)).
      by rewrite <- !app_assoc.
    + eexists (destinationRoot ++ str "/" ++ (c :: b) ++ str "_"
               ++ bucketLabelOf bucketNames (c :: b)).
      by rewrite <- !app_assoc.
Qed.

(** X24: the operations of a manifest. They are, in the order of the
    photos, one copy for each photo that has a file path and is to be
    exported. Each reads the photo's file and writes below the
    destination root, to a file that has the photo's current name; an
    archived photo goes to the archive folder, whether or not the
    project is ingested. *)
Theorem generateExportManifest_operations now photos sourceRoot destinationRoot ingested
    dayLabels folders :
  let m := generateExportManifest now photos sourceRoot destinationRoot ingested
             dayLabels folders in
  Forall2
    (fun op photo =>
       filePath photo = Some (sourcePath op) /\
       operation op = copy /\ fileSize op = sizeOf photo /\
       startsWith (destinationRoot ++ str "/") (destinationPath op) = true /\
       endsWith (str "/" ++ currentName photo) (destinationPath op) = true /\
       (archived photo = true ->
        destinationPath op
        = destinationRoot ++ str "/" ++ archiveFolder folders ++ str "/"
          ++ currentName photo))
    (operations m)
    (filter (fun photo =>
               truthy (filePath photo)
               && determineIfShouldExport photo (archiveFolder folders) dayLabels
                    (daysFolder folders) bucketNames = true)
            photos).
Proof.
  cbv zeta. cbn [operations ExportManifest.generateExportManifest].
  induction photos as [|photo rest IH]; [by constructor|].
  cbn [ExportManifest.exportOperations]. rewrite filter_cons.
  destruct (filePath photo) as [[|c p]|] eqn:Hpath; cbn [truthy andb].
  - by rewrite decide_False.
  - destruct (determineIfShouldExport _ _ _ _ _) eqn:Hexp.
    + rewrite decide_True by done. constructor; [|exact IH].
      cbn [sourcePath destinationPath fileSize operation].
      destruct (destinationOf_shape photo destinationRoot ingested dayLabels folders)
        as [Hs He].
      split_and!; try done.
      intros Ha. unfold destinationOf. by rewrite Ha.
    + by rewrite decide_False.
  - by rewrite decide_False.
Qed.

End Manifest.

End Exported.

Lemma exportedFile_atTarget :
  atTarget toLowerCaseLatin ∅ DEFAULT_FOLDERS 1 (str "A") exportedFile.
Proof.
  split; [by apply plainName_check|]. split; [by vm_compute|].
  split; [lia|]. split; [reflexivity|]. split; [by left|].
  split; [by apply plainName_check|]. vm_compute. reflexivity.
Qed.

Lemma exported_file_rescan_witness :
  let photo := photoOfEntry isoDateOnly toLowerCaseLatin exportedFile (testId 0) in
  atTarget toLowerCaseLatin ∅ DEFAULT_FOLDERS 1 (str "A") exportedFile /\
  day photo = Some 1 /\ bucket photo = Some (str "A") /\ isPreOrganized photo = true /\
  determineIfShouldExport photo (archiveFolder DEFAULT_FOLDERS) ∅
    (daysFolder DEFAULT_FOLDERS) bucketNames = false.
Proof.
  intros photo. split; [exact exportedFile_atTarget|].
  exact (exported_file_rescan isoDateOnly toLowerCaseLatin exportedFile (testId 0) 1
           (str "A") ∅ DEFAULT_FOLDERS exportedFile_atTarget).
Defined.

(** A project that is not ingested exports into the folder of the
    day. A file the export left there is exported again by the manifest
    of a fresh scan: the bucket folder lies directly under the folder
    of the day, not under the days folder, and the copy goes to the
    place of the file itself. *)
Example rescan_not_ingested_copies :
  let photos := scan [dayFolderFile] in
  (fun photo => (day photo, bucket photo)) <$> photos = [(Some 1, Some (str "A"))] /\
  operations (generateExportManifest (fun _ => 3) 1700000000123 photos
                (str "Day 01") (str "Day 01") false ∅ DEFAULT_FOLDERS)
  = [{| sourcePath := path dayFolderFile;
        destinationPath := path dayFolderFile;
        fileSize := 3;
        operation := copy |}].
Proof. by vm_compute. Qed.


End ExportFacts.

(** ** The listing of a folder and the folders of a photo *)

Module CollectFacts.
Import RegExp Detector Reconciler ReconcilerFacts Collect ExportManifest ExportFacts.

Section Listing.
Variable toLowerCase : jsstring -> jsstring.
Variable FileHandle : Type.

Local Abbreviation collectFiles := (@Collect.collectFiles toLowerCase FileHandle).
Local Abbreviation isSupportedFile := (Collect.isSupportedFile toLowerCase).
Local Abbreviation shouldSkipFile := (Collect.shouldSkipFile toLowerCase).
Local Abbreviation Directory := (Collect.Directory FileHandle).

Lemma Directory_nested_ind (P : Directory -> Prop) :
  (forall entries,
     Forall (fun entry => match entry.2 with inr nested => P nested | inl _ => True end)
            entries ->
     P (directory entries)) ->
  forall dirHandle, P dirHandle.
Proof.
  intros Hstep. fix IH 1. intros [entries]. apply Hstep.
  induction entries as [|[name [handle|nested]] rest IHrest]; constructor; try done.
  apply IH.
Qed.

Lemma collectFiles_entries entries prefix :
  collectFiles (directory entries) prefix
  = entries ≫= Collect.collectEntry toLowerCase FileHandle prefix.
Proof.
  cbn [Collect.collectFiles].
  induction entries as [|[name [handle|nested]] rest IH]; [done| |].
  - rewrite IH. cbn [mbind list_bind Collect.collectEntry].
    by destruct (shouldSkipFile name), (negb (isSupportedFile name)).
  - rewrite IH. cbn [mbind list_bind Collect.collectEntry].
    by destruct (startsWith _ name).
Qed.

Lemma shouldSkipFile_false name :
  shouldSkipFile name = false /\ isSupportedFile name = true
  <-> listedFile toLowerCase name.
Proof.
  unfold Collect.shouldSkipFile, Collect.isSupportedFile, listedFile.
  rewrite !orb_false_iff, !bool_decide_eq_false, bool_decide_eq_true.
  split; [intros [[[[? ?] ?] ?] ?]; by split_and!|].
  intros (Hdot & ? & ? & ?). split_and!; try done.
  destruct name as [|c name]; [done|].
  change (str ".") with [46%N] in Hdot. change (str "._") with [46%N; 95%N].
  cbn [startsWith] in *. rewrite andb_true_r in Hdot. by rewrite Hdot.
Qed.

Lemma collectFiles_sound dirHandle : forall prefix handle path,
  (handle, path) ∈ collectFiles dirHandle prefix ->
  exists folders name,
    reaches folders dirHandle name handle /\
    Forall (fun folder => startsWith (str ".") folder = false) folders /\
    listedFile toLowerCase name /\
    path = foldl under prefix (folders ++ [name]).
Proof.
  induction dirHandle as [entries IH] using Directory_nested_ind.
  intros prefix handle path. rewrite collectFiles_entries.
  intros ([name [file|nested]] & Hin & Hentry)%list_elem_of_bind;
    cbn [Collect.collectEntry] in Hin.
  - destruct (shouldSkipFile name) eqn:Hskip; [by inv Hin|].
    destruct (isSupportedFile name) eqn:Hsup; [|by inv Hin].
    apply list_elem_of_singleton in Hin as [= -> ->].
    exists [], name. split_and!; try done.
    by apply shouldSkipFile_false.
  - destruct (startsWith _ name) eqn:Hdot; [by inv Hin|].
    rewrite Forall_forall in IH. specialize (IH _ Hentry). cbn in IH.
    apply IH in Hin as (folders & file & Hreach & Hvis & Hlisted & ->).
    exists (name :: folders), file. split_and!; try done.
    + by exists nested.
    + by constructor.
Qed.

Lemma collectFiles_complete folders : forall dirHandle prefix name handle,
  reaches folders dirHandle name handle ->
  Forall (fun folder => startsWith (str ".") folder = false) folders ->
  listedFile toLowerCase name ->
  (handle, foldl under prefix (folders ++ [name])) ∈ collectFiles dirHandle prefix.
Proof.
  induction folders as [|folder folders IH]; intros [entries] prefix name handle;
    cbn [reaches Collect.entries]; rewrite collectFiles_entries.
  - intros Hin _ Hlisted. apply list_elem_of_bind. eexists; split; [|exact Hin].
    cbn [Collect.collectEntry].
    apply shouldSkipFile_false in Hlisted as [-> ->]. cbn. by left.
  - intros (nested & Hin & Hreach) [Hdot Hvis]%Forall_cons Hlisted.
    apply list_elem_of_bind. eexists; split; [|exact Hin].
    cbn [Collect.collectEntry]. rewrite Hdot. by apply IH.
Qed.

(** X25: what [collectFiles] lists. A file handle is listed with a path
    exactly when it is reached from the directory through folders none
    of whose names starts with a dot, its own name does not start with
    a dot, is neither [thumbs.db] nor [desktop.ini] in any case, and
    has a supported extension; the path is then the prefix, the folder
    names and the file name joined by slashes. *)
Theorem collectFiles_lists dirHandle prefix handle path :
  (handle, path) ∈ collectFiles dirHandle prefix <->
  exists folders name,
    reaches folders dirHandle name handle /\
    Forall (fun folder => startsWith (str ".") folder = false) folders /\
    listedFile toLowerCase name /\
    path = foldl under prefix (folders ++ [name]).
Proof.
  split; [apply collectFiles_sound|].
  intros (folders & name & Hreach & Hvis & Hlisted & ->).
  by apply collectFiles_complete.
Qed.

End Listing.

Section Hierarchy.
Variable Date_parse : jsstring -> option Z.
Variable toLowerCase : jsstring -> jsstring.

Lemma pathParts_joined folders name :
  Forall plainName folders -> plainName name ->
  forall prefix, pathParts (foldl under prefix (folders ++ [name]))
                 = pathParts prefix ++ folders ++ [name].
Proof.
  intros Hfolders Hname.
  assert (Hunder : forall prefix segment, plainName segment ->
            pathParts (under prefix segment) = pathParts prefix ++ [segment]).
  { intros prefix segment Hs. unfold under. destruct prefix as [|c prefix]; cbn [nonEmpty].
    - by apply pathParts_plain.
    - by rewrite pathParts_app_sep, (pathParts_plain segment). }
  induction Hfolders as [|folder folders Hf _ IH]; intros prefix; cbn [foldl app].
  - by apply Hunder.
  - by rewrite IH, Hunder, <- app_assoc.
Qed.

Lemma photoOfEntry_folders (folders : list jsstring) (name : jsstring)
    (entry : FileEntry) (newId : jsstring) :
  Forall plainName folders -> plainName name ->
  path entry = foldl under [] (folders ++ [name]) ->
  let photo := photoOfEntry Date_parse toLowerCase entry newId in
  folderHierarchy photo = folders /\
  sourceFolder photo = default (str "root") (last folders).
Proof.
  intros Hfolders Hname Hpath. cbv zeta. unfold photoOfEntry.
  cbn [folderHierarchy sourceFolder].
  rewrite Hpath, pathParts_joined by done.
  change (pathParts [] ++ ?l) with l.
  assert (dropLast (folders ++ [name]) = folders) as ->.
  { unfold dropLast. rewrite length_app. cbn [length].
    replace (length folders + 1 - 1)%nat with (length folders) by lia.
    by rewrite take_app_length. }
  split_and!; try done.
  destruct (last folders) as [segment|] eqn:Hlast; [|done].
  apply last_Some_elem_of in Hlast. rewrite Forall_forall in Hfolders.
  destruct (Hfolders _ Hlast) as [Hne _]. by destruct segment.
Qed.

(** X26: the folders of a scanned photo. For a file listed at the root of
    a scan, below folders whose names, like its own, are not empty and
    hold no slash or backslash, the photo's folder hierarchy is the
    list of those folders, and its source folder the innermost of
    them, or ["root"] when the file lies in the scanned folder itself. *)
Theorem scanned_photo_folders (folders : list jsstring) (name : jsstring)
    (entry : FileEntry) (newId : jsstring) :
  Forall plainName folders -> plainName name ->
  path entry = foldl under [] (folders ++ [name]) ->
  let photo := photoOfEntry Date_parse toLowerCase entry newId in
  folderHierarchy photo = folders /\
  sourceFolder photo = default (str "root") (last folders).
Proof. exact (photoOfEntry_folders folders name entry newId). Qed.

End Hierarchy.

Example collectFiles_sampleFolder :
  collectFiles toLowerCaseLatin sampleFolder []
  = [(1%nat, str "01_DAYS/Day 01/IMG_0001.JPG"); (6%nat, str "IMG_0004.mov")].
Proof. vm_compute. reflexivity. Qed.

Lemma scanned_photo_folders_witness :
  let entry := jpeg "01_DAYS/Day 01/IMG_0001.JPG" "IMG_0001.JPG" 1000 3 in
  let photo := photoOfEntry isoDateOnly toLowerCaseLatin entry (testId 0) in
  path entry = foldl under [] ([str "01_DAYS"; str "Day 01"] ++ [str "IMG_0001.JPG"]) /\
  folderHierarchy photo = [str "01_DAYS"; str "Day 01"] /\
  sourceFolder photo = str "Day 01".
Proof.
  intros entry photo.
  assert (H : path entry
              = foldl under [] ([str "01_DAYS"; str "Day 01"] ++ [str "IMG_0001.JPG"]))
    by (vm_compute; reflexivity).
  split; [exact H|].
  apply (scanned_photo_folders isoDateOnly toLowerCaseLatin
           [str "01_DAYS"; str "Day 01"] (str "IMG_0001.JPG") entry (testId 0)).
  - constructor; [by apply plainName_check|].
    constructor; [by apply plainName_check|]. constructor.
  - by apply plainName_check.
  - exact H.
Defined.

End CollectFacts.

(** ** Source and destination roots: what they resolve to *)

Module PathResolverFacts.
Import RegExp Detector Reconciler ReconcilerFacts Structure ExportManifest ExportFacts
  Collect CollectFacts PathResolver.

(** *** Splitting and joining *)

Lemma splitSlash_nonnil s : splitSlash s <> [].
Proof. destruct s as [|c s]; simpl; [done|]. by destruct (_ =? _)%N, (splitSlash s). Qed.

Lemma splitSlash_app_sep a b :
  splitSlash (a ++ str "/" ++ b) = splitSlash a ++ splitSlash b.
Proof.
  induction a as [|c a IH]; [done|].
  change ((c :: a) ++ str "/" ++ b) with (c :: (a ++ str "/" ++ b)).
  cbn [splitSlash]. rewrite IH. destruct (_ =? _)%N; [done|].
  pose proof (splitSlash_nonnil a). by destruct (splitSlash a).
Qed.

Lemma splitSlash_whole n : 47%N ∉ n -> splitSlash n = [n].
Proof.
  induction n as [|c n IH]; [done|]. intros Hn. cbn [splitSlash].
  rewrite IH by (intros ?; apply Hn; by right).
  destruct (c =? 47)%N eqn:E; [|done]. apply N.eqb_eq in E as ->.
  destruct Hn. by left.
Qed.

Lemma join_cons part rest :
  rest <> [] -> join (part :: rest) = part ++ str "/" ++ join rest.
Proof. by destruct rest. Qed.

Lemma join_app parts1 parts2 :
  parts1 <> [] -> parts2 <> [] ->
  join (parts1 ++ parts2) = join parts1 ++ str "/" ++ join parts2.
Proof.
  intros H1 H2. induction parts1 as [|part parts1 IH]; [done|].
  destruct parts1 as [|part' parts1].
  - cbn [app]. by rewrite join_cons.
  - change ((part :: part' :: parts1) ++ parts2)
      with (part :: ((part' :: parts1) ++ parts2)).
    rewrite !join_cons by done. rewrite IH by done. by rewrite <- !app_assoc.
Qed.

Lemma join_splitSlash s : join (splitSlash s) = s.
Proof.
  induction s as [|c s IH]; [done|]. cbn [splitSlash].
  pose proof (splitSlash_nonnil s) as Hne.
  destruct (c =? 47)%N eqn:E.
  - apply N.eqb_eq in E as ->. rewrite join_cons by done. by rewrite IH.
  - destruct (splitSlash s) as [|seg segs]; [done|].
    destruct segs as [|seg' segs]; cbn [join] in *; by rewrite <- IH.
Qed.

Lemma plainName_no_slash n : plainName n -> 47%N ∉ n.
Proof.
  intros [_ Hn] Hin. rewrite Forall_forall in Hn. by destruct (Hn _ Hin).
Qed.

Lemma foldl_under_join folders name :
  Forall plainName folders -> plainName name ->
  foldl under [] (folders ++ [name]) = under (join folders) name /\
  under (join folders) name = join (folders ++ [name]).
Proof.
  intros Hfolders Hname.
  assert (Hgen : forall prefix, Forall plainName folders ->
            foldl under prefix (folders ++ [name])
            = under (if nonEmpty prefix then join (prefix :: folders) else join folders)
                    name).
  { clear Hfolders. intros prefix Hf. revert prefix.
    induction Hf as [|folder folders [Hne _] Hf IH]; intros prefix; cbn [foldl app].
    - by destruct prefix.
    - rewrite IH.
      assert (nonEmpty folder = true) as Hfolder by (by destruct folder).
      destruct prefix as [|c prefix].
      + change (under [] folder) with folder. cbn [nonEmpty]. by rewrite Hfolder.
      + change (under (c :: prefix) folder) with ((c :: prefix) ++ str "/" ++ folder).
        change (nonEmpty ((c :: prefix) ++ str "/" ++ folder)) with true.
        cbn [nonEmpty]. cbv iota. f_equal.
        destruct folders as [|folder' folders]; [done|].
        rewrite (join_cons (c :: prefix)) by done.
        rewrite !(join_cons _ (folder' :: folders)) by done.
        by rewrite <- !app_assoc. }
  split; [by rewrite Hgen|].
  unfold under. destruct folders as [|folder folders]; [done|].
  apply Forall_cons in Hfolders as [[Hne _] _].
  replace (nonEmpty (join (folder :: folders))) with true.
  - by rewrite join_app.
  - destruct folders; cbn [join]; by destruct folder.
Qed.

Lemma inFolder_intro folder name photo :
  filePath photo = Some (folder ++ str "/" ++ name) ->
  forallb (fun c => negb (c =? 47)%N) name = true ->
  inFolder folder photo.
Proof.
  intros Hpath Hname. unfold inFolder. rewrite Hpath.
  destruct (folder ++ str "/" ++ name) as [|c p] eqn:E; [done|].
  exists name. split; [|done]. intros Hin%list_elem_of_In.
  rewrite forallb_forall in Hname. specialize (Hname _ Hin). done.
Qed.

(** *** The common source path *)

Lemma commonDepthLoop_all pathParts paths n : forall a commonDepth,
  (forall i, (a <= i < a + n)%nat ->
     forallb (startsWith (join (take (i + 1) pathParts) ++ str "/")) paths = true) ->
  commonDepthLoop pathParts paths (seq a n) commonDepth
  = match n with O => commonDepth | S _ => Z.of_nat (a + n) end.
Proof.
  induction n as [|n IH]; intros a commonDepth Hall; [done|].
  cbn [seq commonDepthLoop]. rewrite Hall by lia.
  rewrite IH by (intros i Hi; apply Hall; lia).
  destruct n; lia.
Qed.

Lemma startsWith_prefix_of_folder folder name i :
  startsWith (join (take (i + 1) (splitSlash folder)) ++ str "/")
             (folder ++ str "/" ++ name) = true.
Proof.
  apply ArchiveFacts.startsWith_app.
  pose proof (splitSlash_nonnil folder) as Hne.
  pose proof (join_splitSlash folder) as Hjoin.
  rewrite <- (take_drop (i + 1) (splitSlash folder)) in Hjoin.
  destruct (drop (i + 1) (splitSlash folder)) as [|part parts] eqn:Hdrop.
  - rewrite app_nil_r in Hjoin. rewrite Hjoin. exists name. by rewrite <- app_assoc.
  - rewrite join_app in Hjoin;
      [|by destruct (splitSlash folder); rewrite ?Nat.add_1_r|done].
    exists (join (part :: parts) ++ str "/" ++ name).
    rewrite <- Hjoin at 1. by rewrite <- !app_assoc.
Qed.

Lemma detectCommonSourcePath_nil photos :
  detectCommonSourcePath photos = []
  <-> Forall (fun photo => truthy (filePath photo) = false) photos.
Proof.
  unfold detectCommonSourcePath.
  destruct (List.filter _ photos) as [|first rest] eqn:Hfilter.
  - split; [intros _|done]. apply Forall_forall. intros photo Hin.
    apply not_true_is_false. intros Ht.
    assert (photo ∈ List.filter (fun p => truthy (filePath p)) photos) as Hin'.
    { apply list_elem_of_In, List.filter_In. by rewrite <- list_elem_of_In. }
    rewrite Hfilter in Hin'. by inv Hin'.
  - assert (first ∈ List.filter (fun p => truthy (filePath p)) photos) as Hin
      by (rewrite Hfilter; left).
    apply list_elem_of_In, List.filter_In in Hin as [Hin Ht].
    apply list_elem_of_In in Hin. split.
    + cbv zeta. unfold str_or. by destruct (join _).
    + intros Hall. rewrite Forall_forall in Hall. by rewrite (Hall _ Hin) in Ht.
Qed.

Lemma detectCommonSourcePath_inFolder photos folder :
  folder <> [] -> Forall (inFolder folder) photos ->
  Exists (fun photo => truthy (filePath photo) = true) photos ->
  detectCommonSourcePath photos = folder.
Proof.
  intros Hfolder Hin Hex. unfold detectCommonSourcePath.
  assert (Hpaths : Forall (fun path => exists name, (47%N ∉ name) /\
                                         path = folder ++ str "/" ++ name)
            ((fun p => default [] (filePath p))
               <$> List.filter (fun p => truthy (filePath p)) photos)).
  { apply Forall_fmap, Forall_forall. intros photo Hp.
    apply list_elem_of_In, List.filter_In in Hp as [Hp Ht].
    apply list_elem_of_In in Hp. rewrite Forall_forall in Hin.
    specialize (Hin _ Hp). unfold inFolder in Hin. cbn.
    by destruct (filePath photo) as [[|c p]|]. }
  destruct (List.filter _ photos) as [|first rest] eqn:Hfilter.
  { exfalso. apply Exists_exists in Hex as (photo & Hp & Ht).
    assert (photo ∈ List.filter (fun p => truthy (filePath p)) photos) as Hin'.
    { apply list_elem_of_In, List.filter_In. by rewrite <- list_elem_of_In. }
    rewrite Hfilter in Hin'. by inv Hin'. }
  cbv zeta. set (paths := _ <$> (first :: rest)) in *.
  assert (exists name, (47%N ∉ name) /\
            default [] (filePath first) = folder ++ str "/" ++ name)
    as (name & Hname & ->) by (by apply Forall_cons in Hpaths as [? _]).
  rewrite splitSlash_app_sep, (splitSlash_whole name) by done.
  set (parts := splitSlash folder).
  assert (length parts <> 0)%nat as Hlen
    by (pose proof (splitSlash_nonnil folder); by destruct (splitSlash folder)).
  rewrite length_app. cbn [length].
  replace (length parts + 1 - 1)%nat with (length parts) by lia.
  rewrite commonDepthLoop_all.
  - destruct (length parts) as [|k] eqn:Hk; [done|].
    replace (Z.to_nat _) with (length parts) by lia.
    rewrite take_app_length. unfold parts. rewrite join_splitSlash.
    unfold str_or. by destruct folder.
  - intros i Hi. rewrite take_app_le by lia.
    apply forallb_forall. intros path Hpath%list_elem_of_In.
    rewrite Forall_forall in Hpaths.
    destruct (Hpaths _ Hpath) as (name' & _ & ->).
    apply startsWith_prefix_of_folder.
Qed.

(** X27: the source root of a project that is not ingested and has no
    source root of its own. It is the empty string exactly when no
    photo has a file path. When the photos that have one all lie
    directly in one folder, it is that folder, and so is the
    destination root used for the export. *)
Theorem resolveSourceRoot_folder (state : ResolverState.t) (photos : list ProjectPhoto) :
  truthy (ResolverState.sourceRoot state) = false ->
  ResolverState.ingested state = Some false ->
  (resolveSourceRoot state photos = []
   <-> Forall (fun photo => truthy (filePath photo) = false) photos) /\
  (forall folder, folder <> [] -> Forall (inFolder folder) photos ->
     Exists (fun photo => truthy (filePath photo) = true) photos ->
     resolveSourceRoot state photos = folder /\
     resolveDestinationRoot state photos None = folder).
Proof.
  intros Hroot Hing.
  assert (resolveSourceRoot state photos = detectCommonSourcePath photos) as Hsrc.
  { unfold resolveSourceRoot, isIngested. rewrite Hing.
    by destruct (ResolverState.sourceRoot state) as [[|c r]|]. }
  assert (resolveDestinationRoot state photos None = detectCommonSourcePath photos)
    as Hdst.
  { unfold resolveDestinationRoot, isIngested. by rewrite Hing, Hsrc. }
  rewrite Hsrc, Hdst. split; [apply detectCommonSourcePath_nil|].
  intros folder ? ? ?. split; by apply detectCommonSourcePath_inFolder.
Qed.

(** X28: the bucket folder and the export agree. For a project that
    counts as ingested, the folder [resolveMeceBucketPath] names for a
    day and a bucket is the one into which the export manifest, given
    the resolved destination root, copies a photo of that day and
    bucket that is not archived. *)
Theorem bucket_path_is_export_folder (state : ResolverState.t)
    (photos : list ProjectPhoto) (photo : ProjectPhoto) (d : Z) (key : jsstring) :
  isIngested state = true ->
  archived photo = false -> day photo = Some d -> bucket photo = Some key ->
  key <> [] ->
  destinationOf photo (resolveDestinationRoot state photos None) true
    (ResolverState.dayLabels state) (ResolverState.folderStructure state)
  = resolveMeceBucketPath state photos d key (bucketLabelOf bucketNames key)
    ++ str "/" ++ currentName photo.
Proof.
  intros Hing Harchived Hday Hbucket Hkey.
  unfold destinationOf, resolveMeceBucketPath, resolveDestinationRoot, bucketTargetPath.
  rewrite Hing, Harchived, Hday, Hbucket.
  destruct key as [|c key]; [done|]. by rewrite <- !app_assoc.
Qed.

Section Scanned.
Variable Date_parse : jsstring -> option Z.
Variable toLowerCase : jsstring -> jsstring.
Variable generateId : nat -> jsstring.

Local Abbreviation photoOfEntry := (Reconciler.photoOfEntry Date_parse toLowerCase).
Local Abbreviation buildPhotosFromHandle :=
  (Reconciler.buildPhotosFromHandle Date_parse toLowerCase generateId).

(** X29: the day source folder of scanned photos. For photos of a day
    whose first one was listed by a scan below folders with plain
    names, it is those folders joined by slashes, the folder the file
    lies in; for a file in the scanned folder itself that is the empty
    string, not the fallback root. *)
Theorem detectDaySourceFolder_scanned (folders : list jsstring) (name : jsstring)
    (entry : FileEntry) (newId : jsstring) (others : list ProjectPhoto)
    (fallbackRoot : jsstring) :
  Forall plainName folders -> plainName name ->
  path entry = foldl under [] (folders ++ [name]) ->
  detectDaySourceFolder (photoOfEntry entry newId :: others) fallbackRoot = join folders /\
  path entry = under (join folders) name.
Proof.
  intros Hfolders Hname Hpath.
  destruct (photoOfEntry_folders Date_parse toLowerCase folders name entry newId
              Hfolders Hname Hpath) as [Hh _].
  destruct (foldl_under_join folders name Hfolders Hname) as [Hjoin _].
  split; [|by rewrite Hpath].
  unfold detectDaySourceFolder. rewrite Hh.
  destruct folders as [|folder folders]; [|done].
  change (filePath (photoOfEntry entry newId)) with (Some (path entry)).
  rewrite Hpath. cbn [app foldl]. change (under [] name) with name.
  destruct Hname as [Hne Hplain]. destruct name as [|c name]; [done|].
  rewrite (splitSlash_whole (c :: name)).
  - done.
  - apply plainName_no_slash. by split.
Qed.


End Scanned.

Lemma resolveSourceRoot_folder_witness :
  truthy (ResolverState.sourceRoot tripState) = false /\
  ResolverState.ingested tripState = Some false /\
  resolveSourceRoot tripState tripPhotos = str "/photos/trip" /\
  resolveDestinationRoot tripState tripPhotos None = str "/photos/trip".
Proof.
  split; [reflexivity|]. split; [reflexivity|].
  apply (proj2 (resolveSourceRoot_folder tripState tripPhotos eq_refl eq_refl)).
  - discriminate.
  - constructor; [by apply (inFolder_intro _ (str "IMG_001.jpg"))|].
    constructor; [by apply (inFolder_intro _ (str "IMG_002.jpg"))|]. constructor.
  - by left.
Defined.

Lemma bucket_path_is_export_folder_witness :
  let photo := photoOfEntry isoDateOnly toLowerCaseLatin exportedFile (testId 0) in
  isIngested ingestedState = true /\
  day photo = Some 1 /\ bucket photo = Some (str "A") /\
  resolveMeceBucketPath ingestedState [photo] 1 (str "A") (str "Establishing")
  = str "/project/root/01_DAYS/Day 01/A_Establishing" /\
  destinationOf photo (resolveDestinationRoot ingestedState [photo] None) true ∅
    DEFAULT_FOLDERS
  = str "/project/root/01_DAYS/Day 01/A_Establishing/IMG_0001.jpg".
Proof.
  intros photo.
  assert (Hday : day photo = Some 1) by (vm_compute; reflexivity).
  assert (Hbucket : bucket photo = Some (str "A")) by (vm_compute; reflexivity).
  split; [reflexivity|]. split; [exact Hday|]. split; [exact Hbucket|].
  split; [vm_compute; reflexivity|].
  assert (Hkey : str "A" <> []) by discriminate.
  etrans; [exact (bucket_path_is_export_folder ingestedState [photo] photo 1 (str "A")
                    eq_refl eq_refl Hday Hbucket Hkey)|].
  vm_compute. reflexivity.
Defined.

Lemma detectDaySourceFolder_scanned_witness :
  let entry := jpeg "01_DAYS/Day 01/IMG_0001.JPG" "IMG_0001.JPG" 1000 3 in
  let photo := photoOfEntry isoDateOnly toLowerCaseLatin entry (testId 0) in
  path entry = foldl under [] ([str "01_DAYS"; str "Day 01"] ++ [str "IMG_0001.JPG"]) /\
  detectDaySourceFolder [photo] (str "/project/root") = str "01_DAYS/Day 01".
Proof.
  intros entry photo.
  assert (H : path entry
              = foldl under [] ([str "01_DAYS"; str "Day 01"] ++ [str "IMG_0001.JPG"]))
    by (vm_compute; reflexivity).
  split; [exact H|].
  refine (proj1 (detectDaySourceFolder_scanned isoDateOnly toLowerCaseLatin
                   [str "01_DAYS"; str "Day 01"] (str "IMG_0001.JPG") entry (testId 0)
                   [] (str "/project/root") _ _ H)).
  - constructor; [by apply plainName_check|].
    constructor; [by apply plainName_check|]. constructor.
  - by apply plainName_check.
Defined.


End PathResolverFacts.
